(** * Monitoring core of the channel downloader: store, download queue, scheduler

    Shallow embedding of
      - [Storage]              (src/db.js, the JSON file store),
      - [DownloadQueue]        (src/queue.js, the bounded worker pool),
      - [MonitoringScheduler]  (src/scheduler.js, the polling scheduler),
    followed by the properties of the specification that concern them, and of
      - [CleanupService]       (src/cleanup.js, the removal of old files),
      - [TelegramService]      (src/telegram.js, the retry loop of a message),
      - the pool of [fetchVideosDetailsAsync] (src/utils.js),
      - [_sanitizeFileName]    (src/queue.js),
    with further properties of all of them, read off the code.

    Conventions.
      - A JS object used as a dictionary ([data.videos]) is a [gmap string];
        arrays ([data.channels], [data.downloads], listings) are lists.
      - [null] and [undefined] are [None]; a timestamp
        ([Date.now()], [new Date().toISOString()]) is the millisecond count [N].
      - The clock, [Math.random()], the result of a channel listing and the exit
        of the [yt-dlp] process are inputs of the operations that consult them.
      - The store's methods are [async] but contain no real suspension point
        (the file system calls are the synchronous ones), so each of them is a
        function from the store to a result and the next store.
      - File system calls succeed: a write or a rename that throws is not
        part of the model, nor is a file that parses to something other
        than a snapshot of the store. *)

From stdpp Require Import base gmap list strings pretty.

Open Scope string_scope.

(** ** Data model *)

(** [dl.status]: the four strings the code ever writes or compares with. *)
Inductive Status := pending | downloading | completed | failed.

#[global] Instance Status_eq_dec : EqDecision Status.
Proof. solve_decision. Defined.

Module Channel.
Record t := mk {
  id : string;
  url : string;
  name : option string;
  enabled : bool;
  lastCheckAt : option N;
  createdAt : N
}.
Definition set_enabled (b : bool) (c : t) : t :=
  mk (id c) (url c) (name c) b (lastCheckAt c) (createdAt c).
Definition set_lastCheckAt (x : option N) (c : t) : t :=
  mk (id c) (url c) (name c) (enabled c) x (createdAt c).
End Channel.

(** One entry of a channel listing, as [fetchChannelVideosBasic] resolves it. *)
Module VideoData.
Record t := mk {
  id : string;
  title : string;
  url : string;
  thumbnail : option string;
  duration : option N;
  upload_date : option string
}.
End VideoData.

Module Video.
Record t := mk {
  id : string;
  channelId : string;
  title : string;
  url : string;
  thumbnail : option string;
  duration : option N;
  uploadDate : option string;
  discoveredAt : N
}.
Definition set_id (x : string) (v : t) : t :=
  mk x (channelId v) (title v) (url v) (thumbnail v) (duration v)
     (uploadDate v) (discoveredAt v).
End Video.

Module Download.
Record t := mk {
  id : string;
  videoId : string;
  status : Status;
  quality : string;
  filePath : option string;
  retryCount : nat;
  errorMessage : option string;
  startedAt : option N;
  completedAt : option N
}.
Definition set_status (s : Status) (d : t) : t :=
  mk (id d) (videoId d) s (quality d) (filePath d) (retryCount d)
     (errorMessage d) (startedAt d) (completedAt d).
Definition set_filePath (x : option string) (d : t) : t :=
  mk (id d) (videoId d) (status d) (quality d) x (retryCount d)
     (errorMessage d) (startedAt d) (completedAt d).
Definition set_retryCount (n : nat) (d : t) : t :=
  mk (id d) (videoId d) (status d) (quality d) (filePath d) n
     (errorMessage d) (startedAt d) (completedAt d).
Definition set_errorMessage (x : option string) (d : t) : t :=
  mk (id d) (videoId d) (status d) (quality d) (filePath d) (retryCount d)
     x (startedAt d) (completedAt d).
Definition set_startedAt (x : option N) (d : t) : t :=
  mk (id d) (videoId d) (status d) (quality d) (filePath d) (retryCount d)
     (errorMessage d) x (completedAt d).
Definition set_completedAt (x : option N) (d : t) : t :=
  mk (id d) (videoId d) (status d) (quality d) (filePath d) (retryCount d)
     (errorMessage d) (startedAt d) x.
End Download.

(** [this.data] of the store. *)
Record Data := mkData {
  channels : list Channel.t;
  videos : gmap string Video.t;
  downloads : list Download.t
}.

Definition set_channels (x : list Channel.t) (d : Data) : Data :=
  mkData x (videos d) (downloads d).
Definition set_videos (x : gmap string Video.t) (d : Data) : Data :=
  mkData (channels d) x (downloads d).
Definition set_downloads (x : list Download.t) (d : Data) : Data :=
  mkData (channels d) (videos d) x.

(** ** JS helpers *)

(** [x || null] on an optional string: the empty string is falsy. *)
Definition str_or_null (x : option string) : option string :=
  match x with
  | Some s => if s =? "" then None else Some s
  | None => None
  end.

(** [x || null] on an optional number: zero is falsy. *)
Definition num_or_null (x : option N) : option N :=
  match x with
  | Some n => if (n =? 0)%N then None else Some n
  | None => None
  end.

(** [arr.find(p)] followed by an in-place mutation [f] of the element found:
    the first element that satisfies [p] is replaced, nothing else. *)
Fixpoint update_first {A} (p : A → bool) (f : A → A) (l : list A) : list A :=
  match l with
  | [] => []
  | x :: r => if p x then f x :: r else x :: update_first p f r
  end.

(** ** The file system, as far as the store uses it *)

(** What a file holds: the [JSON.stringify] image of a snapshot, which
    [JSON.parse] gives back (the fields of a snapshot are strings, booleans,
    small numbers and [null], which the two built-ins carry over exactly),
    or text that [JSON.parse] rejects. *)
Inductive Content := Json (d : Data) | Garbage.

Module Fs.
Definition existsSync (p : string) (fs : gmap string Content) : bool :=
  bool_decide (is_Some (fs !! p)).

Definition writeFileSync (p : string) (c : Content)
    (fs : gmap string Content) : gmap string Content :=
  <[p := c]> fs.

Definition renameSync (old new : string)
    (fs : gmap string Content) : gmap string Content :=
  match fs !! old with
  | Some c => <[new := c]> (delete old fs)
  | None => fs
  end.
End Fs.

(** ** Storage (src/db.js) *)

Module Storage.

Record t := mk {
  filePath : string;
  data : Data;
  fs : gmap string Content
}.

Definition set_data (d : Data) (st : t) : t := mk (filePath st) d (fs st).
Definition set_fs (f : gmap string Content) (st : t) : t :=
  mk (filePath st) (data st) f.
Definition map_data (f : Data → Data) (st : t) : t :=
  set_data (f (data st)) st.

(** [constructor(filePath)] *)
Definition new (path : string) (fs0 : gmap string Content) : t :=
  mk path (mkData [] ∅ []) fs0.

(** [save()]: write the snapshot to [filePath + '.tmp'], rename it over
    [filePath]. *)
Definition save (st : t) : t :=
  let tempFile := filePath st +:+ ".tmp" in
  let fs1 := Fs.writeFileSync tempFile (Json (data st)) (fs st) in
  set_fs (Fs.renameSync tempFile (filePath st) fs1) st.

(** The [forEach] of [init] that resets the tasks left in ['downloading']. *)
Definition resetDownloading (dl : Download.t) : Download.t :=
  if decide (Download.status dl = downloading)
  then Download.set_status pending dl else dl.

Definition resetCount (dls : list Download.t) : nat :=
  length (filter (λ dl, Download.status dl = downloading) dls).

(** The migration loop of [init]: a video without [id] gets its key. *)
Definition migrateVideo (videoId : string) (video : Video.t) : Video.t :=
  if Video.id video =? "" then Video.set_id videoId video else video.

Definition migrateVideos (vs : gmap string Video.t) : gmap string Video.t :=
  map_imap (λ videoId video, Some (migrateVideo videoId video)) vs.

Definition migrated (vs : gmap string Video.t) : bool :=
  existsb (λ kv, Video.id kv.2 =? "") (map_to_list vs).

(** The [try] block of [init] up to the end of the load; [None] when
    [JSON.parse] throws. *)
Definition load (st : t) : option t :=
  match fs st !! filePath st with
  | Some (Json d) => Some (set_data d st)
  | Some Garbage => None
  | None => Some (save st)
  end.

(** [init()]. [now] is the [Date.now()] of the backup name. *)
Definition init (now : N) (st : t) : t :=
  match load st with
  | Some st1 =>
      let n := resetCount (downloads (data st1)) in
      let st2 :=
        map_data (λ d, set_downloads (resetDownloading <$> downloads d) d) st1 in
      let st3 := if decide (0 < n) then save st2 else st2 in
      let m := migrated (videos (data st3)) in
      let st4 := map_data (λ d, set_videos (migrateVideos (videos d)) d) st3 in
      if m then save st4 else st4
  | None =>
      let st1 :=
        if Fs.existsSync (filePath st) (fs st)
        then
          let backupPath := filePath st +:+ ".backup." +:+ pretty now in
          set_fs (Fs.renameSync (filePath st) backupPath (fs st)) st
        else st in
      save st1
  end.

(** [addChannel(url, name)] *)
Definition addChannel (url : string) (name : option string) (now : N)
    (st : t) : string * t :=
  match find (λ ch, Channel.url ch =? url) (channels (data st)) with
  | Some existing => (Channel.id existing, st)
  | None =>
      let id := "ch_" +:+ pretty now in
      let channel := Channel.mk id url (str_or_null name) true None now in
      (id, save (map_data (λ d, set_channels (channels d ++ [channel]) d) st))
  end.

(** [getChannels(enabledOnly)] *)
Definition getChannels (enabledOnly : bool) (st : t) : list Channel.t :=
  if enabledOnly
  then List.filter (λ ch, Channel.enabled ch) (channels (data st))
  else channels (data st).

(** [toggleChannel(id, enabled)] *)
Definition toggleChannel (id : string) (enabled : bool) (st : t) : t :=
  match find (λ ch, Channel.id ch =? id) (channels (data st)) with
  | Some _ =>
      save (map_data (λ d, set_channels
        (update_first (λ ch, Channel.id ch =? id)
                      (Channel.set_enabled enabled) (channels d)) d) st)
  | None => st
  end.

(** [removeChannel(id)] *)
Definition removeChannel (id : string) (st : t) : t :=
  save (map_data (λ d, set_channels
    (List.filter (λ ch, negb (Channel.id ch =? id)) (channels d)) d) st).

(** [updateChannelLastCheck(id)] *)
Definition updateChannelLastCheck (id : string) (now : N) (st : t) : t :=
  match find (λ ch, Channel.id ch =? id) (channels (data st)) with
  | Some _ =>
      save (map_data (λ d, set_channels
        (update_first (λ ch, Channel.id ch =? id)
                      (Channel.set_lastCheckAt (Some now)) (channels d)) d) st)
  | None => st
  end.

(** [videoExists(videoId)] *)
Definition videoExists (videoId : string) (st : t) : bool :=
  bool_decide (is_Some (videos (data st) !! videoId)).

(** [getVideo(videoId)] *)
Definition getVideo (videoId : string) (st : t) : option Video.t :=
  videos (data st) !! videoId.

(** [addVideo(channelId, videoData)] *)
Definition addVideo (channelId : string) (videoData : VideoData.t) (now : N)
    (st : t) : bool * t :=
  match videos (data st) !! VideoData.id videoData with
  | None =>
      let video :=
        Video.mk (VideoData.id videoData) channelId
                 (VideoData.title videoData) (VideoData.url videoData)
                 (VideoData.thumbnail videoData)
                 (num_or_null (VideoData.duration videoData))
                 (str_or_null (VideoData.upload_date videoData))
                 now in
      (true, save (map_data (λ d, set_videos
               (<[VideoData.id videoData := video]> (videos d)) d) st))
  | Some _ => (false, st)
  end.

(** The test of [createDownload]: same video, ['pending'] or
    ['downloading']. *)
Definition inQueue (videoId : string) (dl : Download.t) : bool :=
  (Download.videoId dl =? videoId) &&
  bool_decide (Download.status dl ∈ [pending; downloading]).

(** ['dl_' + Date.now() + '_' + Math.random().toString(36).substr(2, 9)];
    [rnd] is the nine base-36 digits drawn from [Math.random()]. *)
Definition newDownloadId (now : N) (rnd : string) : string :=
  "dl_" +:+ pretty now +:+ "_" +:+ rnd.

(** [createDownload(videoId, quality)] *)
Definition createDownload (videoId quality : string) (now : N) (rnd : string)
    (st : t) : string * t :=
  match find (inQueue videoId) (downloads (data st)) with
  | Some existing => (Download.id existing, st)
  | None =>
      let id := newDownloadId now rnd in
      let download :=
        Download.mk id videoId pending quality None 0 None None None in
      (id, save (map_data (λ d, set_downloads (downloads d ++ [download]) d) st))
  end.

(** [getPendingDownloads(limit)] *)
Definition getPendingDownloads (limit : nat) (st : t) : list Download.t :=
  take limit
    (List.filter (λ dl, bool_decide (Download.status dl = pending))
                 (downloads (data st))).

(** The [data] argument of [updateDownloadStatus]: the keys the callers
    pass.  [None] is an absent key, [Some x] a key with value [x]. *)
Record Patch := mkPatch {
  p_filePath : option (option string);
  p_errorMessage : option (option string);
  p_completedAt : option (option N)
}.

Definition noPatch : Patch := mkPatch None None None.

(** [Object.assign(download, data)] *)
Definition assign (p : Patch) (dl : Download.t) : Download.t :=
  let dl1 := match p_filePath p with
             | Some x => Download.set_filePath x dl | None => dl end in
  let dl2 := match p_errorMessage p with
             | Some x => Download.set_errorMessage x dl1 | None => dl1 end in
  match p_completedAt p with
  | Some x => Download.set_completedAt x dl2 | None => dl2 end.

(** The body of [if (download) { ... }] in [updateDownloadStatus]. *)
Definition applyStatus (status : Status) (p : Patch) (now : N)
    (dl : Download.t) : Download.t :=
  let dl1 := assign p (Download.set_status status dl) in
  let dl2 :=
    if bool_decide (status = downloading) &&
       bool_decide (Download.startedAt dl1 = None)
    then Download.set_startedAt (Some now) dl1 else dl1 in
  if bool_decide (status = completed) || bool_decide (status = failed)
  then Download.set_completedAt (Some now) dl2 else dl2.

(** [updateDownloadStatus(id, status, data)] *)
Definition updateDownloadStatus (id : string) (status : Status) (p : Patch)
    (now : N) (st : t) : t :=
  match find (λ dl, Download.id dl =? id) (downloads (data st)) with
  | Some _ =>
      save (map_data (λ d, set_downloads
        (update_first (λ dl, Download.id dl =? id)
                      (applyStatus status p now) (downloads d)) d) st)
  | None => st
  end.

(** The three assignments of [retryFailedDownload]. *)
Definition requeue (dl : Download.t) : Download.t :=
  Download.set_errorMessage None
    (Download.set_retryCount (S (Download.retryCount dl))
       (Download.set_status pending dl)).

(** [retryFailedDownload(id)] *)
Definition retryFailedDownload (id : string) (st : t) : bool * t :=
  match find (λ dl, Download.id dl =? id) (downloads (data st)) with
  | Some download =>
      if decide (Download.retryCount download < 2)
      then (true, save (map_data (λ d, set_downloads
              (update_first (λ dl, Download.id dl =? id) requeue
                            (downloads d)) d) st))
      else (false, st)
  | None => (false, st)
  end.

(** [getDownloadStats()] *)
Record Stats := mkStats {
  s_pending : nat; s_downloading : nat; s_completed : nat; s_failed : nat
}.

Definition countStatus (s : Status) (dls : list Download.t) : nat :=
  length (filter (λ dl, Download.status dl = s) dls).

Definition getDownloadStats (st : t) : Stats :=
  let dls := downloads (data st) in
  mkStats (countStatus pending dls) (countStatus downloading dls)
          (countStatus completed dls) (countStatus failed dls).

(** The test of the [filter] in [getOldDownloads]: completed, with a
    completion date and a file path, and completed before [cutoffDate]. *)
Definition isOld (cutoffDate : N) (dl : Download.t) : bool :=
  match Download.status dl, Download.completedAt dl, Download.filePath dl with
  | completed, Some completedDate, Some p =>
      negb (p =? "") && (completedDate <? cutoffDate)%N
  | _, _, _ => false
  end.

(** [getOldDownloads(daysOld)]. [cutoffDate] is the date the method
    computes first: [new Date()] set back by [daysOld] days of the local
    calendar. *)
Definition getOldDownloads (cutoffDate : N) (st : t) : list Download.t :=
  List.filter (isOld cutoffDate) (downloads (data st)).

End Storage.


(** ** DownloadQueue (src/queue.js) *)

(** How the [yt-dlp] process of [_executeDownload] ends: ['close'] with code
    0, or a non-zero code or an ['error'] event, which reject with a message. *)
Inductive Exit := ExitOk | ExitError (message : string).

Module DownloadQueue.

(** [config.monitoring], the object the queue and the scheduler are given. *)
Record Config := mkConfig {
  latestVideosCount : nat;
  maxConcurrentDownloads : nat;
  defaultQuality : string
}.

(** A [_downloadNext] suspended on [await this._executeDownload(...)]: the
    process it spawned and the [{ id, videoId }] it holds. *)
Record Execution := mkExecution {
  e_proc : N;
  e_id : string;
  e_videoId : string
}.

(** The fields of the object, and the two parts of the event loop that
    belong to it: the number of [_processQueue] callbacks handed to
    [setImmediate]/[setTimeout] and not yet run, and the suspended
    executions. *)
Record t := mk {
  storage : Storage.t;
  config : Config;
  activeDownloads : gmap string N;
  isRunning : bool;
  isStopping : bool;
  callbacks : nat;
  executions : list Execution
}.

Definition set_storage (x : Storage.t) (q : t) : t :=
  mk x (config q) (activeDownloads q) (isRunning q) (isStopping q)
     (callbacks q) (executions q).
Definition set_activeDownloads (x : gmap string N) (q : t) : t :=
  mk (storage q) (config q) x (isRunning q) (isStopping q)
     (callbacks q) (executions q).
Definition set_flags (running stopping : bool) (q : t) : t :=
  mk (storage q) (config q) (activeDownloads q) running stopping
     (callbacks q) (executions q).
Definition set_callbacks (n : nat) (q : t) : t :=
  mk (storage q) (config q) (activeDownloads q) (isRunning q) (isStopping q)
     n (executions q).
Definition set_executions (x : list Execution) (q : t) : t :=
  mk (storage q) (config q) (activeDownloads q) (isRunning q) (isStopping q)
     (callbacks q) x.

(** [constructor(storage, config, ...)] *)
Definition new (st : Storage.t) (cfg : Config) : t :=
  mk st cfg ∅ false false 0 [].

(** [setImmediate(() => this._processQueue())] and its [setTimeout] twin. *)
Definition schedule (q : t) : t := set_callbacks (S (callbacks q)) q.

(** [enqueue(videoId, quality)] *)
Definition enqueue (videoId quality : string) (now : N) (rnd : string)
    (q : t) : string * t :=
  let '(downloadId, st) :=
    Storage.createDownload videoId quality now rnd (storage q) in
  let q1 := set_storage st q in
  (downloadId,
   if isRunning q1 &&
      bool_decide (size (activeDownloads q1) < maxConcurrentDownloads (config q1))
   then schedule q1 else q1).

(** [_handleFailure(downloadId, videoId, errorMessage)] *)
Definition _handleFailure (downloadId videoId : string)
    (errorMessage : option string) (now : N) (q : t) : t :=
  let download := Storage.getPendingDownloads 100 (storage q) in
  match find (λ d, Download.id d =? downloadId) download with
  | None => q
  | Some currentDownload =>
      let retryCount := Download.retryCount currentDownload in
      if decide (retryCount < 2)
      then set_storage (Storage.retryFailedDownload downloadId (storage q)).2 q
      else
        let patch :=
          Storage.mkPatch None (Some (String.substring 0 500 <$> errorMessage))
                          (Some (Some now)) in
        set_storage
          (Storage.updateDownloadStatus downloadId failed patch now (storage q)) q
  end.

(** [_downloadNext(download)] up to [await this._executeDownload(...)]:
    every [await] before it is on a store method that has already run to
    its end, so this part runs without interruption.  [proc] is the process
    [spawn] returns. *)
Definition _downloadNext (download : Download.t) (now proc : N) (q : t) : t :=
  let id := Download.id download in
  let videoId := Download.videoId download in
  match Storage.getVideo videoId (storage q) with
  | None =>
      let patch := Storage.mkPatch None (Some (Some "视频信息不存在")) None in
      let st := Storage.updateDownloadStatus id failed patch now (storage q) in
      set_activeDownloads (delete id (activeDownloads q)) (set_storage st q)
  | Some video =>
      let st :=
        Storage.updateDownloadStatus id downloading Storage.noPatch now
                                     (storage q) in
      let q1 := set_storage st q in
      let q2 := set_activeDownloads (<[id := proc]> (activeDownloads q1)) q1 in
      set_executions (executions q2 ++ [mkExecution proc id videoId]) q2
  end.

(** The rest of [_downloadNext], when the process has ended.  [filePath] is
    the [path.join(outputPath, _sanitizeFileName(title) + '.mp4')] of the
    success branch. *)
Definition _downloadNext_settled (e : Execution) (exit : Exit)
    (filePath : string) (now : N) (q : t) : t :=
  let q1 :=
    match exit with
    | ExitOk =>
        let patch :=
          Storage.mkPatch (Some (Some filePath)) None (Some (Some now)) in
        set_storage
          (Storage.updateDownloadStatus (e_id e) completed patch now (storage q)) q
    | ExitError message =>
        _handleFailure (e_id e) (e_videoId e) (Some message) now q
    end in
  set_activeDownloads (delete (e_id e) (activeDownloads q1)) q1.

(** [_processQueue()] *)
Definition _processQueue (now proc : N) (q : t) : t :=
  if isStopping q || negb (isRunning q) then q
  else if decide (maxConcurrentDownloads (config q) ≤ size (activeDownloads q))%nat
  then schedule q
  else
    match Storage.getPendingDownloads 1 (storage q) with
    | [] => schedule q
    | download :: _ => schedule (_downloadNext download now proc q)
    end.

(** [start()] *)
Definition start (now proc : N) (q : t) : t :=
  if isRunning q then q else _processQueue now proc (set_flags true false q).

(** [stop()]: the flags; the wait for the active downloads changes nothing. *)
Definition stop (q : t) : t := set_flags false true q.

(** [getStatus()] *)
Record QueueStatus := mkQueueStatus {
  qs_running : bool;
  qs_active : nat;
  qs_pending : nat;
  qs_completed : nat;
  qs_failed : nat;
  qs_maxConcurrent : nat
}.

Definition getStatus (q : t) : QueueStatus :=
  let stats := Storage.getDownloadStats (storage q) in
  mkQueueStatus (isRunning q) (size (activeDownloads q))
    (Storage.s_pending stats) (Storage.s_completed stats)
    (Storage.s_failed stats) (maxConcurrentDownloads (config q)).

(** *** The queue on the event loop

    One event is one turn of the event loop together with the microtasks it
    leaves behind; the turns that touch the queue are these. *)
Inductive Event :=
  | Enqueue (videoId quality : string) (now : N) (rnd : string)
  | Start (now proc : N)
  | Stop
  | Callback (now proc : N)
  | Close (n : nat) (exit : Exit) (filePath : string) (now : N)
  | Retry (downloadId : string).

Definition step (q : t) (ev : Event) : t :=
  match ev with
  | Enqueue videoId quality now rnd => (enqueue videoId quality now rnd q).2
  | Start now proc => start now proc q
  | Stop => stop q
  | Callback now proc =>
      match callbacks q with
      | 0 => q
      | S n => _processQueue now proc (set_callbacks n q)
      end
  | Close n exit filePath now =>
      match executions q !! n with
      | Some e =>
          _downloadNext_settled e exit filePath now
            (set_executions (delete n (executions q)) q)
      | None => q
      end
  | Retry downloadId =>
      set_storage (Storage.retryFailedDownload downloadId (storage q)).2 q
  end.

Definition run (q : t) (evs : list Event) : t := foldl step q evs.

End DownloadQueue.


(** ** MonitoringScheduler (src/scheduler.js) *)

Module MonitoringScheduler.

(** [this.storage] is the store of [this.queueManager] and [this.config] its
    configuration: the constructor is handed the same objects.  [listed]
    records the channel urls given to [fetchChannelVideosBasic], oldest
    first. *)
Record t := mk {
  queueManager : DownloadQueue.t;
  cronTask : bool;
  _isChecking : bool;
  listed : list string
}.

Definition storage (s : t) : Storage.t :=
  DownloadQueue.storage (queueManager s).
Definition config (s : t) : DownloadQueue.Config :=
  DownloadQueue.config (queueManager s).

Definition set_queueManager (q : DownloadQueue.t) (s : t) : t :=
  mk q (cronTask s) (_isChecking s) (listed s).
Definition set_storage (st : Storage.t) (s : t) : t :=
  set_queueManager (DownloadQueue.set_storage st (queueManager s)) s.
Definition set_cronTask (b : bool) (s : t) : t :=
  mk (queueManager s) b (_isChecking s) (listed s).
Definition set_isChecking (b : bool) (s : t) : t :=
  mk (queueManager s) (cronTask s) b (listed s).
Definition set_listed (l : list string) (s : t) : t :=
  mk (queueManager s) (cronTask s) (_isChecking s) l.

(** [constructor(storage, queueManager, config, io)] *)
Definition new (q : DownloadQueue.t) : t := mk q false false [].

(** What the outside contributes to the check of one channel: the listing
    [fetchChannelVideosBasic] resolves ([None] when it rejects), the clock,
    and the random suffix of the [k]-th task created. *)
Record Reply := mkReply {
  listing : option (list VideoData.t);
  clock : N;
  random : nat → string
}.

(** The body of the loop of step 3 of [checkChannel]: [addVideo], then
    [enqueue] at the default quality. *)
Definition addAndEnqueue1 (channelId : string) (video : VideoData.t)
    (k : nat) (r : Reply) (s : t) : t :=
  let st1 := (Storage.addVideo channelId video (clock r) (storage s)).2 in
  let s1 := set_storage st1 s in
  let q2 :=
    (DownloadQueue.enqueue (VideoData.id video)
       (DownloadQueue.defaultQuality (config s1)) (clock r) (random r k)
       (queueManager s1)).2 in
  set_queueManager q2 s1.

(** Step 3 of [checkChannel], video by video. *)
Fixpoint addAndEnqueue (channelId : string) (newVideos : list VideoData.t)
    (k : nat) (r : Reply) (s : t) : t :=
  match newVideos with
  | [] => s
  | video :: rest =>
      addAndEnqueue channelId rest (S k) r (addAndEnqueue1 channelId video k r s)
  end.

(** [checkChannel(channel)]: [Some n] for [return n], [None] for the
    rethrown error. *)
Definition checkChannel (channel : Channel.t) (r : Reply) (s : t)
    : option nat * t :=
  let s0 := set_listed (listed s ++ [Channel.url channel]) s in
  match listing r with
  | None => (None, s0)
  | Some videos =>
      let newVideos :=
        List.filter
          (λ video, negb (Storage.videoExists (VideoData.id video) (storage s0)))
          videos in
      match newVideos with
      | [] =>
          (Some 0,
           set_storage
             (Storage.updateChannelLastCheck (Channel.id channel) (clock r)
                                             (storage s0)) s0)
      | _ :: _ =>
          let s1 := addAndEnqueue (Channel.id channel) newVideos 0 r s0 in
          (Some (length newVideos),
           set_storage
             (Storage.updateChannelLastCheck (Channel.id channel) (clock r)
                                             (storage s1)) s1)
      end
  end.

(** [stats] of [checkAllChannelsNow]. *)
Record Stats := mkStats {
  totalChannels : nat;
  newVideos : nat;
  errors : nat
}.

(** A [checkAllChannelsNow] past its guard: the channels still to check, the
    loop index and the statistics so far. *)
Record Pass := mkPass {
  p_todo : list Channel.t;
  p_i : nat;
  p_stats : Stats
}.

(** [checkAllChannelsNow()] from the call to its first [await]: the guard,
    the flag, the snapshot of the enabled channels. *)
Definition checkAllChannelsNow_enter (s : t) : option Pass * t :=
  if _isChecking s then (None, s)
  else
    let s1 := set_isChecking true s in
    let channels := Storage.getChannels true (storage s1) in
    (Some (mkPass channels 0 (mkStats (length channels) 0 0)), s1).

(** One turn of the [for] loop, on the channel at the head of [p_todo]. *)
Definition checkAllChannelsNow_iter (channel : Channel.t)
    (rest : list Channel.t) (r : Reply) (p : Pass) (s : t) : Pass * t :=
  let stats := p_stats p in
  match checkChannel channel r s with
  | (Some newCount, s1) =>
      (mkPass rest (S (p_i p))
         (mkStats (totalChannels stats) (newVideos stats + newCount)
                  (errors stats)), s1)
  | (None, s1) =>
      (mkPass rest (S (p_i p))
         (mkStats (totalChannels stats) (newVideos stats)
                  (S (errors stats))), s1)
  end.

(** The [finally] block. *)
Definition checkAllChannelsNow_leave (s : t) : t := set_isChecking false s.

(** The [for] loop run to its end; [env i] is the reply of turn [i]. *)
Fixpoint scan (env : nat → Reply) (p : Pass) (todo : list Channel.t)
    (s : t) : Pass * t :=
  match todo with
  | [] => (p, s)
  | channel :: rest =>
      let '(p1, s1) := checkAllChannelsNow_iter channel rest (env (p_i p)) p s in
      scan env p1 rest s1
  end.

(** [checkAllChannelsNow()] run from the call to the return with nothing
    else in between; the result is the [stats] it emits, if any. *)
Definition checkAllChannelsNow (env : nat → Reply) (s : t)
    : option Stats * t :=
  match checkAllChannelsNow_enter s with
  | (None, s1) => (None, s1)
  | (Some p, s1) =>
      match p_todo p with
      | [] => (None, checkAllChannelsNow_leave s1)
      | _ :: _ =>
          let '(p1, s2) := scan env p (p_todo p) s1 in
          (Some (p_stats p1), checkAllChannelsNow_leave s2)
      end
  end.

(** [start()] and [stop()], without the timers they install. *)
Definition start (s : t) : t := if cronTask s then s else set_cronTask true s.
Definition stop (s : t) : t := if cronTask s then set_cronTask false s else s.

(** [getStatus()]: [running] and [checking]. *)
Definition getStatus (s : t) : bool * bool := (cronTask s, _isChecking s).

(** *** The scheduler on the event loop

    The state is the scheduler and the passes suspended on the listing of
    their next channel.  [Trigger] is a call of [checkAllChannelsNow] (the
    cron task, the start-up timer, the manual check); [Resume k r] is the
    arrival of the listing the [k]-th pass waits for; [Throw k] is an error
    that reaches the outer [catch] of that pass; [Queue ev] is a turn of the
    download queue. *)
Record Loop := mkLoop {
  sched : t;
  passes : list Pass
}.

Inductive Event :=
  | Trigger
  | Resume (k : nat) (r : Reply)
  | Throw (k : nat)
  | Queue (ev : DownloadQueue.Event).

Definition step (l : Loop) (ev : Event) : Loop :=
  match ev with
  | Trigger =>
      match checkAllChannelsNow_enter (sched l) with
      | (Some p, s1) =>
          match p_todo p with
          | [] => mkLoop (checkAllChannelsNow_leave s1) (passes l)
          | _ :: _ => mkLoop s1 (passes l ++ [p])
          end
      | (None, s1) => mkLoop s1 (passes l)
      end
  | Resume k r =>
      match passes l !! k with
      | Some p =>
          match p_todo p with
          | channel :: rest =>
              let '(p1, s1) :=
                checkAllChannelsNow_iter channel rest r p (sched l) in
              match rest with
              | [] =>
                  mkLoop (checkAllChannelsNow_leave s1) (delete k (passes l))
              | _ :: _ => mkLoop s1 (<[k := p1]> (passes l))
              end
          | [] => l
          end
      | None => l
      end
  | Throw k =>
      match passes l !! k with
      | Some _ =>
          mkLoop (checkAllChannelsNow_leave (sched l)) (delete k (passes l))
      | None => l
      end
  | Queue ev =>
      mkLoop (set_queueManager (DownloadQueue.step (queueManager (sched l)) ev)
                               (sched l))
             (passes l)
  end.

Definition run (l : Loop) (evs : list Event) : Loop := foldl step l evs.

End MonitoringScheduler.


(** ** Task states across store operations *)



(** The number of tasks of a video that are ['pending'] or ['downloading']. *)
Definition inFlight (videoId : string) (st : Storage.t) : nat :=
  length (List.filter (Storage.inQueue videoId) (downloads (Storage.data st))).


Definition MAX_RETRIES : nat := 2.



(** ** What a check leaves in the store *)

(** The tasks of a video, in the order of [data.downloads]. *)
Definition tasksOf (videoId : string) (st : Storage.t) : list Download.t :=
  List.filter (λ dl, Download.videoId dl =? videoId)
              (downloads (Storage.data st)).

Definition hasTask (videoId : string) (st : Storage.t) : Prop :=
  ∃ dl, dl ∈ downloads (Storage.data st) ∧ Download.videoId dl = videoId.

(** From [st] to [st']: no video and no task is lost, and a video that is
    new in [st'] has a task there. *)
Record grows (st st' : Storage.t) : Prop := mkGrows {
  grows_videos :
    ∀ k, Storage.videoExists k st = true → Storage.videoExists k st' = true;
  grows_tasks : ∀ k, hasTask k st → hasTask k st';
  grows_new :
    ∀ k, Storage.videoExists k st' = true →
         Storage.videoExists k st = true ∨ hasTask k st'
}.

(** Whether the listing of turn [i] is rejected, and the number of rejected
    listings among the [n] turns from turn [i] on. *)
Definition rejected (env : nat → MonitoringScheduler.Reply) (i : nat) : bool :=
  match MonitoringScheduler.listing (env i) with
  | None => true
  | Some _ => false
  end.

Definition rejections (env : nat → MonitoringScheduler.Reply) (i n : nat) : nat :=
  length (List.filter (rejected env) (seq i n)).

(** The guard of the scheduler, as a property of the event loop: no pass is
    suspended and the flag is down, or one pass is and the flag is up. *)
Definition guarded (l : MonitoringScheduler.Loop) : Prop :=
  match MonitoringScheduler.passes l with
  | [] => MonitoringScheduler._isChecking (MonitoringScheduler.sched l) = false
  | [_] => MonitoringScheduler._isChecking (MonitoringScheduler.sched l) = true
  | _ :: _ :: _ => False
  end.



(** The bookkeeping of the queue: task ids are distinct, each running
    download has its own task, that task is ['downloading'], and the keys of
    [activeDownloads] are the tasks of the running downloads. *)
Record tracked (q : DownloadQueue.t) : Prop := mkTracked {
  tracked_ids :
    NoDup (Download.id <$> downloads (Storage.data (DownloadQueue.storage q)));
  tracked_execs :
    NoDup (DownloadQueue.e_id <$> DownloadQueue.executions q);
  tracked_dom :
    dom (DownloadQueue.activeDownloads q)
    = list_to_set (DownloadQueue.e_id <$> DownloadQueue.executions q);
  tracked_status :
    ∀ e, e ∈ DownloadQueue.executions q →
      ∃ dl, dl ∈ downloads (Storage.data (DownloadQueue.storage q)) ∧
            Download.id dl = DownloadQueue.e_id e ∧
            Download.status dl = downloading
}.

(** ** Sample data *)

Module Sample.

Definition path : string := "./data/storage.json".

Definition channel : Channel.t :=
  Channel.mk "ch_1" "https://www.youtube.com/@alpha" (Some "alpha") true None 1.

Definition channel2 : Channel.t :=
  Channel.mk "ch_2" "https://www.youtube.com/@beta" (Some "beta") true None 2.

Definition videoData : VideoData.t :=
  VideoData.mk "vid1" "first" "https://www.youtube.com/watch?v=vid1"
               None (Some 60%N) None.

Definition videoData2 : VideoData.t :=
  VideoData.mk "vid2" "second" "https://www.youtube.com/watch?v=vid2"
               None None None.

Definition video : Video.t :=
  Video.mk "vid1" "ch_1" "first" "https://www.youtube.com/watch?v=vid1"
           None (Some 60%N) None 5.

Definition activeTask : Download.t :=
  Download.mk "dl_7_abc" "vid1" downloading "720p" None 0 None (Some 8%N) None.

Definition cfg : DownloadQueue.Config := DownloadQueue.mkConfig 3 3 "720p".

(** A store with one channel, one video and no task, saved. *)
Definition idleData : Data := mkData [channel] {[ "vid1" := video ]} [].
Definition idle : Storage.t :=
  Storage.mk path idleData {[ path := Json idleData ]}.

(** The same store caught with its task in ['downloading']. *)
Definition activeData : Data :=
  mkData [channel] {[ "vid1" := video ]} [activeTask].
Definition active : Storage.t :=
  Storage.mk path activeData {[ path := Json activeData ]}.

(** A download that the scheduler's store knows, started and ended by a
    failing [yt-dlp], followed by one more run of the dispatch loop. *)
Definition failingRun : list DownloadQueue.Event :=
  [DownloadQueue.Start 10 100;
   DownloadQueue.Enqueue "vid1" "720p" 11 "k3j9x0q2a";
   DownloadQueue.Callback 12 101;
   DownloadQueue.Close 0 (ExitError "yt-dlp exit code: 1") "" 13;
   DownloadQueue.Callback 14 102].


(** A queue whose store holds one ['pending'] task that has been retried
    [n] times. *)
Definition retried (n : nat) : DownloadQueue.t :=
  let task :=
    Download.mk "dl_7_abc" "vid1" pending "720p" None n None (Some 8%N) None in
  let d := mkData [channel] {[ "vid1" := video ]} [task] in
  DownloadQueue.new (Storage.mk path d {[ path := Json d ]}) cfg.

(** Two channels and no video yet. *)
Definition twoChannels : Storage.t :=
  let d := mkData [channel; channel2] ∅ [] in
  Storage.mk path d {[ path := Json d ]}.

(** A scheduler over the two channels, and replies in which the listing
    of the first channel is rejected and the second lists one video. *)
Definition scheduler : MonitoringScheduler.t :=
  MonitoringScheduler.new (DownloadQueue.new twoChannels cfg).

Definition env (i : nat) : MonitoringScheduler.Reply :=
  match i with
  | 0 => MonitoringScheduler.mkReply None 20 (λ _, "r0r0r0r0r")
  | _ => MonitoringScheduler.mkReply (Some [videoData2]) 21 (λ _, "r1r1r1r1r")
  end.

(** A scheduler over the store that has the video [vid1]. *)
Definition scheduler1 : MonitoringScheduler.t :=
  MonitoringScheduler.new (DownloadQueue.new idle cfg).

End Sample.


(** ** The store's mutators, and the file kept in step with memory *)

(** The methods of the store that write. *)
Inductive Mutation :=
  | MAddChannel (url : string) (name : option string) (now : N)
  | MToggleChannel (id : string) (enabled : bool)
  | MRemoveChannel (id : string)
  | MUpdateChannelLastCheck (id : string) (now : N)
  | MAddVideo (channelId : string) (videoData : VideoData.t) (now : N)
  | MCreateDownload (videoId quality : string) (now : N) (rnd : string)
  | MUpdateDownloadStatus (id : string) (status : Status)
      (p : Storage.Patch) (now : N)
  | MRetryFailedDownload (id : string).

Definition mutate (st : Storage.t) (m : Mutation) : Storage.t :=
  match m with
  | MAddChannel url name now => (Storage.addChannel url name now st).2
  | MToggleChannel id enabled => Storage.toggleChannel id enabled st
  | MRemoveChannel id => Storage.removeChannel id st
  | MUpdateChannelLastCheck id now => Storage.updateChannelLastCheck id now st
  | MAddVideo channelId videoData now =>
      (Storage.addVideo channelId videoData now st).2
  | MCreateDownload videoId quality now rnd =>
      (Storage.createDownload videoId quality now rnd st).2
  | MUpdateDownloadStatus id status p now =>
      Storage.updateDownloadStatus id status p now st
  | MRetryFailedDownload id => (Storage.retryFailedDownload id st).2
  end.

(** The file of the store holds the snapshot that is in memory. *)
Definition synced (st : Storage.t) : Prop :=
  Storage.fs st !! Storage.filePath st = Some (Json (Storage.data st)).

(** [new Storage(path)] followed by [init()] on the disk a store leaves
    behind: what the start of the server does after a stop or a crash. *)
Definition restart (now : N) (st : Storage.t) : Storage.t :=
  Storage.init now (Storage.new (Storage.filePath st) (Storage.fs st)).

(** Every video carries its key as [id], or would get it from the migration
    of [init()] without a change. *)
Definition keyed (st : Storage.t) : Prop :=
  ∀ k v, videos (Storage.data st) !! k = Some v → Storage.migrateVideo k v = v.

(** No task has been retried more often than [retryFailedDownload] allows. *)
Definition bounded (st : Storage.t) : Prop :=
  Forall (λ dl, (Download.retryCount dl ≤ 2)%nat)
         (downloads (Storage.data st)).

(** ** CleanupService (src/cleanup.js) *)

(** The positions of the elements of [l] that satisfy [f], counted from
    [i]. *)
Fixpoint positions {A} (f : A → bool) (l : list A) (i : nat) : list nat :=
  match l with
  | [] => []
  | x :: r => if f x then i :: positions f r (S i) else positions f r (S i)
  end.

Module CleanupService.

(** [config.cleanup]. [fileRetentionDays] is absent from the object in
    [config.js]; the route [/api/monitor/config] can set it. *)
Record Config := mkConfig {
  enabled : bool;
  fileRetentionDays : option nat
}.

Record t := mk {
  storage : Storage.t;
  config : Config;
  cronTask : bool
}.

Definition set_storage (x : Storage.t) (s : t) : t :=
  mk x (config s) (cronTask s).

(** [constructor(storage, config)] *)
Definition new (st : Storage.t) (cfg : Config) : t := mk st cfg false.

(** [this.config.fileRetentionDays || 5] *)
Definition retentionDays (cfg : Config) : nat :=
  match fileRetentionDays cfg with
  | Some (S n) => S n
  | Some 0 | None => 5
  end.

(** [videoPath.replace(/\.mp4$/, ext)]: the pattern matches at the end of
    the string only. *)
Fixpoint replaceMp4 (ext : string) (videoPath : string) : string :=
  match videoPath with
  | EmptyString => EmptyString
  | String a rest =>
      if videoPath =? ".mp4" then ext else String a (replaceMp4 ext rest)
  end.

(** [_getThumbnailPath(videoPath)] *)
Definition _getThumbnailPath (videoPath : option string) : option string :=
  match videoPath with
  | Some p => if p =? "" then None else Some (replaceMp4 ".jpg" p)
  | None => None
  end.

(** [{ success, size }] *)
Record Deleted := mkDeleted {
  success : bool;
  size : N
}.

(** [if (fs.existsSync(p)) { totalSize += fs.statSync(p).size;
    fs.unlinkSync(p); ... }] on the pair of [totalSize] and the disk; [stat]
    gives the size of the file at a path. *)
Definition unlinkIfExists (stat : string → N) (p : string)
    (acc : N * gmap string Content) : bool * (N * gmap string Content) :=
  if Fs.existsSync p acc.2
  then (true, ((acc.1 + stat p)%N, delete p acc.2))
  else (false, acc).

(** [_deleteDownloadFiles(download)] *)
Definition _deleteDownloadFiles (stat : string → N) (download : Download.t)
    (disk : gmap string Content) : Deleted * gmap string Content :=
  match Download.filePath download with
  | None => (mkDeleted false 0, disk)
  | Some filePath =>
      if filePath =? "" then (mkDeleted false 0, disk)
      else
        (* 1: the video *)
        let '(deleted1, acc1) := unlinkIfExists stat filePath (0%N, disk) in
        (* 2: the thumbnail *)
        let '(deleted2, acc2) :=
          match _getThumbnailPath (Some filePath) with
          | Some thumbnailPath =>
              if thumbnailPath =? "" then (false, acc1)
              else unlinkIfExists stat thumbnailPath acc1
          | None => (false, acc1)
          end in
        (* 3: the other thumbnail formats *)
        let acc3 :=
          foldl (λ acc ext,
                   (unlinkIfExists stat (replaceMp4 ext filePath) acc).2)
                acc2 [".webp"; ".png"] in
        (mkDeleted (deleted1 || deleted2) acc3.1, acc3.2)
  end.

(** The counters of [cleanupNow], which end in its last log line. *)
Record Counters := mkCounters {
  deletedCount : nat;
  errorCount : nat;
  totalSize : N
}.

Definition failedOne (c : Counters) : Counters :=
  mkCounters (deletedCount c) (S (errorCount c)) (totalSize c).

(** One turn of the [for] loop of [cleanupNow].  [oldDownloads] holds
    objects of the store, not copies: the turn is given the position [i] of
    its object in [data.downloads] and reads the object as it is then.
    [clock i] is the time of the turn.  The log line after the update reads
    [download.filePath] again, and [path.basename] throws on [null], which
    the [catch] of the turn counts as an error. *)
Definition cleanupTurn (stat : string → N) (clock : nat → N)
    (acc : Counters * Storage.t) (i : nat) : Counters * Storage.t :=
  let '(c, st) := acc in
  match downloads (Storage.data st) !! i with
  | None => acc
  | Some download =>
      let '(deleted, disk) :=
        _deleteDownloadFiles stat download (Storage.fs st) in
      let st1 := Storage.set_fs disk st in
      if success deleted
      then
        let c1 := mkCounters (S (deletedCount c)) (errorCount c)
                             (totalSize c + size deleted)%N in
        let st2 :=
          Storage.updateDownloadStatus (Download.id download) completed
            (Storage.mkPatch (Some None) None None) (clock i) st1 in
        match Download.filePath <$> downloads (Storage.data st2) !! i with
        | Some (Some _) => (c1, st2)
        | _ => (failedOne c1, st2)
        end
      else (failedOne c, st1)
  end.

(** The objects [getOldDownloads] returns, as positions. *)
Definition oldRefs (cutoffDate : N) (st : Storage.t) : list nat :=
  positions (Storage.isOld cutoffDate) (downloads (Storage.data st)) 0.

(** [cleanupNow()]. [calendar] gives the cutoff date for a number of days;
    [None] is the early return on an empty list. *)
Definition cleanupNow (stat : string → N) (calendar : nat → N)
    (clock : nat → N) (s : t) : option Counters * t :=
  let retentionDays := retentionDays (config s) in
  let oldDownloads := oldRefs (calendar retentionDays) (storage s) in
  match oldDownloads with
  | [] => (None, s)
  | _ :: _ =>
      let '(c, st) :=
        foldl (cleanupTurn stat clock) (mkCounters 0 0 0, storage s)
              oldDownloads in
      (Some c, set_storage st s)
  end.

(** [getStats()], without the size in megabytes. *)
Record CleanupStats := mkCleanupStats {
  cs_enabled : bool;
  cs_retentionDays : nat;
  cs_oldFileCount : nat;
  cs_estimatedSize : N
}.

(** The test of the loop of [getStats]:
    [download.filePath && fs.existsSync(download.filePath)]. *)
Definition hasFile (disk : gmap string Content) (download : Download.t)
    : bool :=
  match Download.filePath download with
  | Some p => negb (p =? "") && Fs.existsSync p disk
  | None => false
  end.

Definition getStats (stat : string → N) (calendar : nat → N) (s : t)
    : CleanupStats :=
  let retentionDays := retentionDays (config s) in
  let oldDownloads :=
    Storage.getOldDownloads (calendar retentionDays) (storage s) in
  let found :=
    List.filter (hasFile (Storage.fs (storage s))) oldDownloads in
  mkCleanupStats (enabled (config s)) retentionDays (length found)
    (foldr (λ download total,
              (total + stat (default "" (Download.filePath download)))%N)
           0%N found).

End CleanupService.

(** The paths [_deleteDownloadFiles] looks at for a task. *)
Definition pathsOf (download : Download.t) : list string :=
  match Download.filePath download with
  | Some p =>
      if p =? "" then []
      else [p; CleanupService.replaceMp4 ".jpg" p;
            CleanupService.replaceMp4 ".webp" p;
            CleanupService.replaceMp4 ".png" p]
  | None => []
  end.

(** What [cleanupNow] writes into a task whose files it has deleted. *)
Definition cleaned (now : N) (dl : Download.t) : Download.t :=
  Storage.applyStatus completed (Storage.mkPatch (Some None) None None) now dl.

(** Where [cleanupNow] stands after the turns of the positions [seen]:
    [st0] is the store it began with, [st] the store now. *)
Record swept (clock : nat → N) (st0 : Storage.t) (seen : list nat)
    (st : Storage.t) : Prop := mkSwept {
  sw_path : Storage.filePath st = Storage.filePath st0;
  sw_ids :
    Download.id <$> downloads (Storage.data st)
    = Download.id <$> downloads (Storage.data st0);
  sw_todo :
    ∀ j, j ∉ seen →
      downloads (Storage.data st) !! j = downloads (Storage.data st0) !! j;
  sw_seen :
    ∀ j dl0, j ∈ seen → downloads (Storage.data st0) !! j = Some dl0 →
      downloads (Storage.data st) !! j = Some dl0 ∨
      downloads (Storage.data st) !! j = Some (cleaned (clock j) dl0);
  sw_gone :
    ∀ j dl0 p, j ∈ seen → downloads (Storage.data st0) !! j = Some dl0 →
      Download.filePath dl0 = Some p → p ≠ "" → p ≠ Storage.filePath st0 →
      Storage.fs st !! p = None;
  sw_mono :
    ∀ q, q ≠ Storage.filePath st0 →
      Storage.fs st !! q = None ∨ Storage.fs st !! q = Storage.fs st0 !! q;
  sw_frame :
    ∀ q, q ≠ Storage.filePath st0 → q ≠ Storage.filePath st0 +:+ ".tmp" →
      (∀ j dl0, j ∈ seen → downloads (Storage.data st0) !! j = Some dl0 →
                q ∉ pathsOf dl0) →
      Storage.fs st !! q = Storage.fs st0 !! q
}.

(** A store with a download completed long ago and one completed lately,
    and the disk with their files. *)
Module SampleCleanup.

Definition oldTask : Download.t :=
  Download.mk "dl_5_aaaaaaaaa" "vid1" completed "720p"
              (Some "./downloads/first.mp4") 0 None (Some 5%N) (Some 6%N).

Definition newTask : Download.t :=
  Download.mk "dl_8_bbbbbbbbb" "vid2" completed "720p"
              (Some "./downloads/second.mp4") 0 None (Some 8%N) (Some 900%N).

Definition data : Data :=
  mkData [Sample.channel] {[ "vid1" := Sample.video ]} [oldTask; newTask].

Definition disk : gmap string Content :=
  {[ Sample.path := Json data;
     "./downloads/first.mp4" := Garbage;
     "./downloads/first.jpg" := Garbage;
     "./downloads/second.mp4" := Garbage;
     "./downloads/second.jpg" := Garbage ]}.

Definition service : CleanupService.t :=
  CleanupService.new (Storage.mk Sample.path data disk)
                     (CleanupService.mkConfig true None).

(** File sizes, the cutoff date for a number of days, the time of a turn. *)
Definition stat (p : string) : N := 1000.
Definition calendar (days : nat) : N := (1000 - 100 * N.of_nat days)%N.
Definition clock (i : nat) : N := (1000 + N.of_nat i)%N.

End SampleCleanup.

(** ** The queue: its loop, its order, its stop *)

(** A started queue has a run of [_processQueue] waiting in the event loop. *)
Definition awake (q : DownloadQueue.t) : Prop :=
  DownloadQueue.isRunning q = true →
  DownloadQueue.isStopping q = false ∧ (1 ≤ DownloadQueue.callbacks q)%nat.

Definition isStart (ev : DownloadQueue.Event) : bool :=
  match ev with
  | DownloadQueue.Start _ _ => true
  | _ => false
  end.

(** After [stop()]: the flags, and no download beyond those of [q0]. *)
Record winding_down (q0 q : DownloadQueue.t) : Prop := mkWindingDown {
  wd_running : DownloadQueue.isRunning q = false;
  wd_stopping : DownloadQueue.isStopping q = true;
  wd_executions : DownloadQueue.executions q `sublist_of` DownloadQueue.executions q0;
  wd_active : DownloadQueue.activeDownloads q ⊆ DownloadQueue.activeDownloads q0
}.

(** A started queue whose store holds a finished task and two waiting
    tasks. *)
Module SampleQueue.

Definition finished : Download.t :=
  Download.mk "dl_1_aaaaaaaaa" "vid1" completed "720p"
              (Some "./downloads/first.mp4") 0 None (Some 2%N) (Some 3%N).

Definition waiting : Download.t :=
  Download.mk "dl_4_bbbbbbbbb" "vid1" pending "720p" None 0 None None None.

Definition waiting2 : Download.t :=
  Download.mk "dl_5_ccccccccc" "vid1" pending "480p" None 0 None None None.

Definition data : Data :=
  mkData [Sample.channel] {[ "vid1" := Sample.video ]}
         [finished; waiting; waiting2].

Definition queue : DownloadQueue.t :=
  DownloadQueue.set_flags true false
    (DownloadQueue.new
       (Storage.mk Sample.path data {[ Sample.path := Json data ]})
       Sample.cfg).

End SampleQueue.

(** ** File names ([_sanitizeFileName] of src/queue.js)

    A JavaScript string is the list of its UTF-16 code units; the patterns
    of [_sanitizeFileName] have no [u] flag and work on code units. *)

Module FileName.

(** The class of the first pattern: less-than, greater-than, colon, double
    quote, slash, backslash, bar, question mark, asterisk. *)
Definition illegal (c : N) : bool :=
  bool_decide (c ∈ [60; 62; 58; 34; 47; 92; 124; 63; 42]%N).

(** The class [\s], which is also what [trim()] strips: the white space and
    the line terminators of ECMAScript. *)
Definition isSpace (c : N) : bool :=
  bool_decide (c ∈ [9; 10; 11; 12; 13; 32; 160; 5760; 8232; 8233; 8239;
                    8287; 12288; 65279]%N)
  || ((8192 <=? c) && (c <=? 8202))%N.

(** The first [replace]: each of them becomes an underscore. *)
Definition replaceIllegal (s : list N) : list N :=
  (λ c, if illegal c then 95%N else c) <$> s.

(** [.replace(/\s+/g, ' ')]: every maximal run of white space becomes one
    space.  [inRun] tells that the code unit before was white space. *)
Fixpoint collapse (inRun : bool) (s : list N) : list N :=
  match s with
  | [] => []
  | c :: r =>
      if isSpace c
      then if inRun then collapse true r else 32%N :: collapse true r
      else c :: collapse false r
  end.

Fixpoint dropWhile (p : N → bool) (s : list N) : list N :=
  match s with
  | [] => []
  | c :: r => if p c then dropWhile p r else s
  end.

(** [.trim()] *)
Definition trim (s : list N) : list N :=
  rev (dropWhile isSpace (rev (dropWhile isSpace s))).

(** [_sanitizeFileName(title)] *)
Definition _sanitizeFileName (title : list N) : list N :=
  take 200 (trim (collapse false (replaceIllegal title))).

End FileName.

(** ** The application: the scheduler is the only caller of [enqueue] *)

(** No video has two tasks, and no task is without its video. *)
Record one_task_each (st : Storage.t) : Prop := mkOneTaskEach {
  ote_nodup : NoDup (Download.videoId <$> downloads (Storage.data st));
  ote_known :
    ∀ k, k ∈ Download.videoId <$> downloads (Storage.data st) →
         is_Some (videos (Storage.data st) !! k)
}.

(** The application of [server.js] on its one store: the turns of the
    scheduler and of the queue (the retry route is the turn [Retry] of the
    queue), the routes that add, toggle and remove a channel, and a run of
    the cleanup with its configuration, file sizes, calendar and clock. *)
Inductive AppEvent :=
  | Monitor (ev : MonitoringScheduler.Event)
  | AddChannel (url : string) (name : option string) (now : N)
  | ToggleChannel (id : string) (enabled : bool)
  | RemoveChannel (id : string)
  | Cleanup (cfg : CleanupService.Config) (stat : string → N)
      (calendar clock : nat → N).

Definition on_storage (f : Storage.t → Storage.t)
    (l : MonitoringScheduler.Loop) : MonitoringScheduler.Loop :=
  let s := MonitoringScheduler.sched l in
  MonitoringScheduler.mkLoop
    (MonitoringScheduler.set_storage (f (MonitoringScheduler.storage s)) s)
    (MonitoringScheduler.passes l).

Definition app_step (l : MonitoringScheduler.Loop) (ev : AppEvent)
    : MonitoringScheduler.Loop :=
  match ev with
  | Monitor ev => MonitoringScheduler.step l ev
  | AddChannel url name now =>
      on_storage (λ st, (Storage.addChannel url name now st).2) l
  | ToggleChannel id enabled =>
      on_storage (Storage.toggleChannel id enabled) l
  | RemoveChannel id => on_storage (Storage.removeChannel id) l
  | Cleanup cfg stat calendar clock =>
      on_storage
        (λ st, CleanupService.storage
                 (CleanupService.cleanupNow stat calendar clock
                    (CleanupService.mk st cfg true)).2) l
  end.

Definition app_run (l : MonitoringScheduler.Loop) (evs : list AppEvent)
    : MonitoringScheduler.Loop :=
  foldl app_step l evs.

(** A call of [enqueue] that does not come from the scheduler; the
    application has none. *)
Definition isEnqueue (ev : AppEvent) : bool :=
  match ev with
  | Monitor (MonitoringScheduler.Queue (DownloadQueue.Enqueue _ _ _ _)) => true
  | _ => false
  end.

(** While step 3 of [checkChannel] runs: [st0] is the store at the
    beginning of the step, [st] the store now.  A video that has come since
    has its task in flight. *)
Record discovering (st0 st : Storage.t) : Prop := mkDiscovering {
  dc_each : one_task_each st;
  dc_new :
    ∀ k, is_Some (videos (Storage.data st) !! k) →
         is_Some (videos (Storage.data st0) !! k) ∨
         is_Some (find (Storage.inQueue k) (downloads (Storage.data st)))
}.

Definition isCleanup (ev : AppEvent) : bool :=
  match ev with
  | Cleanup _ _ _ _ => true
  | _ => false
  end.

(** ** TelegramService (src/telegram.js): the retry loop of [sendMessage] *)

Module TelegramService.

(** The fields [sendMessage] and [notifyDownloadComplete] read. *)
Record t := mk {
  enabled : bool;
  onComplete : bool;
  maxRetries : nat;
  retryDelay : N
}.

(** [config.retry?.maxAttempts || 3] and [config.retry?.delayMs || 2000],
    for a number of attempts that is a natural number. *)
Definition orDefault (x : option nat) (d : nat) : nat :=
  match x with
  | Some (S n) => S n
  | Some 0 | None => d
  end.

Definition new (enabled onComplete : bool) (maxAttempts delayMs : option nat)
    : t :=
  mk enabled onComplete (orDefault maxAttempts 3)
     (N.of_nat (orDefault delayMs 2000)).

(** How a call of [bot.sendMessage] ends; [retryable] is what
    [_isRetryableError] says of the error. *)
Inductive Attempt :=
  | Sent
  | Error (retryable : bool) (message : string).

(** What [sendMessage] resolves to; [Undefined] is the end of the function
    body after the loop. *)
Inductive Result :=
  | Success
  | Disabled
  | SendFailed (message : string)
  | Undefined.

(** What a call of [sendMessage] has done: its result, the number of calls
    of [bot.sendMessage], the delays it slept. *)
Record Trace := mkTrace {
  result : Result;
  calls : nat;
  delays : list N
}.

(** The [for] loop from [attempt] on, with [left] turns to go before
    [attempt <= this.maxRetries] fails; [outcome k] is how the [k]-th call
    ends. *)
Fixpoint attempts (s : t) (outcome : nat → Attempt) (left attempt : nat)
    : Trace :=
  match left with
  | 0 => mkTrace Undefined 0 []
  | S left' =>
      match outcome attempt with
      | Sent => mkTrace Success 1 []
      | Error retryable message =>
          let isLastAttempt := (attempt =? maxRetries s)%nat in
          if retryable && negb isLastAttempt
          then
            let delay := (retryDelay s * N.of_nat attempt)%N in
            let rest := attempts s outcome left' (S attempt) in
            mkTrace (result rest) (S (calls rest)) (delay :: delays rest)
          else mkTrace (SendFailed message) 1 []
      end
  end.

(** [sendMessage(text, options)] *)
Definition sendMessage (s : t) (outcome : nat → Attempt) : Trace :=
  if negb (enabled s) then mkTrace Disabled 0 []
  else attempts s outcome (maxRetries s) 1.

(** [notifyDownloadComplete(video, channel, filePath)] *)
Definition notifyDownloadComplete (s : t) (outcome : nat → Attempt) : Trace :=
  if negb (enabled s) || negb (onComplete s) then mkTrace Disabled 0 []
  else sendMessage s outcome.

End TelegramService.

(** ** The pool of [fetchVideosDetailsAsync] (src/utils.js) *)

Module DetailFetch.

Definition CONCURRENT_LIMIT : nat := 3.

(** The variables of one call: the length of [videos], [index],
    [completed], [failed], the [cancelled] of its task record, and the
    indices of the videos whose [fetchVideoDetails] has not settled, one
    for each worker that is suspended. *)
Record t := mk {
  total : nat;
  index : nat;
  completed : nat;
  failed : nat;
  cancelled : bool;
  fetching : list nat
}.

(** [processNext()] up to its [await]: the worker returns, or takes the
    next index and waits for its details. *)
Definition processNext (s : t) : t :=
  if decide (total s ≤ index s)%nat then s
  else if cancelled s then s
  else mk (total s) (S (index s)) (completed s) (failed s) (cancelled s)
          (fetching s ++ [index s]).

(** The call up to [await Promise.all(workers)]. *)
Definition start (n : nat) : t :=
  Nat.iter CONCURRENT_LIMIT processNext (mk n 0 0 0 false []).

(** [Settle k ok]: the [k]-th pending [fetchVideoDetails] resolves ([ok])
    or rejects, and its worker goes on to the end of its turn.  [Cancel]:
    [cancelDetailFetchTask] on the task of this call. *)
Inductive Event :=
  | Settle (k : nat) (ok : bool)
  | Cancel.

Definition step (s : t) (ev : Event) : t :=
  match ev with
  | Settle k ok =>
      match fetching s !! k with
      | Some _ =>
          let s1 :=
            mk (total s) (index s)
               (if ok then S (completed s) else completed s)
               (if ok then failed s else S (failed s))
               (cancelled s) (delete k (fetching s)) in
          if decide (index s1 < total s1)%nat then processNext s1 else s1
      | None => s
      end
  | Cancel =>
      mk (total s) (index s) (completed s) (failed s) true (fetching s)
  end.

Definition run (s : t) (evs : list Event) : t := foldl step s evs.

(** [Promise.all(workers)] has resolved. *)
Definition finished (s : t) : bool :=
  match fetching s with
  | [] => true
  | _ :: _ => false
  end.

End DetailFetch.

(** The bookkeeping of the pool when at most [k] workers are suspended:
    each of them waits for an index of its own that has been taken, the
    indices taken are settled or waited for, and the workers are all busy as
    long as videos are left and the task is not cancelled. *)
Record pooled (k : nat) (s : DetailFetch.t) : Prop := mkPooled {
  pl_limit : (length (DetailFetch.fetching s) ≤ k)%nat;
  pl_index : (DetailFetch.index s ≤ DetailFetch.total s)%nat;
  pl_taken : Forall (λ i, i < DetailFetch.index s)%nat (DetailFetch.fetching s);
  pl_once : NoDup (DetailFetch.fetching s);
  pl_count :
    (DetailFetch.completed s + DetailFetch.failed s
     + length (DetailFetch.fetching s))%nat = DetailFetch.index s;
  pl_busy :
    DetailFetch.cancelled s = false →
    (DetailFetch.index s < DetailFetch.total s)%nat →
    length (DetailFetch.fetching s) = k
}.

(** * Properties *)

(** ** Lists: [find] and [update_first] *)

Section Lists.
Context {A : Type}.
Implicit Types (p : A → bool) (f : A → A) (l : list A).

Lemma find_elem_of p l x : find p l = Some x → x ∈ l ∧ p x = true.
Proof.
  induction l as [|y r IH]; simpl; [done|].
  destruct (p y) eqn:Hy.
  - intros [= <-]. split; [left | done].
  - intros H. destruct (IH H) as [? ?]. split; [by right | done].
Qed.

Lemma find_is_Some p l x : x ∈ l → p x = true → is_Some (find p l).
Proof.
  induction l as [|y r IH]; [by intros ?%elem_of_nil|].
  intros [->|Hx]%elem_of_cons Hp; simpl.
  - rewrite Hp. eauto.
  - destruct (p y); eauto.
Qed.


End Lists.

(** ** The store and its file *)

Lemma save_data st : Storage.data (Storage.save st) = Storage.data st.
Proof. done. Qed.

Lemma save_filePath st : Storage.filePath (Storage.save st) = Storage.filePath st.
Proof. done. Qed.

(** After [save()] the file holds the snapshot in memory. *)
Lemma save_file st :
  Storage.fs (Storage.save st) !! Storage.filePath st
  = Some (Json (Storage.data st)).
Proof.
  unfold Storage.save, Fs.renameSync, Fs.writeFileSync. simpl.
  rewrite lookup_insert_eq. apply lookup_insert_eq.
Qed.

Lemma save_persisted st :
  Storage.fs (Storage.save st) !! Storage.filePath (Storage.save st)
  = Some (Json (Storage.data (Storage.save st))).
Proof. exact (save_file st). Qed.

Lemma migrated_false vs :
  Storage.migrated vs = false →
  ∀ k v, vs !! k = Some v → (Video.id v =? "") = false.
Proof.
  unfold Storage.migrated. intros H k v Hkv.
  destruct (Video.id v =? "") eqn:E; [|done].
  assert (existsb (λ kv : string * Video.t, Video.id kv.2 =? "")
                  (map_to_list vs) = true) as Hex; [|congruence].
  apply existsb_exists. exists (k, v). split; [|done].
  apply list_elem_of_In, elem_of_map_to_list. done.
Qed.

(** Without a video that lacks its [id], the migration loop changes nothing. *)
Lemma migrateVideos_id vs :
  Storage.migrated vs = false → Storage.migrateVideos vs = vs.
Proof.
  intros H. apply map_eq. intros k. unfold Storage.migrateVideos.
  rewrite map_lookup_imap. destruct (vs !! k) as [v|] eqn:Hk; [|done].
  simpl. unfold Storage.migrateVideo.
  by rewrite (migrated_false vs H k v Hk).
Qed.

Lemma resetDownloading_status dl :
  Download.status (Storage.resetDownloading dl) ≠ downloading.
Proof.
  unfold Storage.resetDownloading. destruct (decide _); [done|done].
Qed.

Lemma resetDownloading_fmap_id dls :
  Forall (λ dl, Download.status dl ≠ downloading) dls →
  Storage.resetDownloading <$> dls = dls.
Proof.
  induction 1 as [|x l Hx _ IH]; [done|]. rewrite fmap_cons, IH.
  unfold Storage.resetDownloading. by rewrite decide_False.
Qed.

Lemma resetCount_pos dls dl :
  dl ∈ dls → Download.status dl = downloading → 0 < Storage.resetCount dls.
Proof.
  intros Hin Hs. unfold Storage.resetCount.
  assert (dl ∈ filter (λ dl, Download.status dl = downloading) dls) as Hf.
  { apply list_elem_of_filter. done. }
  destruct (filter _ dls); [by apply elem_of_nil in Hf | simpl; lia].
Qed.

(** What [init()] leaves in memory when the file parses: the snapshot of the
    file with the active tasks reset and the videos migrated. *)
Lemma init_loaded_data now st d :
  Storage.fs st !! Storage.filePath st = Some (Json d) →
  Storage.data (Storage.init now st)
  = mkData (channels d) (Storage.migrateVideos (videos d))
           (Storage.resetDownloading <$> downloads d).
Proof.
  intros Hf. unfold Storage.init, Storage.load. rewrite Hf.
  set (st2 := Storage.map_data _ _).
  assert (Storage.data st2
          = mkData (channels d) (videos d)
                   (Storage.resetDownloading <$> downloads d)) as H2 by done.
  destruct (decide (0 < _)); destruct (Storage.migrated _); simpl; done.
Qed.

(** When [init()] has reset a task, the file holds what is in memory. *)
Lemma init_loaded_file now st d dl :
  Storage.fs st !! Storage.filePath st = Some (Json d) →
  dl ∈ downloads d → Download.status dl = downloading →
  Storage.fs (Storage.init now st) !! Storage.filePath (Storage.init now st)
  = Some (Json (Storage.data (Storage.init now st))).
Proof.
  intros Hf Hin Hs. unfold Storage.init, Storage.load. rewrite Hf.
  set (st2 := Storage.map_data _ _).
  destruct (decide (0 < _)) as [_|Hn].
  2:{ exfalso. apply Hn. simpl. by eapply resetCount_pos. }
  destruct (Storage.migrated _) eqn:Hm.
  - apply save_persisted.
  - simpl in Hm. unfold Storage.map_data at 1. simpl.
    rewrite (migrateVideos_id _ Hm). exact (save_file st2).
Qed.

(** ** Crash recovery *)

(** C3. If the file [init()] loads holds a task in state ['downloading'],
    then after [init()] that task is ['pending'] with its other fields
    untouched, the file holds exactly the data now in memory (the reset is
    persisted), and no task in memory is ['downloading']. *)
Theorem init_resets_active now st d i dl :
  Storage.fs st !! Storage.filePath st = Some (Json d) →
  downloads d !! i = Some dl →
  Download.status dl = downloading →
  let st' := Storage.init now st in
  downloads (Storage.data st') !! i = Some (Download.set_status pending dl) ∧
  Storage.fs st' !! Storage.filePath st' = Some (Json (Storage.data st')) ∧
  Forall (λ x, Download.status x ≠ downloading) (downloads (Storage.data st')).
Proof.
  intros Hf Hi Hs st'. subst st'. split; [|split].
  - rewrite (init_loaded_data now st d Hf). simpl.
    rewrite list_lookup_fmap, Hi. simpl.
    unfold Storage.resetDownloading. by rewrite decide_True.
  - eapply init_loaded_file; [done| |done].
    apply list_elem_of_lookup. eauto.
  - rewrite (init_loaded_data now st d Hf). simpl.
    apply Forall_fmap, Forall_forall. intros x _. simpl.
    apply resetDownloading_status.
Qed.

(** ** Round trip through the file *)

(** C4 (as amended). [save()] then [init()] gives back the channels as they
    were, every video as it was except that a video saved without [id] gets
    its key as [id], and every task as it was except that a task saved as
    ['downloading'] comes back ['pending']. *)
Theorem save_init_roundtrip now st :
  let st' := Storage.init now (Storage.save st) in
  channels (Storage.data st') = channels (Storage.data st) ∧
  (∀ k, videos (Storage.data st') !! k
        = Storage.migrateVideo k <$> videos (Storage.data st) !! k) ∧
  (∀ i, downloads (Storage.data st') !! i
        = Storage.resetDownloading <$> downloads (Storage.data st) !! i).
Proof.
  intros st'. subst st'.
  rewrite (init_loaded_data now (Storage.save st) (Storage.data st)).
  2:{ rewrite save_filePath. apply save_file. }
  simpl. split; [done|]. split.
  - intros k. unfold Storage.migrateVideos. rewrite map_lookup_imap.
    by destruct (videos (Storage.data st) !! k).
  - intros i. apply list_lookup_fmap.
Qed.

(** A store the round trip gives back unchanged: no task is
    ['downloading'] and every video carries its [id]. *)
Lemma save_init_identity now st :
  Forall (λ dl, Download.status dl ≠ downloading)
         (downloads (Storage.data st)) →
  Storage.migrated (videos (Storage.data st)) = false →
  Storage.data (Storage.init now (Storage.save st)) = Storage.data st.
Proof.
  intros Hd Hm.
  rewrite (init_loaded_data now (Storage.save st) (Storage.data st)).
  2:{ rewrite save_filePath. apply save_file. }
  rewrite (migrateVideos_id _ Hm).
  rewrite (resetDownloading_fmap_id _ Hd).
  by destruct (Storage.data st).
Qed.

(** ** Registration of channels and videos *)

(** C10. [addChannel] with a url that a stored channel already has returns
    the id of that channel (the first one with the url) and leaves the store,
    in memory and on disk, exactly as it was. *)
Theorem addChannel_registered url name now st :
  (∃ ch, ch ∈ channels (Storage.data st) ∧ Channel.url ch = url) →
  ∃ existing,
    existing ∈ channels (Storage.data st) ∧
    Channel.url existing = url ∧
    Storage.addChannel url name now st = (Channel.id existing, st).
Proof.
  intros (ch & Hin & Hurl). unfold Storage.addChannel.
  destruct (find_is_Some (λ c, Channel.url c =? url)
              (channels (Storage.data st)) ch Hin) as [existing He].
  { by apply String.eqb_eq. }
  rewrite He. apply find_elem_of in He as [He1 He2].
  exists existing. split; [done|]. split; [by apply String.eqb_eq | done].
Qed.

(** [addVideo] with an id the store already has. *)
Lemma addVideo_known channelId videoData now st :
  is_Some (videos (Storage.data st) !! VideoData.id videoData) →
  Storage.addVideo channelId videoData now st = (false, st).
Proof. intros [v Hv]. unfold Storage.addVideo. by rewrite Hv. Qed.

Lemma init_resets_active_witness :
  Storage.fs Sample.active !! Storage.filePath Sample.active
    = Some (Json Sample.activeData) ∧
  downloads Sample.activeData !! 0 = Some Sample.activeTask ∧
  Download.status Sample.activeTask = downloading ∧
  downloads (Storage.data (Storage.init 9 Sample.active)) !! 0
    = Some (Download.set_status pending Sample.activeTask).
Proof.
  split; [reflexivity|]. split; [reflexivity|]. split; [reflexivity|].
  apply (init_resets_active 9 Sample.active Sample.activeData 0
           Sample.activeTask); reflexivity.
Defined.

(** The round trip is not the identity on task states: a store saved with
    a task in ['downloading'] comes back with that task ['pending']. *)
Lemma save_init_changes_active_task :
  downloads (Storage.data (Storage.init 9 (Storage.save Sample.active)))
  ≠ downloads (Storage.data Sample.active).
Proof.
  rewrite (init_loaded_data 9 (Storage.save Sample.active) Sample.activeData).
  - simpl. intros [=].
  - rewrite save_filePath. apply save_file.
Qed.

Lemma addChannel_registered_witness :
  (∃ ch, ch ∈ channels (Storage.data Sample.idle) ∧
         Channel.url ch = "https://www.youtube.com/@alpha") ∧
  ∃ existing,
    existing ∈ channels (Storage.data Sample.idle) ∧
    Channel.url existing = "https://www.youtube.com/@alpha" ∧
    Storage.addChannel "https://www.youtube.com/@alpha" (Some "again") 9
                       Sample.idle
    = (Channel.id existing, Sample.idle).
Proof.
  assert (∃ ch, ch ∈ channels (Storage.data Sample.idle) ∧
                Channel.url ch = "https://www.youtube.com/@alpha") as H.
  { exists Sample.channel. split; [left | reflexivity]. }
  split; [exact H|].
  exact (addChannel_registered "https://www.youtube.com/@alpha" (Some "again")
           9 Sample.idle H).
Defined.

(** ** The download queue: failure and retry *)

(** [_handleFailure] looks the task up among the ['pending'] ones; when no
    pending task has the id, it returns without touching anything. *)
Lemma handleFailure_not_pending downloadId videoId msg now q :
  (∀ dl, dl ∈ downloads (Storage.data (DownloadQueue.storage q)) →
         Download.id dl = downloadId → Download.status dl ≠ pending) →
  DownloadQueue._handleFailure downloadId videoId msg now q = q.
Proof.
  intros Hnp. unfold DownloadQueue._handleFailure.
  destruct (find _ _) as [cur|] eqn:Hf; [|done]. exfalso.
  apply find_elem_of in Hf as [Hin Hid].
  unfold Storage.getPendingDownloads in Hin.
  apply elem_of_take in Hin as (i & Hi & _).
  apply list_elem_of_lookup_2, list_elem_of_In, filter_In in Hi as [Hin Hp].
  apply bool_decide_eq_true in Hp. apply String.eqb_eq in Hid.
  apply list_elem_of_In in Hin. by apply (Hnp cur).
Qed.

(** A download that fails while its task is ['downloading'], the state
    [_downloadNext] has put it in, leaves the store as it is: no retry, no
    ['failed']. *)
Lemma failed_execution_changes_nothing e message filePath now q :
  (∀ dl, dl ∈ downloads (Storage.data (DownloadQueue.storage q)) →
         Download.id dl = DownloadQueue.e_id e →
         Download.status dl = downloading) →
  DownloadQueue.storage
    (DownloadQueue._downloadNext_settled e (ExitError message) filePath now q)
  = DownloadQueue.storage q.
Proof.
  intros Hd. unfold DownloadQueue._downloadNext_settled.
  rewrite handleFailure_not_pending; [done|].
  intros dl Hin Hid. by rewrite (Hd dl Hin Hid).
Qed.

(** What the two branches of [_handleFailure] do when the lookup does find
    the task, which takes a task in state ['pending']: below two retries the
    task is re-queued with one more retry, at two retries it becomes
    ['failed'] and keeps the first 500 characters of the message. *)
Example handleFailure_requeues :
  let q := DownloadQueue._handleFailure "dl_7_abc" "vid1" (Some "exit 1") 9
             (Sample.retried 1) in
  let tasks := downloads (Storage.data (DownloadQueue.storage q)) in
  Download.status <$> tasks = [pending] ∧ Download.retryCount <$> tasks = [2].
Proof. split; vm_compute; reflexivity. Qed.

Example handleFailure_gives_up :
  let q := DownloadQueue._handleFailure "dl_7_abc" "vid1" (Some "exit 1") 9
             (Sample.retried 2) in
  let tasks := downloads (Storage.data (DownloadQueue.storage q)) in
  Download.status <$> tasks = [failed] ∧
  Download.retryCount <$> tasks = [2] ∧
  Download.errorMessage <$> tasks = [Some "exit 1"] ∧
  Download.completedAt <$> tasks = [Some 9%N].
Proof. repeat split; vm_compute; reflexivity. Qed.

(** C1 (what the code does). A task is submitted, dispatched, and its
    download fails once.  The task is then neither back in ['pending'] with
    [retryCount] 1 nor ['failed']: it stays ['downloading'] with [retryCount]
    0 and no error message, no execution is left, no task is pending, and a
    further run of the dispatch loop leaves the store as it is. *)
Theorem failed_download_stays_downloading :
  let q := DownloadQueue.run (DownloadQueue.new Sample.idle Sample.cfg)
                             Sample.failingRun in
  let tasks := downloads (Storage.data (DownloadQueue.storage q)) in
  Download.status <$> tasks = [downloading] ∧
  Download.retryCount <$> tasks = [0] ∧
  Download.errorMessage <$> tasks = [None] ∧
  DownloadQueue.executions q = [] ∧
  Storage.getPendingDownloads 100 (DownloadQueue.storage q) = [] ∧
  ∀ now proc,
    DownloadQueue.storage (DownloadQueue.step q (DownloadQueue.Callback now proc))
    = DownloadQueue.storage q.
Proof.
  repeat split; vm_compute; reflexivity.
Qed.

(** ** Task states under the store's operations *)

Lemma applyStatus_fields status p now dl :
  Download.id (Storage.applyStatus status p now dl) = Download.id dl ∧
  Download.videoId (Storage.applyStatus status p now dl) = Download.videoId dl ∧
  Download.status (Storage.applyStatus status p now dl) = status ∧
  Download.retryCount (Storage.applyStatus status p now dl)
    = Download.retryCount dl.
Proof.
  unfold Storage.applyStatus, Storage.assign.
  destruct p as [[?|] [?|] [?|]]; simpl;
    destruct (_ && _); destruct (_ || _); done.
Qed.


(** [retryFailedDownload] at the retry bound: refused, nothing changes. *)
Lemma retry_refused_at_bound id st download :
  find (λ dl, Download.id dl =? id) (downloads (Storage.data st))
    = Some download →
  (MAX_RETRIES ≤ Download.retryCount download)%nat →
  Storage.retryFailedDownload id st = (false, st).
Proof.
  intros Hf Hge. unfold Storage.retryFailedDownload. rewrite Hf.
  unfold MAX_RETRIES in Hge. destruct (decide _); [lia|done].
Qed.



(** ** One task in flight per video *)

(** [createDownload] for a video that has a task in flight: nothing is
    created, the id of that task is returned. *)
Lemma createDownload_existing videoId quality now rnd st :
  (0 < inFlight videoId st)%nat →
  ∃ existing,
    existing ∈ downloads (Storage.data st) ∧
    Storage.inQueue videoId existing = true ∧
    Storage.createDownload videoId quality now rnd st
      = (Download.id existing, st).
Proof.
  unfold inFlight. intros Hpos.
  destruct (List.filter _ _) as [|x r] eqn:Hfl; [simpl in Hpos; lia|].
  assert (In x (List.filter (Storage.inQueue videoId)
                            (downloads (Storage.data st)))) as Hx.
  { rewrite Hfl. by left. }
  apply filter_In in Hx as [Hx Hq]. apply list_elem_of_In in Hx.
  destruct (find_is_Some _ _ x Hx Hq) as [existing He].
  unfold Storage.createDownload. rewrite He.
  apply find_elem_of in He as [? ?]. by exists existing.
Qed.

Lemma filter_nil_of_find_None {A} (p : A → bool) (l : list A) :
  find p l = None → List.filter p l = [].
Proof.
  induction l as [|x r IH]; simpl; [done|].
  destruct (p x); [done|]. exact IH.
Qed.

(** [createDownload] keeps the number of tasks in flight of every video at
    one at most, if it was. *)
Lemma createDownload_keeps_exclusive videoId quality now rnd st :
  (∀ v, inFlight v st ≤ 1)%nat →
  (∀ v, inFlight v (Storage.createDownload videoId quality now rnd st).2 ≤ 1)%nat.
Proof.
  intros Hex v. unfold Storage.createDownload.
  destruct (find _ _) eqn:Hf; simpl; [apply Hex|].
  unfold inFlight. simpl. rewrite List.filter_app, length_app. simpl.
  unfold Storage.inQueue at 2. simpl.
  destruct (_ =? v) eqn:Hv; simpl.
  - apply String.eqb_eq in Hv. subst v.
    rewrite (filter_nil_of_find_None _ _ Hf). simpl. lia.
  - specialize (Hex v). unfold inFlight in Hex. lia.
Qed.


(** ** The download queue: bounded concurrency *)

Lemma foldl_invariant {S E} (step : S → E → S) (P : S → Prop) :
  (∀ s e, P s → P (step s e)) → ∀ es s, P s → P (foldl step s es).
Proof.
  intros Hstep es. induction es as [|e es IH]; intros s Hs; simpl; [done|].
  apply IH, Hstep, Hs.
Qed.

(** [_handleFailure] only writes to the store. *)
Lemma handleFailure_frame downloadId videoId msg now q :
  DownloadQueue.config (DownloadQueue._handleFailure downloadId videoId msg now q)
    = DownloadQueue.config q ∧
  DownloadQueue.activeDownloads
    (DownloadQueue._handleFailure downloadId videoId msg now q)
    = DownloadQueue.activeDownloads q.
Proof.
  unfold DownloadQueue._handleFailure.
  destruct (find _ _); [|done]. destruct (decide _); done.
Qed.







Lemma enqueue_frame videoId quality now rnd q :
  DownloadQueue.config (DownloadQueue.enqueue videoId quality now rnd q).2
    = DownloadQueue.config q ∧
  DownloadQueue.activeDownloads
    (DownloadQueue.enqueue videoId quality now rnd q).2
    = DownloadQueue.activeDownloads q.
Proof.
  unfold DownloadQueue.enqueue.
  destruct (Storage.createDownload _ _ _ _ _) as [downloadId st]. simpl.
  destruct (_ && _); done.
Qed.



Lemma enqueue_storage videoId quality now rnd q :
  DownloadQueue.storage (DownloadQueue.enqueue videoId quality now rnd q).2
  = (Storage.createDownload videoId quality now rnd (DownloadQueue.storage q)).2.
Proof.
  unfold DownloadQueue.enqueue.
  destruct (Storage.createDownload _ _ _ _ _) as [downloadId st]. simpl.
  by destruct (_ && _).
Qed.

(** ** The download queue: one entry per running download *)

Section MoreLists.
Context {A B : Type}.
Implicit Types (p : A → bool) (f : A → A) (g : A → B) (l : list A).

Lemma update_first_fmap g p f l :
  (∀ x, g (f x) = g x) → g <$> update_first p f l = g <$> l.
Proof.
  intros Hg. induction l as [|y r IH]; [done|]. cbn [update_first].
  destruct (p y); rewrite !fmap_cons; [by rewrite Hg | by rewrite IH].
Qed.




End MoreLists.

Lemma NoDup_delete {A} (l : list A) n : NoDup l → NoDup (delete n l).
Proof. intros H. eapply sublist_NoDup; [done | apply sublist_delete]. Qed.


(** *** The store operations on the list of tasks *)

Lemma applyStatus_id status p now dl :
  Download.id (Storage.applyStatus status p now dl) = Download.id dl.
Proof. apply applyStatus_fields. Qed.

Lemma updateDownloadStatus_ids id status p now st :
  Download.id <$> downloads
    (Storage.data (Storage.updateDownloadStatus id status p now st))
  = Download.id <$> downloads (Storage.data st).
Proof.
  unfold Storage.updateDownloadStatus. destruct (find _ _); [|done].
  simpl. apply update_first_fmap. intros x. apply applyStatus_id.
Qed.







(** *** The queue *)













(** ** The scheduler: what a check does to the store *)

Lemma videoExists_true k st :
  Storage.videoExists k st = true ↔ is_Some (videos (Storage.data st) !! k).
Proof. unfold Storage.videoExists. apply bool_decide_eq_true. Qed.

Lemma grows_refl st : grows st st.
Proof. split; auto. Qed.

Lemma grows_trans st1 st2 st3 : grows st1 st2 → grows st2 st3 → grows st1 st3.
Proof.
  intros [V1 T1 N1] [V2 T2 N2]. split.
  - auto.
  - auto.
  - intros k Hk. destruct (N2 k Hk) as [H|H]; [|by right].
    destruct (N1 k H) as [H'|H']; [by left | right; auto].
Qed.

(** Same videos, same tasks: nothing to show. *)
Lemma grows_same st st' :
  videos (Storage.data st') = videos (Storage.data st) →
  downloads (Storage.data st') = downloads (Storage.data st) →
  grows st st'.
Proof.
  intros Hv Hd. split.
  - intros k. unfold Storage.videoExists. by rewrite Hv.
  - intros k. unfold hasTask. by rewrite Hd.
  - intros k. unfold Storage.videoExists. rewrite Hv. by left.
Qed.

Lemma updateChannelLastCheck_data id now st :
  videos (Storage.data (Storage.updateChannelLastCheck id now st))
    = videos (Storage.data st) ∧
  downloads (Storage.data (Storage.updateChannelLastCheck id now st))
    = downloads (Storage.data st).
Proof.
  unfold Storage.updateChannelLastCheck. by destruct (find _ _).
Qed.

Lemma addVideo_downloads channelId videoData now st :
  downloads (Storage.data (Storage.addVideo channelId videoData now st).2)
  = downloads (Storage.data st).
Proof.
  unfold Storage.addVideo. by destruct (videos (Storage.data st) !! _).
Qed.

(** After [addVideo] the store has the video. *)
Lemma addVideo_exists channelId videoData now st :
  Storage.videoExists (VideoData.id videoData)
    (Storage.addVideo channelId videoData now st).2 = true.
Proof.
  apply videoExists_true. unfold Storage.addVideo.
  destruct (videos (Storage.data st) !! _) eqn:Hv; simpl.
  - by rewrite Hv.
  - rewrite lookup_insert_eq. eauto.
Qed.

(** [addVideo] leaves the videos of other ids alone. *)
Lemma addVideo_other channelId videoData now st k :
  k ≠ VideoData.id videoData →
  videos (Storage.data (Storage.addVideo channelId videoData now st).2) !! k
  = videos (Storage.data st) !! k.
Proof.
  intros Hk. unfold Storage.addVideo.
  destruct (videos (Storage.data st) !! VideoData.id videoData); simpl; [done|].
  by rewrite lookup_insert_ne.
Qed.

Lemma addVideo_keeps channelId videoData now st k :
  Storage.videoExists k st = true →
  Storage.videoExists k (Storage.addVideo channelId videoData now st).2 = true.
Proof.
  intros Hk. destruct (decide (k = VideoData.id videoData)) as [->|Hne].
  - apply addVideo_exists.
  - apply videoExists_true. rewrite addVideo_other by done.
    by apply videoExists_true.
Qed.

Lemma createDownload_videos videoId quality now rnd st :
  videos (Storage.data (Storage.createDownload videoId quality now rnd st).2)
  = videos (Storage.data st).
Proof. unfold Storage.createDownload. by destruct (find _ _). Qed.

(** The tasks after [createDownload]: those before, and at most one more,
    of the video submitted. *)
Lemma createDownload_downloads videoId quality now rnd st :
  ∃ added,
    downloads (Storage.data (Storage.createDownload videoId quality now rnd st).2)
      = (downloads (Storage.data st) ++ added)%list ∧
    Forall (λ dl, Download.videoId dl = videoId) added.
Proof.
  unfold Storage.createDownload. destruct (find _ _); simpl.
  - exists []. by rewrite app_nil_r.
  - eexists [_]. split; [done|]. by apply Forall_singleton.
Qed.

(** After [createDownload] the video has a task. *)
Lemma createDownload_hasTask videoId quality now rnd st :
  hasTask videoId (Storage.createDownload videoId quality now rnd st).2.
Proof.
  unfold Storage.createDownload, hasTask.
  destruct (find _ _) as [existing|] eqn:Hf; simpl.
  - apply find_elem_of in Hf as [Hin Hq]. exists existing. split; [done|].
    unfold Storage.inQueue in Hq. apply andb_true_iff in Hq as [Hq _].
    by apply String.eqb_eq.
  - eexists. split; [apply elem_of_app; right; by left|done].
Qed.

Lemma createDownload_tasksOf videoId quality now rnd st k :
  k ≠ videoId →
  tasksOf k (Storage.createDownload videoId quality now rnd st).2 = tasksOf k st.
Proof.
  intros Hk. unfold tasksOf.
  destruct (createDownload_downloads videoId quality now rnd st)
    as (added & -> & Hadd).
  rewrite List.filter_app.
  assert (List.filter (λ dl, Download.videoId dl =? k) added = []) as ->.
  { induction Hadd as [|x l Hx _ IH]; simpl; [done|].
    rewrite Hx. destruct (videoId =? k) eqn:E; [|done].
    apply String.eqb_eq in E. congruence. }
  by rewrite app_nil_r.
Qed.

(** One turn of step 3 of [checkChannel], on the store. *)
Lemma discover_grows channelId video quality now rnd st :
  grows st
    (Storage.createDownload (VideoData.id video) quality now rnd
       (Storage.addVideo channelId video now st).2).2.
Proof.
  set (st1 := (Storage.addVideo channelId video now st).2).
  set (st2 := (Storage.createDownload _ _ _ _ st1).2).
  assert (videos (Storage.data st2) = videos (Storage.data st1)) as Hv2
    by apply createDownload_videos.
  split.
  - intros k Hk. apply videoExists_true. rewrite Hv2.
    apply videoExists_true. by apply addVideo_keeps.
  - intros k (dl & Hin & Hk). exists dl. split; [|done]. subst st2.
    destruct (createDownload_downloads (VideoData.id video) quality now rnd st1)
      as (added & Hd & _).
    rewrite Hd. apply elem_of_app. left.
    subst st1. by rewrite addVideo_downloads.
  - intros k Hk. destruct (decide (k = VideoData.id video)) as [->|Hne].
    + right. apply createDownload_hasTask.
    + left. apply videoExists_true. apply videoExists_true in Hk.
      rewrite Hv2 in Hk. subst st1. by rewrite addVideo_other in Hk.
Qed.

Lemma addAndEnqueue1_storage channelId video k r s :
  MonitoringScheduler.storage
    (MonitoringScheduler.addAndEnqueue1 channelId video k r s)
  = (Storage.createDownload (VideoData.id video)
       (DownloadQueue.defaultQuality (MonitoringScheduler.config s))
       (MonitoringScheduler.clock r) (MonitoringScheduler.random r k)
       (Storage.addVideo channelId video (MonitoringScheduler.clock r)
          (MonitoringScheduler.storage s)).2).2.
Proof.
  unfold MonitoringScheduler.addAndEnqueue1, MonitoringScheduler.storage.
  simpl. by rewrite enqueue_storage.
Qed.

Lemma addAndEnqueue1_frame channelId video k r s :
  MonitoringScheduler._isChecking
    (MonitoringScheduler.addAndEnqueue1 channelId video k r s)
    = MonitoringScheduler._isChecking s ∧
  MonitoringScheduler.listed
    (MonitoringScheduler.addAndEnqueue1 channelId video k r s)
    = MonitoringScheduler.listed s.
Proof. done. Qed.

Lemma addAndEnqueue_frame channelId newVideos k r s :
  MonitoringScheduler._isChecking
    (MonitoringScheduler.addAndEnqueue channelId newVideos k r s)
    = MonitoringScheduler._isChecking s ∧
  MonitoringScheduler.listed
    (MonitoringScheduler.addAndEnqueue channelId newVideos k r s)
    = MonitoringScheduler.listed s.
Proof.
  revert k s. induction newVideos as [|video rest IH]; intros k s; [done|].
  simpl. destruct (IH (S k)
    (MonitoringScheduler.addAndEnqueue1 channelId video k r s)) as [-> ->].
  apply addAndEnqueue1_frame.
Qed.

Lemma addAndEnqueue_grows channelId newVideos k r s :
  grows (MonitoringScheduler.storage s)
        (MonitoringScheduler.storage
           (MonitoringScheduler.addAndEnqueue channelId newVideos k r s)).
Proof.
  revert k s. induction newVideos as [|video rest IH]; intros k s.
  - apply grows_refl.
  - simpl. eapply grows_trans; [|apply IH].
    rewrite addAndEnqueue1_storage. apply discover_grows.
Qed.

(** Step 3 adds every video it is given. *)
Lemma addAndEnqueue_adds channelId newVideos k r s v :
  v ∈ newVideos →
  Storage.videoExists (VideoData.id v)
    (MonitoringScheduler.storage
       (MonitoringScheduler.addAndEnqueue channelId newVideos k r s)) = true.
Proof.
  revert k s. induction newVideos as [|video rest IH]; intros k s.
  - by intros ?%elem_of_nil.
  - intros [->|Hv]%elem_of_cons; simpl; [|by apply IH].
    apply (grows_videos _ _ (addAndEnqueue_grows channelId rest (S k) r _)).
    rewrite addAndEnqueue1_storage.
    apply videoExists_true. rewrite createDownload_videos.
    apply videoExists_true, addVideo_exists.
Qed.

(** Step 3 leaves a video alone, and its tasks, when it is not among the
    videos it is given. *)
Lemma addAndEnqueue_other channelId newVideos k r s k0 :
  Forall (λ v, VideoData.id v ≠ k0) newVideos →
  let s' := MonitoringScheduler.addAndEnqueue channelId newVideos k r s in
  videos (Storage.data (MonitoringScheduler.storage s')) !! k0
    = videos (Storage.data (MonitoringScheduler.storage s)) !! k0 ∧
  tasksOf k0 (MonitoringScheduler.storage s')
    = tasksOf k0 (MonitoringScheduler.storage s).
Proof.
  intros Hall. revert k s.
  induction Hall as [|video rest Hne _ IH]; intros k s; [done|].
  simpl. destruct (IH (S k)
    (MonitoringScheduler.addAndEnqueue1 channelId video k r s)) as [-> ->].
  rewrite addAndEnqueue1_storage. split.
  - rewrite createDownload_videos. by apply addVideo_other.
  - rewrite createDownload_tasksOf by done.
    unfold tasksOf. by rewrite addVideo_downloads.
Qed.

(** *** [checkChannel] *)

Lemma checkChannel_frame channel r s :
  MonitoringScheduler._isChecking (MonitoringScheduler.checkChannel channel r s).2
    = MonitoringScheduler._isChecking s ∧
  MonitoringScheduler.listed (MonitoringScheduler.checkChannel channel r s).2
    = (MonitoringScheduler.listed s ++ [Channel.url channel])%list.
Proof.
  unfold MonitoringScheduler.checkChannel.
  destruct (MonitoringScheduler.listing r) as [vids|]; [|done].
  destruct (List.filter _ vids) as [|v newVideos]; [done|].
  exact (addAndEnqueue_frame (Channel.id channel) (v :: newVideos) 0 r
           (MonitoringScheduler.set_listed
              (MonitoringScheduler.listed s ++ [Channel.url channel]) s)).
Qed.

(** [checkChannel] throws exactly when the listing is rejected. *)
Lemma checkChannel_result channel r s :
  (MonitoringScheduler.checkChannel channel r s).1 = None
  ↔ MonitoringScheduler.listing r = None.
Proof.
  unfold MonitoringScheduler.checkChannel.
  destruct (MonitoringScheduler.listing r) as [vids|]; [|done].
  destruct (List.filter _ vids); done.
Qed.

(** The store after a check whose listing came: step 3 on the videos the
    store does not have, then the time stamp of the channel. *)
Lemma checkChannel_storage channel r s vids :
  MonitoringScheduler.listing r = Some vids →
  MonitoringScheduler.storage (MonitoringScheduler.checkChannel channel r s).2
  = Storage.updateChannelLastCheck (Channel.id channel)
      (MonitoringScheduler.clock r)
      (MonitoringScheduler.storage
         (MonitoringScheduler.addAndEnqueue (Channel.id channel)
            (List.filter
               (λ video, negb (Storage.videoExists (VideoData.id video)
                                 (MonitoringScheduler.storage s))) vids)
            0 r
            (MonitoringScheduler.set_listed
               (MonitoringScheduler.listed s ++ [Channel.url channel]) s))).
Proof.
  intros Hl. unfold MonitoringScheduler.checkChannel. rewrite Hl.
  change (MonitoringScheduler.storage (MonitoringScheduler.set_listed
            (MonitoringScheduler.listed s ++ [Channel.url channel]) s))
    with (MonitoringScheduler.storage s).
  by destruct (List.filter _ vids).
Qed.

Lemma checkChannel_storage_rejected channel r s :
  MonitoringScheduler.listing r = None →
  MonitoringScheduler.storage (MonitoringScheduler.checkChannel channel r s).2
  = MonitoringScheduler.storage s.
Proof.
  intros Hl. unfold MonitoringScheduler.checkChannel. by rewrite Hl.
Qed.

Lemma checkChannel_grows channel r s :
  grows (MonitoringScheduler.storage s)
        (MonitoringScheduler.storage
           (MonitoringScheduler.checkChannel channel r s).2).
Proof.
  destruct (MonitoringScheduler.listing r) as [vids|] eqn:Hl.
  - rewrite (checkChannel_storage channel r s vids Hl).
    eapply grows_trans; [|apply grows_same; apply updateChannelLastCheck_data].
    apply (addAndEnqueue_grows (Channel.id channel) _ 0 r
             (MonitoringScheduler.set_listed _ s)).
  - rewrite (checkChannel_storage_rejected channel r s Hl). apply grows_refl.
Qed.

(** After the check of a channel whose listing came, every video of the
    listing is in the store. *)
Lemma checkChannel_discovers channel r s vids v :
  MonitoringScheduler.listing r = Some vids → v ∈ vids →
  Storage.videoExists (VideoData.id v)
    (MonitoringScheduler.storage
       (MonitoringScheduler.checkChannel channel r s).2) = true.
Proof.
  intros Hl Hv.
  destruct (Storage.videoExists (VideoData.id v)
              (MonitoringScheduler.storage s)) eqn:Hknown.
  - (* known before: kept *)
    by apply (grows_videos _ _ (checkChannel_grows channel r s)).
  - (* new: among the videos of step 3 *)
    rewrite (checkChannel_storage channel r s vids Hl).
    apply videoExists_true.
    destruct (updateChannelLastCheck_data (Channel.id channel)
      (MonitoringScheduler.clock r)
      (MonitoringScheduler.storage
         (MonitoringScheduler.addAndEnqueue (Channel.id channel)
            (List.filter
               (λ video, negb (Storage.videoExists (VideoData.id video)
                                 (MonitoringScheduler.storage s))) vids)
            0 r
            (MonitoringScheduler.set_listed
               (MonitoringScheduler.listed s ++ [Channel.url channel]) s))))
      as [-> _].
    apply videoExists_true, addAndEnqueue_adds.
    apply list_elem_of_In, filter_In. split; [by apply list_elem_of_In|].
    by rewrite Hknown.
Qed.

(** A video the store has when the check starts is left as it is, and so
    are its tasks. *)
Lemma checkChannel_known channel r s k :
  Storage.videoExists k (MonitoringScheduler.storage s) = true →
  let s' := (MonitoringScheduler.checkChannel channel r s).2 in
  videos (Storage.data (MonitoringScheduler.storage s')) !! k
    = videos (Storage.data (MonitoringScheduler.storage s)) !! k ∧
  tasksOf k (MonitoringScheduler.storage s')
    = tasksOf k (MonitoringScheduler.storage s).
Proof.
  intros Hk s'. subst s'.
  destruct (MonitoringScheduler.listing r) as [vids|] eqn:Hl.
  2:{ by rewrite (checkChannel_storage_rejected channel r s Hl). }
  rewrite (checkChannel_storage channel r s vids Hl).
  set (newVideos := List.filter _ vids).
  assert (Forall (λ v, VideoData.id v ≠ k) newVideos) as Hall.
  { apply Forall_forall. intros v Hv%list_elem_of_In%filter_In.
    destruct Hv as [_ Hv]. intros Heq. rewrite Heq, Hk in Hv. done. }
  destruct (addAndEnqueue_other (Channel.id channel) newVideos 0 r
              (MonitoringScheduler.set_listed
                 (MonitoringScheduler.listed s ++ [Channel.url channel]) s)
              k Hall) as [Hv Hd].
  unfold tasksOf in *.
  destruct (updateChannelLastCheck_data (Channel.id channel)
              (MonitoringScheduler.clock r)
              (MonitoringScheduler.storage
                 (MonitoringScheduler.addAndEnqueue (Channel.id channel)
                    newVideos 0 r
                    (MonitoringScheduler.set_listed
                       (MonitoringScheduler.listed s ++ [Channel.url channel])
                       s)))) as [-> ->].
  split; [exact Hv | exact Hd].
Qed.

(** *** The loop over the channels *)

Lemma rejections_S env i n :
  rejections env i (S n)
  = ((if rejected env i then 1 else 0) + rejections env (S i) n)%nat.
Proof. unfold rejections. simpl. by destruct (rejected env i). Qed.

Lemma iter_spec channel rest r p s :
  let ps := MonitoringScheduler.checkAllChannelsNow_iter channel rest r p s in
  ps.2 = (MonitoringScheduler.checkChannel channel r s).2 ∧
  MonitoringScheduler.p_todo ps.1 = rest ∧
  MonitoringScheduler.p_i ps.1 = S (MonitoringScheduler.p_i p) ∧
  MonitoringScheduler.totalChannels (MonitoringScheduler.p_stats ps.1)
    = MonitoringScheduler.totalChannels (MonitoringScheduler.p_stats p) ∧
  MonitoringScheduler.errors (MonitoringScheduler.p_stats ps.1)
    = (MonitoringScheduler.errors (MonitoringScheduler.p_stats p)
       + match MonitoringScheduler.listing r with None => 1 | Some _ => 0 end)%nat.
Proof.
  unfold MonitoringScheduler.checkAllChannelsNow_iter.
  pose proof (checkChannel_result channel r s) as Hres.
  destruct (MonitoringScheduler.checkChannel channel r s) as [[n|] s1]; simpl in *.
  - destruct (MonitoringScheduler.listing r).
    + repeat split; lia.
    + destruct Hres as [_ Hres]. by specialize (Hres eq_refl).
  - destruct Hres as [Hres _]. rewrite (Hres eq_refl). repeat split; lia.
Qed.

Lemma scan_spec env todo : ∀ p s,
  let ps := MonitoringScheduler.scan env p todo s in
  MonitoringScheduler.errors (MonitoringScheduler.p_stats ps.1)
    = (MonitoringScheduler.errors (MonitoringScheduler.p_stats p)
       + rejections env (MonitoringScheduler.p_i p) (length todo))%nat ∧
  MonitoringScheduler.totalChannels (MonitoringScheduler.p_stats ps.1)
    = MonitoringScheduler.totalChannels (MonitoringScheduler.p_stats p) ∧
  MonitoringScheduler.listed ps.2
    = (MonitoringScheduler.listed s ++ (Channel.url <$> todo))%list ∧
  MonitoringScheduler._isChecking ps.2 = MonitoringScheduler._isChecking s ∧
  grows (MonitoringScheduler.storage s) (MonitoringScheduler.storage ps.2) ∧
  (∀ j channel vids v,
     todo !! j = Some channel →
     MonitoringScheduler.listing (env (MonitoringScheduler.p_i p + j)%nat)
       = Some vids →
     v ∈ vids →
     Storage.videoExists (VideoData.id v) (MonitoringScheduler.storage ps.2)
       = true) ∧
  (∀ k, Storage.videoExists k (MonitoringScheduler.storage s) = true →
     videos (Storage.data (MonitoringScheduler.storage ps.2)) !! k
       = videos (Storage.data (MonitoringScheduler.storage s)) !! k ∧
     tasksOf k (MonitoringScheduler.storage ps.2)
       = tasksOf k (MonitoringScheduler.storage s)).
Proof.
  induction todo as [|channel rest IH]; intros p s.
  - simpl. rewrite app_nil_r. unfold rejections. simpl.
    split; [lia|]. split; [done|]. split; [done|]. split; [done|].
    split; [apply grows_refl|]. split; [|done].
    intros j c vids v Hj. by rewrite lookup_nil in Hj.
  - simpl.
    pose proof (iter_spec channel rest
                  (env (MonitoringScheduler.p_i p)) p s) as Hit.
    destruct (MonitoringScheduler.checkAllChannelsNow_iter channel rest
                (env (MonitoringScheduler.p_i p)) p s) as [p1 s1].
    simpl in Hit. destruct Hit as (Hs1 & _ & Hi & Htot & Herr).
    destruct (IH p1 s1) as (E & T & L & C & G & D & K).
    pose proof (checkChannel_frame channel
                  (env (MonitoringScheduler.p_i p)) s) as [Fc Fl].
    pose proof (checkChannel_grows channel
                  (env (MonitoringScheduler.p_i p)) s) as Gc.
    rewrite <- Hs1 in Fc, Fl, Gc.
    split; [|split; [|split; [|split; [|split; [|split]]]]].
    + rewrite E, Herr, Hi, rejections_S. unfold rejected.
      destruct (MonitoringScheduler.listing _); lia.
    + by rewrite T.
    + rewrite L, Fl, <- app_assoc. done.
    + by rewrite C.
    + by eapply grows_trans.
    + intros j c vids v Hj Hl Hv. destruct j as [|j].
      * simpl in Hj. injection Hj as <-.
        rewrite Nat.add_0_r in Hl.
        apply (grows_videos _ _ G). rewrite Hs1.
        by eapply checkChannel_discovers.
      * simpl in Hj. apply (D j c vids v Hj); [|done].
        rewrite Hi. by replace (S (MonitoringScheduler.p_i p) + j)%nat
                         with (MonitoringScheduler.p_i p + S j)%nat by lia.
    + intros k Hk.
      destruct (checkChannel_known channel
                  (env (MonitoringScheduler.p_i p)) s k Hk) as [Kv Kt].
      rewrite <- Hs1 in Kv, Kt.
      destruct (K k) as [Kv' Kt'].
      { by apply (grows_videos _ _ Gc). }
      split; congruence.
Qed.

(** ** The scheduler: isolation of a failing channel *)



(** ** Discovery is idempotent *)

(** C5. [addVideo] with an id the store has returns [false] and leaves the
    store as it is; and a pass of the scheduler leaves a video that the
    store has when the pass begins exactly as it is, together with the list
    of its tasks: no second item, no further task. *)
Theorem discovery_is_idempotent :
  (∀ channelId videoData now st,
     is_Some (videos (Storage.data st) !! VideoData.id videoData) →
     Storage.addVideo channelId videoData now st = (false, st)) ∧
  (∀ env s k,
     Storage.videoExists k (MonitoringScheduler.storage s) = true →
     let s' := (MonitoringScheduler.checkAllChannelsNow env s).2 in
     videos (Storage.data (MonitoringScheduler.storage s')) !! k
       = videos (Storage.data (MonitoringScheduler.storage s)) !! k ∧
     tasksOf k (MonitoringScheduler.storage s')
       = tasksOf k (MonitoringScheduler.storage s)).
Proof.
  split; [apply addVideo_known|].
  intros env s k Hk s'. subst s'.
  unfold MonitoringScheduler.checkAllChannelsNow,
         MonitoringScheduler.checkAllChannelsNow_enter.
  destruct (MonitoringScheduler._isChecking s); [done|].
  cbn [MonitoringScheduler.p_todo].
  set (s1 := MonitoringScheduler.set_isChecking true s).
  remember (Storage.getChannels true (MonitoringScheduler.storage s1)) as chs
    eqn:Hchs.
  set (p := MonitoringScheduler.mkPass chs 0 _).
  pose proof (scan_spec env chs p s1) as Hscan.
  destruct chs as [|c0 rest]; [done|].
  set (chs := c0 :: rest) in *.
  destruct (MonitoringScheduler.scan env p chs s1) as [p1 s2].
  cbn [fst snd] in *. destruct Hscan as (_ & _ & _ & _ & _ & _ & K).
  exact (K k Hk).
Qed.

Lemma discovery_is_idempotent_witness :
  is_Some (videos (Storage.data Sample.idle) !! "vid1") ∧
  Storage.addVideo "ch_2" Sample.videoData 30 Sample.idle = (false, Sample.idle) ∧
  Storage.videoExists "vid1" (MonitoringScheduler.storage Sample.scheduler1)
    = true ∧
  tasksOf "vid1"
    (MonitoringScheduler.storage
       (MonitoringScheduler.checkAllChannelsNow
          (λ _, MonitoringScheduler.mkReply
                  (Some [Sample.videoData; Sample.videoData2]) 31 (λ _, "zzzzzzzzz"))
          Sample.scheduler1).2)
  = tasksOf "vid1" (MonitoringScheduler.storage Sample.scheduler1).
Proof.
  assert (is_Some (videos (Storage.data Sample.idle) !! "vid1")) as H
    by (eexists; reflexivity).
  destruct discovery_is_idempotent as [Hadd Hpass].
  split; [exact H|]. split; [exact (Hadd "ch_2" Sample.videoData 30%N Sample.idle H)|].
  split; [reflexivity|].
  exact (proj2 (Hpass _ Sample.scheduler1 "vid1" eq_refl)).
Defined.

(** ** The scheduler: passes do not overlap *)

Lemma iter_isChecking channel rest r p s :
  MonitoringScheduler._isChecking
    (MonitoringScheduler.checkAllChannelsNow_iter channel rest r p s).2
  = MonitoringScheduler._isChecking s.
Proof.
  destruct (iter_spec channel rest r p s) as [-> _].
  apply checkChannel_frame.
Qed.

Lemma step_guarded l ev : guarded l → guarded (MonitoringScheduler.step l ev).
Proof.
  unfold guarded. destruct l as [s ps]. simpl.
  destruct ev as [|k r|k|ev]; simpl.
  - (* a call of checkAllChannelsNow *)
    unfold MonitoringScheduler.checkAllChannelsNow_enter.
    destruct (MonitoringScheduler._isChecking s) eqn:Hflag; simpl.
    + by rewrite Hflag.
    + destruct (List.filter _ _); simpl.
      * by destruct ps as [|p [|p' ps]].
      * by destruct ps as [|p [|p' ps]].
  - (* the listing a pass waits for *)
    destruct ps as [|p [|p' ps]]; [done| |done].
    destruct k as [|k]; simpl; [|done].
    destruct (MonitoringScheduler.p_todo p) as [|channel rest]; simpl; [done|].
    pose proof (iter_isChecking channel rest r p s) as Hit.
    destruct (MonitoringScheduler.checkAllChannelsNow_iter channel rest r p s)
      as [p1 s1].
    destruct rest; simpl in *; [done|congruence].
  - (* a pass ends on an error *)
    destruct ps as [|p [|p' ps]]; [done| |done].
    destruct k as [|k]; simpl; done.
  - (* the queue *)
    done.
Qed.

(** C7. At any point of any run of the scheduler at most one pass is in
    progress, and while one is, the flag is up and a call of
    [checkAllChannelsNow] returns at once: it starts no pass, lists no
    channel and changes nothing. *)
Theorem scans_never_overlap q evs :
  let l := MonitoringScheduler.run
             (MonitoringScheduler.mkLoop (MonitoringScheduler.new q) []) evs in
  (length (MonitoringScheduler.passes l) ≤ 1)%nat ∧
  match MonitoringScheduler.passes l with
  | [] => MonitoringScheduler._isChecking (MonitoringScheduler.sched l) = false
  | _ :: _ =>
      MonitoringScheduler._isChecking (MonitoringScheduler.sched l) = true ∧
      MonitoringScheduler.step l MonitoringScheduler.Trigger = l ∧
      ∀ env,
        MonitoringScheduler.checkAllChannelsNow env (MonitoringScheduler.sched l)
        = (None, MonitoringScheduler.sched l)
  end.
Proof.
  intros l.
  assert (guarded l) as Hg.
  { subst l. unfold MonitoringScheduler.run.
    apply (foldl_invariant MonitoringScheduler.step guarded).
    - intros s e. apply step_guarded.
    - reflexivity. }
  unfold guarded in Hg. destruct l as [s ps]. simpl in *.
  destruct ps as [|p [|p' ps]]; [|simpl|done].
  - split; [simpl; lia | done].
  - split; [lia|]. split; [done|].
    unfold MonitoringScheduler.checkAllChannelsNow,
           MonitoringScheduler.checkAllChannelsNow_enter.
    rewrite Hg. done.
Qed.

(** A second call while the first pass waits for its first listing. *)
Example second_call_is_ignored :
  let l1 := MonitoringScheduler.run
              (MonitoringScheduler.mkLoop Sample.scheduler [])
              [MonitoringScheduler.Trigger] in
  length (MonitoringScheduler.passes l1) = 1 ∧
  MonitoringScheduler.step l1 MonitoringScheduler.Trigger = l1.
Proof. split; reflexivity. Qed.

(** *** A pass on the event loop and a pass in one piece

    When nothing else happens in between, a call followed by the arrival of
    the listings, one after the other, leaves the scheduler in the state
    [checkAllChannelsNow] computes, with no pass left. *)

Lemma resume_scan env : ∀ todo p s,
  MonitoringScheduler.p_todo p = todo → todo ≠ [] →
  MonitoringScheduler.run (MonitoringScheduler.mkLoop s [p])
    ((λ i, MonitoringScheduler.Resume 0 (env i))
       <$> seq (MonitoringScheduler.p_i p) (length todo))
  = MonitoringScheduler.mkLoop
      (MonitoringScheduler.checkAllChannelsNow_leave
         (MonitoringScheduler.scan env p todo s).2) [].
Proof.
  induction todo as [|channel rest IH]; intros p s Hp Hne; [done|].
  cbn [length seq fmap list_fmap MonitoringScheduler.run foldl
       MonitoringScheduler.step MonitoringScheduler.passes
       MonitoringScheduler.sched lookup list_lookup].
  rewrite Hp. cbn [MonitoringScheduler.scan].
  pose proof (iter_spec channel rest (env (MonitoringScheduler.p_i p)) p s)
    as Hit.
  destruct (MonitoringScheduler.checkAllChannelsNow_iter channel rest
              (env (MonitoringScheduler.p_i p)) p s) as [p1 s1].
  simpl in Hit. destruct Hit as (_ & Htodo & Hi & _).
  destruct rest as [|channel' rest'].
  - reflexivity.
  - cbn [insert list_insert delete list_delete].
    rewrite <- Hi. by apply (IH p1 s1).
Qed.

Lemma pass_on_the_loop env s :
  MonitoringScheduler._isChecking s = false →
  MonitoringScheduler.run (MonitoringScheduler.mkLoop s [])
    (MonitoringScheduler.Trigger ::
     ((λ i, MonitoringScheduler.Resume 0 (env i))
        <$> seq 0 (length (Storage.getChannels true
                             (MonitoringScheduler.storage s)))))
  = MonitoringScheduler.mkLoop
      (MonitoringScheduler.checkAllChannelsNow env s).2 [].
Proof.
  intros Hflag.
  unfold MonitoringScheduler.checkAllChannelsNow.
  cbn [MonitoringScheduler.run foldl MonitoringScheduler.step
       MonitoringScheduler.sched MonitoringScheduler.passes].
  unfold MonitoringScheduler.checkAllChannelsNow_enter. rewrite Hflag.
  cbn [MonitoringScheduler.p_todo].
  change (MonitoringScheduler.storage
            (MonitoringScheduler.set_isChecking true s))
    with (MonitoringScheduler.storage s).
  destruct (Storage.getChannels true (MonitoringScheduler.storage s))
    as [|channel rest] eqn:Hchs.
  - reflexivity.
  - set (p := MonitoringScheduler.mkPass _ 0 _).
    pose proof (resume_scan env (channel :: rest) p
                  (MonitoringScheduler.set_isChecking true s) eq_refl) as H.
    unfold MonitoringScheduler.run in H. cbn [app].
    change (seq 0 (length (channel :: rest)))
      with (seq (MonitoringScheduler.p_i p) (length (channel :: rest))).
    rewrite H; [|done].
    by destruct (MonitoringScheduler.scan env p (channel :: rest) _).
Qed.

(** * Further properties of the code *)

(** ** Paths *)

Lemma append_neq_self (s t : string) : t ≠ "" → s +:+ t ≠ s.
Proof.
  intros Ht. induction s as [|a s IH]; simpl; [done|].
  intros [= H]. by apply IH.
Qed.

Lemma append_inj_l (s a b : string) : s +:+ a = s +:+ b → a = b.
Proof.
  induction s as [|c s IH]; simpl; [done|]. intros [= H]. by apply IH.
Qed.

Lemma tmp_neq_path (p : string) : p +:+ ".tmp" ≠ p.
Proof. by apply append_neq_self. Qed.

(** ** The file follows the memory *)

Lemma save_lookup_other st p :
  p ≠ Storage.filePath st → p ≠ Storage.filePath st +:+ ".tmp" →
  Storage.fs (Storage.save st) !! p = Storage.fs st !! p.
Proof.
  intros Hp Ht.
  unfold Storage.save, Fs.renameSync, Fs.writeFileSync. simpl.
  rewrite lookup_insert_eq.
  rewrite lookup_insert_ne by done. rewrite lookup_delete_ne by done.
  by rewrite lookup_insert_ne.
Qed.

Lemma save_lookup_tmp st :
  Storage.fs (Storage.save st) !! (Storage.filePath st +:+ ".tmp") = None.
Proof.
  unfold Storage.save, Fs.renameSync, Fs.writeFileSync. simpl.
  rewrite lookup_insert_eq.
  rewrite lookup_insert_ne by (symmetry; apply tmp_neq_path).
  apply lookup_delete_eq.
Qed.

Lemma save_synced st : synced (Storage.save st).
Proof. apply save_persisted. Qed.

(** Whatever the file holds when [init()] is called (nothing, a snapshot,
    text that does not parse), the file holds the data in memory when
    [init()] returns. *)
Lemma init_in_step now st : synced (Storage.init now st).
Proof.
  unfold synced, Storage.init, Storage.load.
  destruct (Storage.fs st !! Storage.filePath st) as [[d|]|] eqn:Hf.
  - (* a snapshot *)
    set (st2 := Storage.map_data _ _).
    assert (synced (if decide (0 < Storage.resetCount
                                      (downloads (Storage.data
                                         (Storage.set_data d st))))
                    then Storage.save st2 else st2)) as H3.
    { destruct (decide _) as [|Hn]; [apply save_synced|].
      unfold synced. simpl. rewrite Hf. f_equal. f_equal.
      assert (Storage.resetDownloading <$> downloads d = downloads d) as ->.
      { apply resetDownloading_fmap_id. apply Forall_forall. intros dl Hdl Hs.
        apply Hn. simpl. by eapply resetCount_pos. }
      by destruct d. }
    set (st3 := if decide _ then _ else _) in *.
    destruct (Storage.migrated _) eqn:Hm; [apply save_synced|].
    unfold synced in *. simpl. rewrite (migrateVideos_id _ Hm).
    rewrite H3. by destruct (Storage.data st3).
  - (* text that does not parse *)
    apply save_synced.
  - (* no file *)
    set (st1 := Storage.save st).
    set (st2 := Storage.map_data _ _).
    assert (synced (if decide (0 < Storage.resetCount
                                      (downloads (Storage.data st1)))
                    then Storage.save st2 else st2)) as H3.
    { destruct (decide _) as [|Hn]; [apply save_synced|].
      unfold synced. simpl.
      assert (Storage.resetDownloading <$> downloads (Storage.data st)
              = downloads (Storage.data st)) as ->.
      { apply resetDownloading_fmap_id. apply Forall_forall. intros dl Hdl Hs.
        apply Hn. simpl. by eapply resetCount_pos. }
      pose proof (save_file st) as H. simpl in H. rewrite H.
      by destruct (Storage.data st). }
    set (st3 := if decide _ then _ else _) in *.
    destruct (Storage.migrated _) eqn:Hm; [apply save_synced|].
    unfold synced in *. simpl. rewrite (migrateVideos_id _ Hm).
    rewrite H3. by destruct (Storage.data st3).
Qed.

(** Every mutator of the store leaves the file in step with the memory, if
    it was. *)
Lemma mutate_in_step st m : synced st → synced (mutate st m).
Proof.
  intros Hs. destruct m; simpl.
  - unfold Storage.addChannel. destruct (find _ _); [done|apply save_synced].
  - unfold Storage.toggleChannel. destruct (find _ _); [apply save_synced|done].
  - apply save_synced.
  - unfold Storage.updateChannelLastCheck.
    destruct (find _ _); [apply save_synced|done].
  - unfold Storage.addVideo.
    destruct (videos (Storage.data st) !! _); [done|apply save_synced].
  - unfold Storage.createDownload. destruct (find _ _); [done|apply save_synced].
  - unfold Storage.updateDownloadStatus.
    destruct (find _ _); [apply save_synced|done].
  - unfold Storage.retryFailedDownload. destruct (find _ _); [|done].
    destruct (decide _); [apply save_synced|done].
Qed.

(** X1. From [init()] on, after every call of a method of the store, the file
    of the store holds exactly the data in memory: no acknowledged change
    lives in memory only. *)
Theorem file_follows_memory now st0 ms :
  synced (foldl mutate (Storage.init now st0) ms).
Proof.
  apply (foldl_invariant mutate synced).
  - intros s m. apply mutate_in_step.
  - apply init_in_step.
Qed.

(** X2. [init()] on a file that does not parse: the text is kept under the
    backup name, the data in memory are those the store had (none, for a
    store just constructed), and the file of the store is written anew. *)
Theorem init_quarantines_corrupt_file now st :
  Storage.fs st !! Storage.filePath st = Some Garbage →
  let st' := Storage.init now st in
  Storage.fs st' !! (Storage.filePath st +:+ ".backup." +:+ pretty now)
    = Some Garbage ∧
  Storage.data st' = Storage.data st ∧
  Storage.fs st' !! Storage.filePath st = Some (Json (Storage.data st)).
Proof.
  intros Hf st'. subst st'. unfold Storage.init, Storage.load. rewrite Hf.
  unfold Fs.existsSync. rewrite Hf.
  rewrite bool_decide_eq_true_2 by eauto.
  set (backupPath := Storage.filePath st +:+ ".backup." +:+ pretty now).
  set (st1 := Storage.set_fs _ st).
  split; [|split; [done|exact (save_file st1)]].
  rewrite save_lookup_other.
  - subst st1. unfold Fs.renameSync. simpl. rewrite Hf.
    apply lookup_insert_eq.
  - apply append_neq_self. done.
  - intros H. apply append_inj_l in H. done.
Qed.

Lemma init_quarantines_corrupt_file_witness :
  let st := Storage.new Sample.path {[ Sample.path := Garbage ]} in
  Storage.fs st !! Storage.filePath st = Some Garbage ∧
  Storage.fs (Storage.init 7 st) !! (Sample.path +:+ ".backup.7")
    = Some Garbage ∧
  Storage.data (Storage.init 7 st) = mkData [] ∅ [].
Proof.
  intros st.
  assert (Storage.fs st !! Storage.filePath st = Some Garbage) as H
    by reflexivity.
  destruct (init_quarantines_corrupt_file 7 st H) as (H1 & H2 & _).
  split; [exact H|]. split; [exact H1 | exact H2].
Defined.

(** ** Restart *)

Lemma migrateVideo_idem k v :
  Storage.migrateVideo k (Storage.migrateVideo k v) = Storage.migrateVideo k v.
Proof.
  unfold Storage.migrateVideo.
  destruct (Video.id v =? "") eqn:E; [|by rewrite E].
  simpl. destruct (k =? ""); by destruct v.
Qed.

Lemma init_new_keyed now path fs0 :
  keyed (Storage.init now (Storage.new path fs0)).
Proof.
  unfold keyed. destruct (fs0 !! path) as [[d|]|] eqn:Hf.
  - rewrite (init_loaded_data now _ d) by done.
    intros k v. simpl. unfold Storage.migrateVideos.
    rewrite map_lookup_imap. destruct (videos d !! k); [|done].
    intros [= <-]. apply migrateVideo_idem.
  - unfold Storage.init, Storage.load. simpl. rewrite Hf.
    rewrite save_data. by destruct (Fs.existsSync _ _).
  - unfold Storage.init, Storage.load. simpl. rewrite Hf. by intros k v.
Qed.

Lemma mutate_keyed st m : keyed st → keyed (mutate st m).
Proof.
  intros Hk. destruct m; simpl.
  - unfold Storage.addChannel. by destruct (find _ _).
  - unfold Storage.toggleChannel. by destruct (find _ _).
  - done.
  - unfold Storage.updateChannelLastCheck. by destruct (find _ _).
  - unfold Storage.addVideo.
    destruct (_ !! _) eqn:Hv; [done|]. intros k v. simpl.
    destruct (decide (k = VideoData.id videoData)) as [->|Hne].
    + rewrite lookup_insert_eq. intros [= <-].
      unfold Storage.migrateVideo. simpl.
      by destruct (VideoData.id videoData =? "").
    + rewrite lookup_insert_ne by done. apply Hk.
  - unfold Storage.createDownload. by destruct (find _ _).
  - unfold Storage.updateDownloadStatus. by destruct (find _ _).
  - unfold Storage.retryFailedDownload. destruct (find _ _); [|done].
    by destruct (decide _).
Qed.

Lemma restart_data now st :
  synced st → keyed st →
  Storage.data (restart now st)
  = set_downloads (Storage.resetDownloading <$> downloads (Storage.data st))
                  (Storage.data st).
Proof.
  intros Hs Hk. unfold restart.
  rewrite (init_loaded_data now _ (Storage.data st)) by exact Hs.
  unfold set_downloads. f_equal.
  apply map_eq. intros k. unfold Storage.migrateVideos.
  rewrite map_lookup_imap.
  destruct (videos (Storage.data st) !! k) as [v|] eqn:Hv; [|done].
  simpl. f_equal. by apply Hk.
Qed.

(** ** Retries *)

Lemma update_first_Forall {A} (P : A → Prop) (p : A → bool) f l :
  (∀ x, find p l = Some x → P x → P (f x)) →
  Forall P l → Forall P (update_first p f l).
Proof.
  intros Hf H. induction H as [|x r Hx Hr IH]; simpl in *; [done|].
  destruct (p x) eqn:Hp; constructor; auto.
Qed.

Lemma mutate_bounded st m : bounded st → bounded (mutate st m).
Proof.
  unfold bounded. intros Hb. destruct m; simpl.
  - unfold Storage.addChannel. by destruct (find _ _).
  - unfold Storage.toggleChannel. by destruct (find _ _).
  - done.
  - unfold Storage.updateChannelLastCheck. by destruct (find _ _).
  - unfold Storage.addVideo. by destruct (_ !! _).
  - unfold Storage.createDownload. destruct (find _ _); [done|]. simpl.
    apply Forall_app. split; [done|]. constructor; [simpl; lia|constructor].
  - unfold Storage.updateDownloadStatus. destruct (find _ _); [|done]. simpl.
    apply update_first_Forall; [|done]. intros x _ Hx.
    by destruct (applyStatus_fields status p now x) as (_ & _ & _ & ->).
  - unfold Storage.retryFailedDownload.
    destruct (find _ _) as [download|] eqn:Hf; [|done].
    destruct (decide _) as [Hlt|]; [|done]. simpl.
    apply update_first_Forall; [|done]. intros x Hx _.
    rewrite Hf in Hx. injection Hx as <-. simpl. lia.
Qed.

(** ** Channels *)

Lemma filter_enabled_no_id (id : string) (l : list Channel.t) :
  (∀ ch, ch ∈ l → Channel.id ch ≠ id) →
  List.filter (λ ch, negb (Channel.id ch =? id))
              (List.filter (λ ch, Channel.enabled ch) l)
  = List.filter (λ ch, Channel.enabled ch) l.
Proof.
  induction l as [|c r IH]; intros H; simpl; [done|].
  assert ((Channel.id c =? id) = false) as Hc.
  { apply String.eqb_neq, H. left. }
  assert (∀ ch, ch ∈ r → Channel.id ch ≠ id) as Hr.
  { intros ch Hch. apply H. by right. }
  destruct (Channel.enabled c); simpl; rewrite ?Hc; simpl; rewrite IH; done.
Qed.

Lemma update_first_disable (id : string) (l : list Channel.t) :
  NoDup (Channel.id <$> l) →
  List.filter (λ ch, Channel.enabled ch)
    (update_first (λ ch, Channel.id ch =? id) (Channel.set_enabled false) l)
  = List.filter (λ ch, negb (Channel.id ch =? id))
                (List.filter (λ ch, Channel.enabled ch) l).
Proof.
  induction l as [|c r IH]; [done|].
  rewrite fmap_cons. intros [Hc Hr]%NoDup_cons. cbn [update_first].
  destruct (Channel.id c =? id) eqn:E.
  - apply String.eqb_eq in E. simpl.
    assert (∀ ch, ch ∈ r → Channel.id ch ≠ id) as Hno.
    { intros ch Hch Heq. apply Hc. rewrite E, <- Heq.
      by apply list_elem_of_fmap_2. }
    destruct (Channel.enabled c); simpl.
    + apply String.eqb_eq in E. rewrite E. simpl.
      symmetry. by apply filter_enabled_no_id.
    + symmetry. by apply filter_enabled_no_id.
  - simpl. destruct (Channel.enabled c); simpl; rewrite ?E; simpl;
      rewrite IH; done.
Qed.

(** X3. When the ids of the channels are distinct, disabling a channel takes
    exactly that channel off the list the scheduler monitors; the others
    stay, in their order. *)
Theorem toggleChannel_monitored id st :
  NoDup (Channel.id <$> channels (Storage.data st)) →
  Storage.getChannels true (Storage.toggleChannel id false st)
  = List.filter (λ ch, negb (Channel.id ch =? id))
                (Storage.getChannels true st).
Proof.
  intros Hnd. unfold Storage.toggleChannel, Storage.getChannels.
  destruct (find _ _) eqn:Hf; simpl.
  - by apply update_first_disable.
  - symmetry. apply filter_enabled_no_id. intros ch Hch Hid.
    destruct (find_is_Some (λ c, Channel.id c =? id) _ ch Hch) as [x Hx].
    { by apply String.eqb_eq. }
    congruence.
Qed.

Lemma toggleChannel_monitored_witness :
  NoDup (Channel.id <$> channels (Storage.data Sample.idle)) ∧
  Storage.getChannels true (Storage.toggleChannel "ch_1" false Sample.idle)
  = List.filter (λ ch, negb (Channel.id ch =? "ch_1"))
                (Storage.getChannels true Sample.idle).
Proof.
  assert (NoDup (Channel.id <$> channels (Storage.data Sample.idle))) as H.
  { vm_compute. apply NoDup_ListNoDup. repeat constructor; simpl; intuition congruence. }
  split; [exact H|]. exact (toggleChannel_monitored "ch_1" Sample.idle H).
Defined.

Lemma find_snoc {A} (p : A → bool) (l : list A) (x : A) :
  find p l = None → p x = true → find p (l ++ [x]) = Some x.
Proof.
  intros Hl Hx. induction l as [|y r IH]; simpl in *; [by rewrite Hx|].
  destruct (p y); [done|]. by apply IH.
Qed.

(** X4. Registering the same url twice registers one channel: the second call
    returns the id of the first and changes nothing, whatever name and time
    it is given. *)
Theorem addChannel_twice url name1 now1 name2 now2 st :
  let r := Storage.addChannel url name1 now1 st in
  Storage.addChannel url name2 now2 r.2 = r.
Proof.
  intros r. subst r. unfold Storage.addChannel at 2 3.
  destruct (find _ (channels (Storage.data st))) as [existing|] eqn:Hf; simpl.
  - unfold Storage.addChannel. by rewrite Hf.
  - unfold Storage.addChannel. simpl.
    erewrite find_snoc; [done|exact Hf|]. simpl. apply String.eqb_refl.
Qed.

Lemma find_none_forall {A} (p : A → bool) (l : list A) :
  (∀ x, x ∈ l → p x = false) → find p l = None.
Proof.
  induction l as [|x r IH]; intros H; simpl; [done|].
  rewrite (H x) by left. apply IH. intros y Hy. apply H. by right.
Qed.

Lemma find_filter_out (id : string) (l : list Channel.t) :
  find (λ ch, Channel.id ch =? id)
       (List.filter (λ ch, negb (Channel.id ch =? id)) l) = None.
Proof.
  apply find_none_forall. intros ch Hch.
  apply list_elem_of_In, filter_In in Hch as [_ Hch].
  by apply negb_true_iff in Hch.
Qed.

(** X5. [removeChannel] forgets the channel and nothing else: afterwards no
    channel has the id (all of them go, not only the first), so that a
    later [toggleChannel] or [updateChannelLastCheck] on the id leaves the
    store as it is, file included; the videos and the tasks of the channel
    stay in the store. *)
Theorem removeChannel_forgets_channel_only id enabled now st :
  let st' := Storage.removeChannel id st in
  (∀ ch, ch ∈ Storage.getChannels false st' → Channel.id ch ≠ id) ∧
  Storage.toggleChannel id enabled st' = st' ∧
  Storage.updateChannelLastCheck id now st' = st' ∧
  videos (Storage.data st') = videos (Storage.data st) ∧
  downloads (Storage.data st') = downloads (Storage.data st).
Proof.
  intros st'. subst st'. split; [|split; [|split; [|done]]].
  - intros ch Hch. simpl in Hch.
    apply list_elem_of_In, filter_In in Hch as [_ Hch].
    by apply negb_true_iff, String.eqb_neq in Hch.
  - unfold Storage.toggleChannel.
    unfold Storage.removeChannel at 1. rewrite save_data. simpl.
    by rewrite find_filter_out.
  - unfold Storage.updateChannelLastCheck.
    unfold Storage.removeChannel at 1. rewrite save_data. simpl.
    by rewrite find_filter_out.
Qed.

(** ** Cleanup *)

Section Positions.
Context {A : Type}.
Implicit Types (f : A → bool) (l : list A).

Lemma elem_of_positions f l : ∀ i j,
  j ∈ positions f l i ↔
  (i ≤ j)%nat ∧ ∃ x, l !! (j - i)%nat = Some x ∧ f x = true.
Proof.
  induction l as [|y r IH]; intros i j; simpl.
  - split; [by intros ?%elem_of_nil | by intros (_ & x & ? & _)].
  - assert (j ∈ positions f r (S i) ↔
            (i < j)%nat ∧ ∃ x, (y :: r) !! (j - i)%nat = Some x ∧ f x = true)
      as Hr.
    { rewrite IH. split.
      - intros (Hle & x & Hx & Hf). split; [lia|]. exists x. split; [|done].
        replace (j - i)%nat with (S (j - S i)) by lia. done.
      - intros (Hlt & x & Hx & Hf). split; [lia|]. exists x. split; [|done].
        replace (j - i)%nat with (S (j - S i)) in Hx by lia. done. }
    destruct (f y) eqn:Hy.
    + rewrite elem_of_cons, Hr. split.
      * intros [->|(Hlt & H)].
        -- split; [lia|]. exists y. by rewrite Nat.sub_diag.
        -- split; [lia|done].
      * intros (Hle & x & Hx & Hf).
        destruct (decide (j = i)) as [->|Hne]; [by left|].
        right. split; [lia|]. by exists x.
    + rewrite Hr. split.
      * intros (Hlt & H). split; [lia|done].
      * intros (Hle & x & Hx & Hf).
        destruct (decide (j = i)) as [->|Hne].
        -- rewrite Nat.sub_diag in Hx. simpl in Hx. congruence.
        -- split; [lia|]. by exists x.
Qed.

Lemma NoDup_positions f l : ∀ i, NoDup (positions f l i).
Proof.
  induction l as [|y r IH]; intros i; simpl; [constructor|].
  destruct (f y); [|apply IH].
  constructor; [|apply IH].
  rewrite elem_of_positions. intros [? _]. lia.
Qed.

Lemma elem_of_positions_0 f l j :
  j ∈ positions f l 0 ↔ ∃ x, l !! j = Some x ∧ f x = true.
Proof.
  rewrite elem_of_positions, Nat.sub_0_r. split; [by intros [_ ?]|].
  intros H. split; [lia|done].
Qed.

End Positions.

(** The objects [getOldDownloads] returns are those at the positions
    [oldRefs]. *)
Lemma getOldDownloads_refs cutoffDate st dl :
  dl ∈ Storage.getOldDownloads cutoffDate st ↔
  ∃ j, j ∈ CleanupService.oldRefs cutoffDate st ∧
       downloads (Storage.data st) !! j = Some dl.
Proof.
  unfold Storage.getOldDownloads, CleanupService.oldRefs.
  rewrite list_elem_of_In, filter_In, <- list_elem_of_In, list_elem_of_lookup.
  split.
  - intros [[j Hj] Hold]. exists j. split; [|done].
    apply elem_of_positions_0. eauto.
  - intros (j & Hj & Hl). apply elem_of_positions_0 in Hj as (x & Hx & Hf).
    split; [eauto|congruence].
Qed.

Lemma update_first_insert {A} (g : A → string) (f : A → A) (l : list A) :
  NoDup (g <$> l) → ∀ i x, l !! i = Some x →
  update_first (λ y, g y =? g x) f l = <[i := f x]> l.
Proof.
  induction l as [|y r IH]; [done|]. rewrite fmap_cons.
  intros [Hy Hr]%NoDup_cons [|i] x; simpl.
  - intros [= ->]. by rewrite String.eqb_refl.
  - intros Hx. destruct (g y =? g x) eqn:E.
    + exfalso. apply String.eqb_eq in E. apply Hy. rewrite E.
      apply list_elem_of_fmap_2. by eapply list_elem_of_lookup_2.
    + f_equal. by apply IH.
Qed.

Lemma replaceMp4_nonempty ext p :
  ext ≠ "" → p ≠ "" → CleanupService.replaceMp4 ext p ≠ "".
Proof.
  intros Hext Hp. destruct p as [|a r]; [done|].
  cbn [CleanupService.replaceMp4]. by destruct (_ =? _).
Qed.

Lemma unlinkIfExists_disk stat p acc :
  (CleanupService.unlinkIfExists stat p acc).2.2 = delete p acc.2.
Proof.
  unfold CleanupService.unlinkIfExists, Fs.existsSync.
  destruct (bool_decide _) eqn:E; simpl; [done|].
  apply bool_decide_eq_false in E. symmetry. apply delete_id.
  by apply eq_None_not_Some.
Qed.

(** The disk [_deleteDownloadFiles] leaves: the paths of the task are gone,
    nothing else has changed. *)
Lemma deleteDownloadFiles_disk stat dl disk :
  (CleanupService._deleteDownloadFiles stat dl disk).2
  = foldl (λ d p, delete p d) disk (pathsOf dl).
Proof.
  unfold CleanupService._deleteDownloadFiles, pathsOf.
  destruct (Download.filePath dl) as [p|]; [|done].
  destruct (p =? "") eqn:E; [done|].
  assert (p ≠ "") as Hp by by apply String.eqb_neq.
  unfold CleanupService._getThumbnailPath. rewrite E.
  assert ((CleanupService.replaceMp4 ".jpg" p =? "") = false) as ->.
  { by apply String.eqb_neq, replaceMp4_nonempty. }
  pose proof (unlinkIfExists_disk stat p (0%N, disk)) as H1.
  destruct (CleanupService.unlinkIfExists stat p (0%N, disk)) as [d1 acc1].
  pose proof (unlinkIfExists_disk stat (CleanupService.replaceMp4 ".jpg" p) acc1)
    as H2.
  destruct (CleanupService.unlinkIfExists stat _ acc1) as [d2 acc2].
  cbn [foldl snd fst] in *.
  rewrite !unlinkIfExists_disk. by rewrite H2, H1.
Qed.

Lemma foldl_delete_lookup (ps : list string) : ∀ (disk : gmap string Content) q,
  foldl (λ d p, delete p d) disk ps !! q
  = if bool_decide (q ∈ ps) then None else disk !! q.
Proof.
  induction ps as [|p ps IH]; intros disk q; simpl; [done|].
  rewrite IH. destruct (decide (q = p)) as [->|Hne].
  - rewrite lookup_delete_eq. rewrite (bool_decide_eq_true_2 (p ∈ p :: ps)).
    + by destruct (bool_decide _).
    + left.
  - rewrite lookup_delete_ne by done.
    destruct (bool_decide (q ∈ ps)) eqn:E.
    + apply bool_decide_eq_true in E. rewrite bool_decide_eq_true_2; [done|].
      by right.
    + apply bool_decide_eq_false in E. rewrite bool_decide_eq_false_2; [done|].
      by intros [?|?]%elem_of_cons.
Qed.

Lemma cleaned_fields now dl :
  Download.status dl = completed →
  cleaned now dl
  = Download.set_completedAt (Some now) (Download.set_filePath None dl).
Proof. intros H. destruct dl. simpl in H. by subst. Qed.

Lemma cleaned_not_old cutoffDate now dl :
  Storage.isOld cutoffDate (cleaned now dl) = false.
Proof.
  unfold Storage.isOld, cleaned, Storage.applyStatus. simpl. done.
Qed.

(** One turn of the loop, when the ids of the tasks are distinct: the files
    of the task are deleted, and either none was found and the store is
    left alone, or the task at hand is updated and the store saved. *)
Lemma cleanupTurn_cases stat clock c st i dl :
  NoDup (Download.id <$> downloads (Storage.data st)) →
  downloads (Storage.data st) !! i = Some dl →
  let st' := (CleanupService.cleanupTurn stat clock (c, st) i).2 in
  let st1 :=
    Storage.set_fs (foldl (λ d p, delete p d) (Storage.fs st) (pathsOf dl)) st in
  st' = st1 ∨
  st' = Storage.save
          (Storage.map_data
             (λ d, set_downloads (<[i := cleaned (clock i) dl]> (downloads d)) d)
             st1).
Proof.
  intros Hnd Hi st' st1. subst st' st1. unfold CleanupService.cleanupTurn.
  rewrite Hi. rewrite <- (deleteDownloadFiles_disk stat).
  destruct (CleanupService._deleteDownloadFiles stat dl (Storage.fs st))
    as [deleted disk].
  cbn [snd]. destruct (CleanupService.success deleted); [|by left].
  right.
  assert (∀ (x y : CleanupService.Counters) (b : option (option string))
            (z : Storage.t),
            (match b with Some (Some _) => (x, z) | _ => (y, z) end).2 = z)
    as Hsnd by (by intros x y [[?|]|] z).
  rewrite Hsnd. unfold Storage.updateDownloadStatus.
  destruct (find _ _) eqn:Hf.
  - unfold Storage.map_data. simpl. do 3 f_equal.
    apply (update_first_insert Download.id); done.
  - exfalso.
    destruct (find_is_Some (λ d, Download.id d =? Download.id dl)
                (downloads (Storage.data st)) dl) as [x Hx].
    + by eapply list_elem_of_lookup_2.
    + apply String.eqb_refl.
    + simpl in Hf. congruence.
Qed.

Lemma swept_start clock st0 : swept clock st0 [] st0.
Proof.
  split; try done.
  - by intros j dl0 ?%elem_of_nil.
  - by intros j dl0 p ?%elem_of_nil.
  - intros q _. by right.
Qed.

Lemma swept_equiv clock st0 seen seen' st :
  (∀ j, j ∈ seen ↔ j ∈ seen') →
  swept clock st0 seen st → swept clock st0 seen' st.
Proof.
  intros He [H1 H2 H3 H4 H5 H6 H7]. split; try done.
  - intros j Hj. apply H3. by rewrite He.
  - intros j dl0 Hj. apply H4. by rewrite He.
  - intros j dl0 p Hj. eapply H5. by rewrite He.
  - intros q Hq Ht Hp. apply H7; [done|done|].
    intros j dl0 Hj. apply Hp. by rewrite <- He.
Qed.

(** The files of the task at position [i] are deleted. *)
Lemma swept_delete clock st0 seen st i dl0 :
  swept clock st0 seen st → i ∉ seen →
  downloads (Storage.data st0) !! i = Some dl0 →
  swept clock st0 (i :: seen)
    (Storage.set_fs
       (foldl (λ d p, delete p d) (Storage.fs st) (pathsOf dl0)) st).
Proof.
  intros [H1 H2 H3 H4 H5 H6 H7] Hi Hdl. split; simpl; try done.
  - intros j Hj. apply H3. intros ?. apply Hj. by right.
  - intros j dl Hj Hl. apply elem_of_cons in Hj as [->|Hj]; [|by apply H4].
    left. rewrite H3 by done. done.
  - intros j dl p Hj Hl Hp Hne Hpath. rewrite foldl_delete_lookup.
    destruct (bool_decide _) eqn:E; [done|].
    apply elem_of_cons in Hj as [->|Hj]; [|by eapply H5].
    apply bool_decide_eq_false in E. exfalso. apply E.
    rewrite Hdl in Hl. injection Hl as ->. unfold pathsOf. rewrite Hp.
    apply String.eqb_neq in Hne. rewrite Hne. left.
  - intros q Hq. rewrite foldl_delete_lookup.
    destruct (bool_decide _); [by left|by apply H6].
  - intros q Hq Ht Hp. rewrite foldl_delete_lookup.
    rewrite bool_decide_eq_false_2.
    + apply H7; [done|done|]. intros j dl Hj. apply Hp. by right.
    + apply (Hp i dl0); [left|done].
Qed.

(** The task at a position seen is updated and the store saved. *)
Lemma swept_update clock st0 seen st i dl0 :
  swept clock st0 seen st → i ∈ seen →
  downloads (Storage.data st0) !! i = Some dl0 →
  downloads (Storage.data st) !! i = Some dl0 →
  swept clock st0 seen
    (Storage.save
       (Storage.map_data
          (λ d, set_downloads (<[i := cleaned (clock i) dl0]> (downloads d)) d)
          st)).
Proof.
  intros [H1 H2 H3 H4 H5 H6 H7] Hi Hdl0 Hdl.
  set (st1 := Storage.map_data _ st).
  assert (Storage.filePath st1 = Storage.filePath st0) as Hp1 by done.
  assert (∀ q, q ≠ Storage.filePath st0 →
            Storage.fs (Storage.save st1) !! q = None ∨
            Storage.fs (Storage.save st1) !! q = Storage.fs st !! q) as Hfs.
  { intros q Hq.
    destruct (decide (q = Storage.filePath st1 +:+ ".tmp")) as [->|Ht].
    - left. apply save_lookup_tmp.
    - right. rewrite save_lookup_other; [done|by rewrite Hp1|done]. }
  split.
  - by rewrite save_filePath.
  - rewrite save_data. simpl. rewrite list_fmap_insert.
    unfold cleaned. rewrite applyStatus_id.
    rewrite list_insert_id; [done|].
    by rewrite list_lookup_fmap, Hdl.
  - intros j Hj. rewrite save_data. simpl.
    rewrite list_lookup_insert_ne; [by apply H3|]. by intros ->.
  - intros j dl Hj Hl. rewrite save_data. simpl.
    destruct (decide (j = i)) as [->|Hne].
    + right. rewrite Hdl0 in Hl. injection Hl as ->.
      apply list_lookup_insert_eq. by eapply lookup_lt_Some.
    + rewrite list_lookup_insert_ne by done. by apply H4.
  - intros j dl p Hj Hl Hp Hne Hpath.
    destruct (Hfs p Hpath) as [->| ->]; [done|]. by eapply H5.
  - intros q Hq. destruct (Hfs q Hq) as [->| ->]; [by left|by apply H6].
  - intros q Hq Ht Hp. rewrite save_lookup_other.
    + by apply H7.
    + by rewrite Hp1.
    + by rewrite Hp1.
Qed.

Lemma swept_turn stat clock c st0 seen st i dl0 :
  NoDup (Download.id <$> downloads (Storage.data st0)) →
  swept clock st0 seen st → i ∉ seen →
  downloads (Storage.data st0) !! i = Some dl0 →
  swept clock st0 (i :: seen)
    (CleanupService.cleanupTurn stat clock (c, st) i).2.
Proof.
  intros Hnd Hsw Hi Hdl0.
  assert (downloads (Storage.data st) !! i = Some dl0) as Hdl.
  { by rewrite (sw_todo _ _ _ _ Hsw i Hi). }
  pose proof (swept_delete _ _ _ _ _ _ Hsw Hi Hdl0) as Hd.
  destruct (cleanupTurn_cases stat clock c st i dl0) as [-> | ->];
    [by rewrite (sw_ids _ _ _ _ Hsw)|done|done|].
  apply swept_update; [done|left|done|done].
Qed.

Lemma swept_fold stat clock st0 :
  NoDup (Download.id <$> downloads (Storage.data st0)) →
  ∀ refs seen c st,
    swept clock st0 seen st → NoDup refs →
    (∀ i, i ∈ refs →
          (i ∉ seen) ∧ is_Some (downloads (Storage.data st0) !! i)) →
    swept clock st0 (rev refs ++ seen)
      (foldl (CleanupService.cleanupTurn stat clock) (c, st) refs).2.
Proof.
  intros Hnd refs. induction refs as [|i refs IH]; intros seen c st Hsw Hr Hin;
    [done|].
  apply NoDup_cons in Hr as [Hi Hr].
  destruct (Hin i) as [Hs [dl0 Hdl0]]; [left|].
  pose proof (swept_turn stat clock c st0 seen st i dl0 Hnd Hsw Hs Hdl0) as H1.
  cbn [foldl rev].
  destruct (CleanupService.cleanupTurn stat clock (c, st) i) as [c1 st1].
  rewrite <- app_assoc. cbn [app snd] in *. apply IH; [done|done|].
  intros j Hj. destruct (Hin j) as [Hjs Hjl]; [by right|]. split; [|done].
  intros [->|?]%elem_of_cons; done.
Qed.

(** Where [cleanupNow] ends. *)
Lemma cleanupNow_swept stat calendar clock s :
  NoDup (Download.id <$> downloads
           (Storage.data (CleanupService.storage s))) →
  swept clock (CleanupService.storage s)
    (CleanupService.oldRefs
       (calendar (CleanupService.retentionDays (CleanupService.config s)))
       (CleanupService.storage s))
    (CleanupService.storage
       (CleanupService.cleanupNow stat calendar clock s).2).
Proof.
  intros Hnd. unfold CleanupService.cleanupNow.
  set (refs := CleanupService.oldRefs _ _).
  pose proof (swept_fold stat clock _ Hnd refs [] (CleanupService.mkCounters 0 0 0)
                (CleanupService.storage s) (swept_start _ _)) as H.
  destruct refs as [|i rest] eqn:E; [apply swept_start|].
  rewrite <- E in *.
  destruct (foldl _ _ refs) as [c st]. cbn [snd CleanupService.set_storage
    CleanupService.storage] in *.
  eapply swept_equiv; [|apply H].
  - intros j. rewrite app_nil_r, !list_elem_of_In. symmetry. apply in_rev.
  - apply NoDup_positions.
  - intros j Hj. split; [by intros ?%elem_of_nil|].
    apply elem_of_positions_0 in Hj as (x & Hx & _). eauto.
Qed.

Lemma updateDownloadStatus_frame id status p now st :
  let st' := Storage.updateDownloadStatus id status p now st in
  channels (Storage.data st') = channels (Storage.data st) ∧
  videos (Storage.data st') = videos (Storage.data st) ∧
  Download.videoId <$> downloads (Storage.data st')
  = Download.videoId <$> downloads (Storage.data st).
Proof.
  unfold Storage.updateDownloadStatus. destruct (find _ _); [|done]. simpl.
  split; [done|]. split; [done|]. apply update_first_fmap. intros x.
  by destruct (applyStatus_fields status p now x) as (_ & -> & _).
Qed.

Lemma cleanupTurn_records stat clock acc i :
  let st := acc.2 in
  let st' := (CleanupService.cleanupTurn stat clock acc i).2 in
  channels (Storage.data st') = channels (Storage.data st) ∧
  videos (Storage.data st') = videos (Storage.data st) ∧
  Download.id <$> downloads (Storage.data st')
  = Download.id <$> downloads (Storage.data st) ∧
  Download.videoId <$> downloads (Storage.data st')
  = Download.videoId <$> downloads (Storage.data st).
Proof.
  destruct acc as [c st]. unfold CleanupService.cleanupTurn. cbn [snd].
  destruct (downloads (Storage.data st) !! i) as [dl|]; [|done].
  destruct (CleanupService._deleteDownloadFiles stat dl (Storage.fs st))
    as [deleted disk].
  destruct (CleanupService.success deleted); [|done].
  set (st2 := Storage.updateDownloadStatus _ _ _ _ _).
  assert ((match Download.filePath <$> downloads (Storage.data st2) !! i with
           | Some (Some _) =>
               (CleanupService.mkCounters
                  (S (CleanupService.deletedCount c))
                  (CleanupService.errorCount c)
                  (CleanupService.totalSize c + CleanupService.size deleted)%N,
                st2)
           | _ =>
               (CleanupService.failedOne
                  (CleanupService.mkCounters
                     (S (CleanupService.deletedCount c))
                     (CleanupService.errorCount c)
                     (CleanupService.totalSize c
                      + CleanupService.size deleted)%N),
                st2)
           end).2 = st2) as ->.
  { by destruct (Download.filePath <$> _) as [[?|]|]. }
  subst st2.
  destruct (updateDownloadStatus_frame (Download.id dl) completed
              (Storage.mkPatch (Some None) None None) (clock i)
              (Storage.set_fs disk st)) as (H1 & H2 & H3).
  rewrite updateDownloadStatus_ids. done.
Qed.

Lemma cleanupNow_records stat calendar clock s :
  let st := CleanupService.storage s in
  let st' :=
    CleanupService.storage (CleanupService.cleanupNow stat calendar clock s).2 in
  channels (Storage.data st') = channels (Storage.data st) ∧
  videos (Storage.data st') = videos (Storage.data st) ∧
  Download.id <$> downloads (Storage.data st')
  = Download.id <$> downloads (Storage.data st) ∧
  Download.videoId <$> downloads (Storage.data st')
  = Download.videoId <$> downloads (Storage.data st).
Proof.
  intros st st'. subst st st'. unfold CleanupService.cleanupNow.
  destruct (CleanupService.oldRefs _ _) as [|i refs] eqn:E; [done|].
  rewrite <- E. clear E.
  pose proof (foldl_invariant (CleanupService.cleanupTurn stat clock)
    (λ acc,
       channels (Storage.data acc.2)
         = channels (Storage.data (CleanupService.storage s)) ∧
       videos (Storage.data acc.2)
         = videos (Storage.data (CleanupService.storage s)) ∧
       Download.id <$> downloads (Storage.data acc.2)
         = Download.id <$> downloads (Storage.data (CleanupService.storage s)) ∧
       Download.videoId <$> downloads (Storage.data acc.2)
         = Download.videoId <$>
             downloads (Storage.data (CleanupService.storage s)))) as H.
  cbn beta in H.
  specialize (H (λ acc j Hacc,
    let '(conj A1 (conj A2 (conj A3 A4))) := Hacc in
    let '(conj B1 (conj B2 (conj B3 B4))) :=
      cleanupTurn_records stat clock acc j in
    conj (eq_trans B1 A1)
      (conj (eq_trans B2 A2) (conj (eq_trans B3 A3) (eq_trans B4 A4))))).
  specialize (H (CleanupService.oldRefs
                   (calendar (CleanupService.retentionDays
                                (CleanupService.config s)))
                   (CleanupService.storage s))
                (CleanupService.mkCounters 0 0 0, CleanupService.storage s)).
  destruct (foldl _ _ _) as [c st]. apply H. done.
Qed.

(** X6. [cleanupNow] deletes files, not records: the channels and the videos
    are as they were, and the tasks are the same tasks of the same videos,
    in the same order.  A video whose file has been cleaned away is still
    known to [videoExists], so the scheduler does not fetch it again. *)
Theorem cleanupNow_keeps_records stat calendar clock s :
  let st := CleanupService.storage s in
  let st' :=
    CleanupService.storage (CleanupService.cleanupNow stat calendar clock s).2 in
  channels (Storage.data st') = channels (Storage.data st) ∧
  videos (Storage.data st') = videos (Storage.data st) ∧
  (∀ k, Storage.videoExists k st' = Storage.videoExists k st) ∧
  Download.id <$> downloads (Storage.data st')
  = Download.id <$> downloads (Storage.data st) ∧
  Download.videoId <$> downloads (Storage.data st')
  = Download.videoId <$> downloads (Storage.data st).
Proof.
  intros st st'.
  destruct (cleanupNow_records stat calendar clock s) as (H1 & H2 & H3 & H4).
  split; [done|]. split; [done|]. split; [|done].
  intros k. unfold Storage.videoExists. subst st st'. by rewrite H2.
Qed.

Lemma filter_nil_forall {A} (f : A → bool) (l : list A) :
  (∀ x, x ∈ l → f x = false) → List.filter f l = [].
Proof.
  induction l as [|x r IH]; intros H; simpl; [done|].
  rewrite (H x) by left. apply IH. intros y Hy. apply H. by right.
Qed.

Lemma isOld_inv cutoffDate dl :
  Storage.isOld cutoffDate dl = true →
  Download.status dl = completed ∧
  ∃ p, Download.filePath dl = Some p ∧ p ≠ "".
Proof.
  unfold Storage.isOld.
  destruct (Download.status dl); try done.
  destruct (Download.completedAt dl); [|done].
  destruct (Download.filePath dl) as [p|]; [|done].
  intros [Hp _]%andb_true_iff. split; [done|]. exists p. split; [done|].
  apply String.eqb_neq. by destruct (p =? "").
Qed.

(** X7. When the ids of the tasks are distinct, [cleanupNow] changes a task
    only if [getOldDownloads] returns it, and then in two fields: the file
    path is cleared, and [completedAt] becomes the time of the cleanup. *)
Theorem cleanupNow_touches_old_tasks_only stat calendar clock s j dl :
  NoDup (Download.id <$> downloads
           (Storage.data (CleanupService.storage s))) →
  downloads (Storage.data (CleanupService.storage s)) !! j = Some dl →
  let s' := (CleanupService.cleanupNow stat calendar clock s).2 in
  let cutoffDate :=
    calendar (CleanupService.retentionDays (CleanupService.config s)) in
  downloads (Storage.data (CleanupService.storage s')) !! j = Some dl ∨
  (dl ∈ Storage.getOldDownloads cutoffDate (CleanupService.storage s) ∧
   downloads (Storage.data (CleanupService.storage s')) !! j
   = Some (Download.set_completedAt (Some (clock j))
             (Download.set_filePath None dl))).
Proof.
  intros Hnd Hj s' cutoffDate. subst s'.
  pose proof (cleanupNow_swept stat calendar clock s Hnd) as Hsw.
  fold cutoffDate in Hsw.
  destruct (decide (j ∈ CleanupService.oldRefs cutoffDate
                          (CleanupService.storage s))) as [Hin|Hout].
  - destruct (sw_seen _ _ _ _ Hsw j dl Hin Hj) as [H|H]; [by left|].
    right. split.
    + apply getOldDownloads_refs. eauto.
    + rewrite H. f_equal. apply cleaned_fields.
      apply elem_of_positions_0 in Hin as (x & Hx & Hold).
      rewrite Hj in Hx. injection Hx as <-.
      by apply isOld_inv in Hold as [? _].
  - left. rewrite (sw_todo _ _ _ _ Hsw j Hout). done.
Qed.

Lemma cleanupNow_touches_old_tasks_only_witness :
  let s := SampleCleanup.service in
  let s' :=
    (CleanupService.cleanupNow SampleCleanup.stat SampleCleanup.calendar
       SampleCleanup.clock s).2 in
  NoDup (Download.id <$> downloads (Storage.data (CleanupService.storage s))) ∧
  downloads (Storage.data (CleanupService.storage s')) !! 0
    = Some (Download.set_completedAt (Some 1000%N)
              (Download.set_filePath None SampleCleanup.oldTask)) ∧
  downloads (Storage.data (CleanupService.storage s')) !! 1
    = Some SampleCleanup.newTask.
Proof.
  intros s s'.
  assert (NoDup (Download.id <$> downloads
                   (Storage.data (CleanupService.storage s)))) as Hnd.
  { apply NoDup_ListNoDup. vm_compute.
    repeat constructor; simpl; intuition congruence. }
  split; [exact Hnd|]. split.
  - destruct (cleanupNow_touches_old_tasks_only SampleCleanup.stat
                SampleCleanup.calendar SampleCleanup.clock s 0
                SampleCleanup.oldTask Hnd eq_refl) as [H|[_ H]].
    + vm_compute in H. discriminate H.
    + exact H.
  - destruct (cleanupNow_touches_old_tasks_only SampleCleanup.stat
                SampleCleanup.calendar SampleCleanup.clock s 1
                SampleCleanup.newTask Hnd eq_refl) as [H|[_ H]].
    + exact H.
    + vm_compute in H. discriminate H.
Defined.



(** X9. When the ids of the tasks are distinct and no task has the file of the
    store as its file, [cleanupNow] leaves nothing for a second run:
    [getStats()] counts no old file afterwards. *)
Theorem cleanupNow_leaves_no_old_file stat calendar clock s :
  NoDup (Download.id <$> downloads
           (Storage.data (CleanupService.storage s))) →
  (∀ dl, dl ∈ downloads (Storage.data (CleanupService.storage s)) →
         Download.filePath dl
         ≠ Some (Storage.filePath (CleanupService.storage s))) →
  CleanupService.cs_oldFileCount
    (CleanupService.getStats stat calendar
       (CleanupService.cleanupNow stat calendar clock s).2) = 0.
Proof.
  intros Hnd Hpath.
  pose proof (cleanupNow_swept stat calendar clock s Hnd) as Hsw.
  unfold CleanupService.getStats. cbn [CleanupService.cs_oldFileCount].
  assert (CleanupService.config
            (CleanupService.cleanupNow stat calendar clock s).2
          = CleanupService.config s) as ->.
  { unfold CleanupService.cleanupNow.
    destruct (CleanupService.oldRefs _ _); [done|].
    by destruct (foldl _ _ _). }
  set (cutoffDate := calendar _) in *.
  set (st' := CleanupService.storage
                (CleanupService.cleanupNow stat calendar clock s).2) in *.
  rewrite filter_nil_forall; [done|].
  intros dl' Hdl'.
  unfold Storage.getOldDownloads in Hdl'.
  apply list_elem_of_In, filter_In in Hdl' as [Hin Hold].
  apply list_elem_of_In, list_elem_of_lookup in Hin as [j Hj].
  assert (is_Some (downloads (Storage.data (CleanupService.storage s)) !! j))
    as [dl0 Hdl0].
  { apply lookup_lt_is_Some.
    rewrite <- (length_fmap Download.id), <- (sw_ids _ _ _ _ Hsw),
      length_fmap.
    by eapply lookup_lt_Some. }
  destruct (decide (j ∈ CleanupService.oldRefs cutoffDate
                          (CleanupService.storage s))) as [Href|Href].
  - destruct (sw_seen _ _ _ _ Hsw j dl0 Href Hdl0) as [H|H];
      rewrite Hj in H; injection H as ->.
    + destruct (isOld_inv _ _ Hold) as (_ & p & Hp & Hne).
      unfold CleanupService.hasFile, Fs.existsSync. rewrite Hp.
      rewrite (sw_gone _ _ _ _ Hsw j dl0 p Href Hdl0 Hp Hne).
      * rewrite bool_decide_eq_false_2; [apply andb_false_r|].
        by intros [? ?].
      * intros ->. apply (Hpath dl0); [|done].
        by eapply list_elem_of_lookup_2.
    + by rewrite cleaned_not_old in Hold.
  - exfalso. apply Href. apply elem_of_positions_0.
    exists dl'. split; [|done].
    by rewrite <- (sw_todo _ _ _ _ Hsw j Href).
Qed.

Lemma cleanupNow_leaves_no_old_file_witness :
  let s := SampleCleanup.service in
  CleanupService.cs_oldFileCount
    (CleanupService.getStats SampleCleanup.stat SampleCleanup.calendar s) = 1 ∧
  CleanupService.cs_oldFileCount
    (CleanupService.getStats SampleCleanup.stat SampleCleanup.calendar
       (CleanupService.cleanupNow SampleCleanup.stat SampleCleanup.calendar
          SampleCleanup.clock s).2) = 0.
Proof.
  intros s. split; [reflexivity|].
  apply cleanupNow_leaves_no_old_file.
  - apply NoDup_ListNoDup. vm_compute.
    repeat constructor; simpl; intuition congruence.
  - intros dl Hdl. apply list_elem_of_In in Hdl. vm_compute in Hdl.
    destruct Hdl as [<-|[<-|[]]]; vm_compute; discriminate.
Defined.

(** ** The queue: its loop, its order, its stop *)

(** What [_handleFailure], [_downloadNext] and the end of a download leave
    alone. *)
Lemma handleFailure_loop downloadId videoId msg now q :
  let q' := DownloadQueue._handleFailure downloadId videoId msg now q in
  DownloadQueue.isRunning q' = DownloadQueue.isRunning q ∧
  DownloadQueue.isStopping q' = DownloadQueue.isStopping q ∧
  DownloadQueue.callbacks q' = DownloadQueue.callbacks q ∧
  DownloadQueue.executions q' = DownloadQueue.executions q.
Proof.
  unfold DownloadQueue._handleFailure.
  destruct (find _ _); [|done]. destruct (decide _); done.
Qed.

Lemma downloadNext_loop download now proc q :
  let q' := DownloadQueue._downloadNext download now proc q in
  DownloadQueue.isRunning q' = DownloadQueue.isRunning q ∧
  DownloadQueue.isStopping q' = DownloadQueue.isStopping q ∧
  DownloadQueue.callbacks q' = DownloadQueue.callbacks q.
Proof.
  unfold DownloadQueue._downloadNext. destruct (Storage.getVideo _ _); done.
Qed.

Lemma settled_loop e exit filePath now q :
  let q' := DownloadQueue._downloadNext_settled e exit filePath now q in
  DownloadQueue.isRunning q' = DownloadQueue.isRunning q ∧
  DownloadQueue.isStopping q' = DownloadQueue.isStopping q ∧
  DownloadQueue.callbacks q' = DownloadQueue.callbacks q ∧
  DownloadQueue.executions q' = DownloadQueue.executions q.
Proof.
  unfold DownloadQueue._downloadNext_settled. destruct exit; [done|].
  simpl. apply handleFailure_loop.
Qed.

Lemma enqueue_loop videoId quality now rnd q :
  let q' := (DownloadQueue.enqueue videoId quality now rnd q).2 in
  DownloadQueue.isRunning q' = DownloadQueue.isRunning q ∧
  DownloadQueue.isStopping q' = DownloadQueue.isStopping q ∧
  (DownloadQueue.callbacks q ≤ DownloadQueue.callbacks q')%nat ∧
  (DownloadQueue.isRunning q = false →
   DownloadQueue.callbacks q' = DownloadQueue.callbacks q) ∧
  DownloadQueue.executions q' = DownloadQueue.executions q.
Proof.
  unfold DownloadQueue.enqueue.
  destruct (Storage.createDownload _ _ _ _ _) as [downloadId st]. simpl.
  destruct (DownloadQueue.isRunning q) eqn:Hr; simpl.
  - destruct (bool_decide _); simpl; rewrite ?Hr; repeat split; (done || lia).
  - rewrite Hr. repeat split; (done || lia).
Qed.

Lemma processQueue_awake now proc q :
  DownloadQueue.isRunning q = true → DownloadQueue.isStopping q = false →
  let q' := DownloadQueue._processQueue now proc q in
  DownloadQueue.isRunning q' = true ∧ DownloadQueue.isStopping q' = false ∧
  DownloadQueue.callbacks q' = S (DownloadQueue.callbacks q).
Proof.
  intros Hr Hs. unfold DownloadQueue._processQueue. rewrite Hr, Hs. simpl.
  destruct (decide _); [done|].
  destruct (Storage.getPendingDownloads _ _) as [|download rest]; [done|].
  simpl. destruct (downloadNext_loop download now proc q) as (-> & -> & ->).
  done.
Qed.

Lemma step_awake q ev : awake q → awake (DownloadQueue.step q ev).
Proof.
  unfold awake. intros Hq.
  destruct ev as [videoId quality now rnd|now proc| |now proc|n exit fp now|id];
    simpl.
  - destruct (enqueue_loop videoId quality now rnd q) as (-> & -> & Hc & _).
    intros Hr. destruct (Hq Hr). split; [done|lia].
  - unfold DownloadQueue.start.
    destruct (DownloadQueue.isRunning q) eqn:Hr; [by intros _; apply Hq|].
    intros _.
    destruct (processQueue_awake now proc (DownloadQueue.set_flags true false q))
      as (_ & -> & ->); [done|done|]. split; [done|lia].
  - done.
  - destruct (DownloadQueue.callbacks q) as [|n] eqn:Hc;
      [intros Hr; destruct (Hq Hr); lia|].
    destruct (DownloadQueue.isRunning q) eqn:Hr.
    + destruct (Hq eq_refl) as [Hs _]. intros _.
      destruct (processQueue_awake now proc (DownloadQueue.set_callbacks n q))
        as (_ & -> & ->); [done|done|]. split; [done|]. simpl. lia.
    + unfold DownloadQueue._processQueue. simpl. rewrite Hr.
      rewrite orb_true_r. simpl. by rewrite Hr.
  - destruct (DownloadQueue.executions q !! n) as [e|]; [|done].
    destruct (settled_loop e exit fp now
                (DownloadQueue.set_executions
                   (delete n (DownloadQueue.executions q)) q))
      as (-> & -> & -> & _).
    done.
  - done.
Qed.

(** X10. A queue that has been started and not stopped since always has a run
    of [_processQueue] waiting in the event loop, whatever has happened to
    it: the loop that serves the pending tasks does not die out. *)
Theorem started_queue_stays_awake st cfg evs :
  let q := DownloadQueue.run (DownloadQueue.new st cfg) evs in
  DownloadQueue.isRunning q = true →
  DownloadQueue.isStopping q = false ∧ (1 ≤ DownloadQueue.callbacks q)%nat.
Proof.
  intros q. subst q. unfold DownloadQueue.run.
  apply (foldl_invariant DownloadQueue.step awake).
  - intros s e. apply step_awake.
  - intros H. discriminate H.
Qed.

Lemma started_queue_stays_awake_witness :
  let q :=
    DownloadQueue.run (DownloadQueue.new Sample.idle Sample.cfg)
      [DownloadQueue.Start 50 1; DownloadQueue.Callback 51 2;
       DownloadQueue.Enqueue "vid1" "720p" 52 "aaaaaaaaa";
       DownloadQueue.Callback 53 3; DownloadQueue.Callback 54 4] in
  DownloadQueue.isRunning q = true ∧
  DownloadQueue.isStopping q = false ∧ (1 ≤ DownloadQueue.callbacks q)%nat.
Proof.
  intros q.
  assert (DownloadQueue.isRunning q = true) as H by reflexivity.
  split; [exact H|].
  exact (started_queue_stays_awake Sample.idle Sample.cfg _ H).
Defined.

Lemma filter_none_pending (l : list Download.t) :
  Forall (λ x, Download.status x ≠ pending) l →
  List.filter (λ dl, bool_decide (Download.status dl = pending)) l = [].
Proof.
  intros H. apply filter_nil_forall. intros x Hx.
  apply bool_decide_eq_false. by eapply (proj1 (Forall_forall _ _) H).
Qed.

(** X11. The queue serves the tasks in the order of their creation.  When the
    ids of the tasks are distinct, a run of [_processQueue] on a started
    queue with a free slot starts the first task of the store that is
    ['pending'] (its video being known): that task becomes ['downloading'],
    its process is entered in [activeDownloads], the tasks before and after
    it are untouched, and the next run of [_processQueue] is scheduled. *)
Theorem processQueue_starts_oldest_pending now proc q before dl after :
  NoDup (Download.id <$> downloads (Storage.data (DownloadQueue.storage q))) →
  DownloadQueue.isRunning q = true → DownloadQueue.isStopping q = false →
  (size (DownloadQueue.activeDownloads q)
   < DownloadQueue.maxConcurrentDownloads (DownloadQueue.config q))%nat →
  downloads (Storage.data (DownloadQueue.storage q)) = (before ++ dl :: after)%list →
  Forall (λ x, Download.status x ≠ pending) before →
  Download.status dl = pending →
  is_Some (Storage.getVideo (Download.videoId dl) (DownloadQueue.storage q)) →
  let q' := DownloadQueue._processQueue now proc q in
  let dl' := Storage.applyStatus downloading Storage.noPatch now dl in
  downloads (Storage.data (DownloadQueue.storage q'))
    = (before ++ dl' :: after)%list ∧
  Download.status dl' = downloading ∧
  DownloadQueue.activeDownloads q'
    = <[Download.id dl := proc]> (DownloadQueue.activeDownloads q) ∧
  DownloadQueue.executions q'
    = (DownloadQueue.executions q
       ++ [DownloadQueue.mkExecution proc (Download.id dl)
             (Download.videoId dl)])%list ∧
  DownloadQueue.callbacks q' = S (DownloadQueue.callbacks q).
Proof.
  intros Hnd Hr Hs Hcap Hl Hbefore Hp [video Hv] q' dl'. subst q' dl'.
  assert (downloads (Storage.data (DownloadQueue.storage q))
            !! length before = Some dl) as Hat.
  { rewrite Hl. by apply list_lookup_middle. }
  unfold DownloadQueue._processQueue. rewrite Hr, Hs. simpl.
  destruct (decide _) as [Hfull|_]; [lia|].
  unfold Storage.getPendingDownloads. rewrite Hl, List.filter_app.
  rewrite (filter_none_pending before Hbefore). simpl.
  rewrite (bool_decide_eq_true_2 _ Hp). simpl.
  unfold DownloadQueue._downloadNext. rewrite Hv. simpl.
  split; [|split; [by destruct (applyStatus_fields downloading Storage.noPatch
                                  now dl) as (_ & _ & ? & _)|done]].
  unfold Storage.updateDownloadStatus.
  destruct (find _ _) eqn:Hf.
  - simpl. rewrite (update_first_insert Download.id _ _ Hnd _ _ Hat).
    rewrite Hl. rewrite insert_app_r_alt by lia.
    by rewrite Nat.sub_diag.
  - exfalso.
    destruct (find_is_Some (λ d, Download.id d =? Download.id dl)
                (downloads (Storage.data (DownloadQueue.storage q))) dl)
      as [x Hx].
    + by eapply list_elem_of_lookup_2.
    + apply String.eqb_refl.
    + congruence.
Qed.

Lemma processQueue_starts_oldest_pending_witness :
  downloads (Storage.data (DownloadQueue.storage SampleQueue.queue))
  = [SampleQueue.finished; SampleQueue.waiting; SampleQueue.waiting2] ∧
  Download.status <$> downloads
    (Storage.data (DownloadQueue.storage
       (DownloadQueue._processQueue 55 2 SampleQueue.queue)))
  = [completed; downloading; pending].
Proof.
  split; [reflexivity|].
  destruct (processQueue_starts_oldest_pending 55 2 SampleQueue.queue
              [SampleQueue.finished] SampleQueue.waiting
              [SampleQueue.waiting2]) as [H _].
  - apply NoDup_ListNoDup. vm_compute.
    repeat constructor; simpl; intuition congruence.
  - reflexivity.
  - reflexivity.
  - vm_compute. lia.
  - reflexivity.
  - constructor; [discriminate|constructor].
  - reflexivity.
  - vm_compute. eauto.
  - rewrite H. reflexivity.
Defined.

(** X12. A download that ends well is recorded and its slot freed.  When the
    bookkeeping of the queue is in order ([tracked]) and the process of a
    running download closes with code 0, the task of that download, which
    was ['downloading'], becomes ['completed'] with the file path and the
    completion time, no other task changes, and [activeDownloads] loses
    exactly the entry of that download. *)
Theorem completed_download_is_recorded q n e filePath now :
  tracked q → DownloadQueue.executions q !! n = Some e →
  let q' :=
    DownloadQueue.step q (DownloadQueue.Close n ExitOk filePath now) in
  ∃ i dl,
    downloads (Storage.data (DownloadQueue.storage q)) !! i = Some dl ∧
    Download.id dl = DownloadQueue.e_id e ∧
    Download.status dl = downloading ∧
    downloads (Storage.data (DownloadQueue.storage q'))
    = <[i := Download.set_completedAt (Some now)
              (Download.set_filePath (Some filePath)
                 (Download.set_status completed dl))]>
        (downloads (Storage.data (DownloadQueue.storage q))) ∧
    DownloadQueue.activeDownloads q'
    = delete (DownloadQueue.e_id e) (DownloadQueue.activeDownloads q) ∧
    S (size (DownloadQueue.activeDownloads q'))
    = size (DownloadQueue.activeDownloads q) ∧
    DownloadQueue.executions q' = delete n (DownloadQueue.executions q).
Proof.
  intros Ht Hn q'. subst q'. simpl. rewrite Hn.
  assert (e ∈ DownloadQueue.executions q) as He
    by by eapply list_elem_of_lookup_2.
  destruct (tracked_status q Ht e He) as (dl & Hin & Hid & Hst).
  apply list_elem_of_lookup in Hin as [i Hi].
  exists i, dl. split; [done|]. split; [done|]. split; [done|].
  unfold DownloadQueue._downloadNext_settled. simpl.
  split; [|split; [done|split; [|done]]].
  - unfold Storage.updateDownloadStatus. simpl.
    destruct (find _ _) eqn:Hf.
    + simpl. rewrite <- Hid.
      by rewrite (update_first_insert Download.id _ _ (tracked_ids q Ht) _ _ Hi).
    + exfalso.
      destruct (find_is_Some (λ d, Download.id d =? DownloadQueue.e_id e)
                  (downloads (Storage.data (DownloadQueue.storage q))) dl)
        as [x Hx].
      * by eapply list_elem_of_lookup_2.
      * by apply String.eqb_eq.
      * congruence.
  - assert (is_Some (DownloadQueue.activeDownloads q !! DownloadQueue.e_id e))
      as [proc Hproc].
    { apply elem_of_dom. rewrite (tracked_dom q Ht).
      apply elem_of_list_to_set. by apply list_elem_of_fmap_2. }
    rewrite map_size_delete, Hproc.
    assert (size (DownloadQueue.activeDownloads q) ≠ 0); [|lia].
    intros H0. apply map_size_empty_iff in H0. by rewrite H0 in Hproc.
Qed.

Lemma completed_download_is_recorded_witness :
  let q := DownloadQueue._processQueue 55 2 SampleQueue.queue in
  let q' :=
    DownloadQueue.step q
      (DownloadQueue.Close 0 ExitOk "./downloads/first.mp4" 60) in
  DownloadQueue.executions q !! 0
    = Some (DownloadQueue.mkExecution 2 "dl_4_bbbbbbbbb" "vid1") ∧
  size (DownloadQueue.activeDownloads q') = 0 ∧
  Download.status <$> downloads (Storage.data (DownloadQueue.storage q'))
    = [completed; completed; pending].
Proof.
  intros q q'.
  assert (tracked q) as Ht.
  { split.
    - apply NoDup_ListNoDup. vm_compute.
      repeat constructor; simpl; intuition congruence.
    - apply NoDup_ListNoDup. vm_compute.
      repeat constructor; simpl; intuition congruence.
    - vm_compute. reflexivity.
    - intros e He. apply list_elem_of_In in He. vm_compute in He.
      destruct He as [<-|[]].
      eexists. split; [|split].
      + apply list_elem_of_In. vm_compute. right. left. reflexivity.
      + reflexivity.
      + reflexivity. }
  destruct (completed_download_is_recorded q 0 _ "./downloads/first.mp4" 60%N
              Ht eq_refl) as (i & dl & _ & _ & _ & _ & _ & Hsize & _).
  split; [reflexivity|]. split; [|reflexivity].
  apply eq_add_S. exact Hsize.
Defined.

Lemma step_winding_down q0 q ev :
  winding_down q0 q → isStart ev = false →
  winding_down q0 (DownloadQueue.step q ev).
Proof.
  intros [W1 W2 W3 W4] Hev.
  destruct ev as [videoId quality now rnd|now proc| |now proc|n exit fp now|id];
    simpl in *; [|done| | | |].
  - destruct (enqueue_loop videoId quality now rnd q) as (H1 & H2 & _ & _ & H3).
    destruct (enqueue_frame videoId quality now rnd q) as [_ H4].
    split; by rewrite ?H1, ?H2, ?H3, ?H4.
  - done.
  - destruct (DownloadQueue.callbacks q) as [|k]; [done|].
    unfold DownloadQueue._processQueue. simpl. by rewrite W2.
  - destruct (DownloadQueue.executions q !! n) as [e|] eqn:Hn; [|done].
    set (q1 := DownloadQueue.set_executions _ q).
    destruct (settled_loop e exit fp now q1) as (H1 & H2 & _ & H3).
    split; rewrite ?H1, ?H2, ?H3; [done|done| |].
    + etrans; [apply sublist_delete|done].
    + etrans; [|exact W4].
      unfold DownloadQueue._downloadNext_settled. simpl.
      etrans; [apply delete_subseteq|].
      destruct exit; [done|].
      by destruct (handleFailure_frame (DownloadQueue.e_id e)
                     (DownloadQueue.e_videoId e) (Some message) now q1)
        as [_ ->].
  - done.
Qed.

(** X13. [stop()] is graceful and final.  After it, and until [start()] is
    called again, the queue starts nothing: whatever is enqueued, whichever
    runs of [_processQueue] were still waiting, whichever downloads end and
    whatever is retried, the running downloads are among those that ran at
    the time of the stop, and so are the entries of [activeDownloads]. *)
Theorem stopped_queue_starts_nothing q evs :
  Forall (λ ev, isStart ev = false) evs →
  let q' := DownloadQueue.run (DownloadQueue.stop q) evs in
  DownloadQueue.isRunning q' = false ∧
  DownloadQueue.executions q' `sublist_of` DownloadQueue.executions q ∧
  DownloadQueue.activeDownloads q' ⊆ DownloadQueue.activeDownloads q.
Proof.
  intros Hevs q'.
  assert (winding_down q q') as [W1 _ W3 W4]; [|done].
  subst q'. unfold DownloadQueue.run.
  assert (winding_down q (DownloadQueue.stop q)) as H0 by (by split).
  revert H0. generalize (DownloadQueue.stop q).
  induction Hevs as [|ev evs Hev _ IH]; intros q1 H1; simpl; [done|].
  apply IH. by apply step_winding_down.
Qed.

Lemma stopped_queue_starts_nothing_witness :
  let q := DownloadQueue._processQueue 55 2 SampleQueue.queue in
  let q' :=
    DownloadQueue.run (DownloadQueue.stop q)
      [DownloadQueue.Callback 56 3;
       DownloadQueue.Enqueue "vid1" "720p" 57 "ddddddddd";
       DownloadQueue.Callback 58 4] in
  length (DownloadQueue.executions q) = 1 ∧
  DownloadQueue.isRunning q' = false ∧
  DownloadQueue.executions q' `sublist_of` DownloadQueue.executions q.
Proof.
  intros q q'. split; [reflexivity|].
  destruct (stopped_queue_starts_nothing q
              [DownloadQueue.Callback 56 3;
               DownloadQueue.Enqueue "vid1" "720p" 57 "ddddddddd";
               DownloadQueue.Callback 58 4]) as (H1 & H2 & _).
  - repeat constructor.
  - split; [exact H1|exact H2].
Defined.

(** ** File names *)

Lemma dropWhile_suffix p s : ∃ k, s = (k ++ FileName.dropWhile p s)%list.
Proof.
  induction s as [|c r [k IH]]; simpl; [by exists []|].
  destruct (p c); [|by exists []]. exists (c :: k). simpl. by f_equal.
Qed.

Lemma dropWhile_Forall (P : N → Prop) p s :
  Forall P s → Forall P (FileName.dropWhile p s).
Proof.
  intros H. destruct (dropWhile_suffix p s) as [k Hk].
  rewrite Hk in H. by apply Forall_app in H as [_ ?].
Qed.

Lemma dropWhile_head p s c r :
  FileName.dropWhile p s = c :: r → p c = false.
Proof.
  induction s as [|x s IH]; simpl; [done|].
  destruct (p x) eqn:E; [done|]. by intros [= <- _].
Qed.

Lemma trim_Forall (P : N → Prop) s : Forall P s → Forall P (FileName.trim s).
Proof.
  intros H. unfold FileName.trim.
  apply Forall_forall. intros x Hx.
  apply list_elem_of_In, in_rev, list_elem_of_In in Hx.
  revert x Hx. apply Forall_forall, dropWhile_Forall.
  apply Forall_forall. intros x Hx.
  apply list_elem_of_In, in_rev, list_elem_of_In in Hx.
  revert x Hx. by apply Forall_forall, dropWhile_Forall.
Qed.

(** What [trim] returns does not begin with white space. *)
Lemma trim_head s c r : FileName.trim s = c :: r → FileName.isSpace c = false.
Proof.
  unfold FileName.trim. intros H.
  destruct (FileName.dropWhile FileName.isSpace s) as [|d t] eqn:Hd.
  { simpl in H. done. }
  (* the first code unit survives the second stripping, or all is stripped *)
  pose proof (dropWhile_head _ _ _ _ Hd) as Hdsp.
  destruct (dropWhile_suffix FileName.isSpace (rev (d :: t))) as [k Hk].
  assert (rev (rev (d :: t)) = d :: t) as Hrr by apply rev_involutive.
  rewrite Hk in Hrr at 1. rewrite rev_app_distr, H in Hrr.
  by injection Hrr as -> _.
Qed.

Lemma collapse_Forall (P : N → Prop) b s :
  P 32%N → Forall P s → Forall P (FileName.collapse b s).
Proof.
  intros H32 H. revert b. induction H as [|c r Hc Hr IH]; intros b; simpl;
    [done|].
  destruct (FileName.isSpace c); [destruct b|]; auto.
Qed.

(** After [collapse], white space is a single space. *)
Lemma collapse_spaces b s :
  Forall (λ c, FileName.isSpace c = true → c = 32%N) (FileName.collapse b s).
Proof.
  revert b. induction s as [|c r IH]; intros b; simpl; [done|].
  destruct (FileName.isSpace c) eqn:E; [destruct b|]; auto.
  constructor; [congruence|auto].
Qed.

(** X14. The name [_sanitizeFileName] makes of a title, whatever the title: at
    most 200 code units, none of them one of the nine characters the first
    pattern lists, no white space but the plain space, and no white space
    at the beginning. *)
Theorem sanitizeFileName_safe title :
  let name := FileName._sanitizeFileName title in
  (length name ≤ 200)%nat ∧
  Forall (λ c, FileName.illegal c = false) name ∧
  Forall (λ c, FileName.isSpace c = true → c = 32%N) name ∧
  (∀ c, head name = Some c → FileName.isSpace c = false).
Proof.
  intros name. subst name. unfold FileName._sanitizeFileName.
  split; [|split; [|split]].
  - rewrite length_take. lia.
  - apply Forall_take, trim_Forall, collapse_Forall; [done|].
    unfold FileName.replaceIllegal. apply Forall_fmap, Forall_forall.
    intros c _. simpl. by destruct (FileName.illegal c) eqn:E.
  - apply Forall_take, trim_Forall, collapse_spaces.
  - intros c Hc.
    destruct (FileName.trim _) as [|d r] eqn:Ht; [done|].
    simpl in Hc. injection Hc as ->. by eapply trim_head.
Qed.

Lemma sanitizeFileName_safe_witness :
  let title := [32; 65; 58; 9; 10; 66; 63; 32]%N in
  FileName._sanitizeFileName title = [65; 95; 32; 66; 95]%N ∧
  (∀ c, head (FileName._sanitizeFileName title) = Some c →
        FileName.isSpace c = false).
Proof.
  intros title. split; [reflexivity|].
  exact (proj2 (proj2 (proj2 (sanitizeFileName_safe title)))).
Defined.

(** ** The application: one task per video *)

Lemma retryFailedDownload_frame id st :
  let st' := (Storage.retryFailedDownload id st).2 in
  channels (Storage.data st') = channels (Storage.data st) ∧
  videos (Storage.data st') = videos (Storage.data st) ∧
  Download.videoId <$> downloads (Storage.data st')
  = Download.videoId <$> downloads (Storage.data st).
Proof.
  unfold Storage.retryFailedDownload. destruct (find _ _); [|done].
  destruct (decide _); [|done]. simpl.
  split; [done|]. split; [done|]. by apply update_first_fmap.
Qed.

Lemma one_task_each_frame st st' :
  videos (Storage.data st') = videos (Storage.data st) →
  Download.videoId <$> downloads (Storage.data st')
  = Download.videoId <$> downloads (Storage.data st) →
  one_task_each st → one_task_each st'.
Proof. intros Hv Hd [H1 H2]. split; rewrite ?Hv, ?Hd; done. Qed.

Lemma handleFailure_records downloadId videoId msg now q :
  let st := DownloadQueue.storage q in
  let st' :=
    DownloadQueue.storage
      (DownloadQueue._handleFailure downloadId videoId msg now q) in
  videos (Storage.data st') = videos (Storage.data st) ∧
  Download.videoId <$> downloads (Storage.data st')
  = Download.videoId <$> downloads (Storage.data st).
Proof.
  unfold DownloadQueue._handleFailure.
  destruct (find _ _); [|done]. destruct (decide _); simpl.
  - by destruct (retryFailedDownload_frame downloadId (DownloadQueue.storage q))
      as (_ & ? & ?).
  - by destruct (updateDownloadStatus_frame downloadId failed
        (Storage.mkPatch None (Some (String.substring 0 500 <$> msg))
                         (Some (Some now)))
        now (DownloadQueue.storage q)) as (_ & ? & ?).
Qed.

Lemma processQueue_records now proc q :
  let st := DownloadQueue.storage q in
  let st' := DownloadQueue.storage (DownloadQueue._processQueue now proc q) in
  videos (Storage.data st') = videos (Storage.data st) ∧
  Download.videoId <$> downloads (Storage.data st')
  = Download.videoId <$> downloads (Storage.data st).
Proof.
  unfold DownloadQueue._processQueue.
  destruct (_ || _); [done|]. destruct (decide _); [done|].
  destruct (Storage.getPendingDownloads _ _) as [|download rest]; [done|].
  simpl. unfold DownloadQueue._downloadNext.
  destruct (Storage.getVideo _ _); simpl.
  - by destruct (updateDownloadStatus_frame (Download.id download) downloading
        Storage.noPatch now (DownloadQueue.storage q)) as (_ & ? & ?).
  - by destruct (updateDownloadStatus_frame (Download.id download) failed
        (Storage.mkPatch None (Some (Some "视频信息不存在")) None)
        now (DownloadQueue.storage q)) as (_ & ? & ?).
Qed.

(** A turn of the queue that is not a call of [enqueue] leaves the videos
    as they are, and the tasks the tasks of the same videos. *)
Lemma queue_step_records q ev :
  (∀ videoId quality now rnd,
     ev ≠ DownloadQueue.Enqueue videoId quality now rnd) →
  let st := DownloadQueue.storage q in
  let st' := DownloadQueue.storage (DownloadQueue.step q ev) in
  videos (Storage.data st') = videos (Storage.data st) ∧
  Download.videoId <$> downloads (Storage.data st')
  = Download.videoId <$> downloads (Storage.data st).
Proof.
  intros Hev.
  destruct ev as [videoId quality now rnd|now proc| |now proc|n exit fp now|id];
    simpl.
  - by destruct (Hev videoId quality now rnd).
  - unfold DownloadQueue.start. destruct (DownloadQueue.isRunning q); [done|].
    apply (processQueue_records now proc (DownloadQueue.set_flags true false q)).
  - done.
  - destruct (DownloadQueue.callbacks q) as [|k]; [done|].
    apply (processQueue_records now proc (DownloadQueue.set_callbacks k q)).
  - destruct (DownloadQueue.executions q !! n) as [e|]; [|done].
    unfold DownloadQueue._downloadNext_settled. simpl.
    destruct exit as [|message]; simpl.
    + by destruct (updateDownloadStatus_frame (DownloadQueue.e_id e) completed
          (Storage.mkPatch (Some (Some fp)) None (Some (Some now)))
          now (DownloadQueue.storage q)) as (_ & ? & ?).
    + apply (handleFailure_records (DownloadQueue.e_id e)
               (DownloadQueue.e_videoId e) (Some message) now
               (DownloadQueue.set_executions
                  (delete n (DownloadQueue.executions q)) q)).
  - by destruct (retryFailedDownload_frame id (DownloadQueue.storage q))
      as (_ & ? & ?).
Qed.

Lemma find_is_Some_app {A} (p : A → bool) (l k : list A) :
  is_Some (find p l) → is_Some (find p (l ++ k)).
Proof.
  intros [x Hx]. apply find_elem_of in Hx as [Hin Hp].
  apply (find_is_Some p _ x); [|done]. apply elem_of_app. by left.
Qed.

(** The body of step 3 on a video that the store did not have when the
    step began. *)
Lemma discover_step st0 channelId video quality now rnd st :
  discovering st0 st →
  videos (Storage.data st0) !! VideoData.id video = None →
  discovering st0
    (Storage.createDownload (VideoData.id video) quality now rnd
       (Storage.addVideo channelId video now st).2).2.
Proof.
  intros [[Hnd Hknown] Hnew] Hfresh.
  unfold Storage.addVideo.
  destruct (videos (Storage.data st) !! VideoData.id video) as [v|] eqn:Hv.
  - (* added earlier in this step: its task is in flight *)
    cbn [snd]. unfold Storage.createDownload.
    destruct (Hnew (VideoData.id video)) as [[? H]|[x Hx]]; [by eauto| |].
    + rewrite Hfresh in H. done.
    + rewrite Hx. done.
  - (* unknown: no task yet *)
    cbn [snd].
    assert (VideoData.id video
            ∉ Download.videoId <$> downloads (Storage.data st)) as Hno.
    { intros Hin. apply Hknown in Hin as [? Hin]. congruence. }
    unfold Storage.createDownload. rewrite save_data. simpl.
    rewrite find_none_forall.
    2:{ intros x Hx. unfold Storage.inQueue.
        destruct (Download.videoId x =? VideoData.id video) eqn:E; [|done].
        apply String.eqb_eq in E. exfalso. apply Hno. rewrite <- E.
        by apply list_elem_of_fmap_2. }
    split; [split|]; simpl.
    + rewrite fmap_app. apply NoDup_app. split; [done|].
      split; [|apply NoDup_singleton].
      intros k Hk [->|[]%elem_of_nil]%elem_of_cons. done.
    + intros k. rewrite fmap_app, elem_of_app.
      rewrite lookup_insert_is_Some.
      intros [Hk|[->|[]%elem_of_nil]%elem_of_cons]; [|by left].
      destruct (decide (VideoData.id video = k)); [by left|].
      right. split; [done|]. by apply Hknown.
    + intros k. rewrite lookup_insert_is_Some.
      intros [<-|[Hne Hk]].
      * right. eapply find_is_Some.
        -- apply elem_of_app. right. left.
        -- unfold Storage.inQueue. simpl. rewrite String.eqb_refl. done.
      * destruct (Hnew k Hk) as [?|Hq]; [by left|]. right.
        by apply find_is_Some_app.
Qed.

Lemma addAndEnqueue_discovering st0 channelId : ∀ newVideos k r s,
  discovering st0 (MonitoringScheduler.storage s) →
  Forall (λ v, videos (Storage.data st0) !! VideoData.id v = None) newVideos →
  discovering st0
    (MonitoringScheduler.storage
       (MonitoringScheduler.addAndEnqueue channelId newVideos k r s)).
Proof.
  induction newVideos as [|v rest IH]; intros k r s Hd Hall; [done|].
  apply Forall_cons in Hall as [Hv Hrest].
  cbn [MonitoringScheduler.addAndEnqueue]. apply IH; [|done].
  rewrite addAndEnqueue1_storage. by apply discover_step.
Qed.

Lemma checkChannel_one_task channel r s :
  one_task_each (MonitoringScheduler.storage s) →
  one_task_each
    (MonitoringScheduler.storage (MonitoringScheduler.checkChannel channel r s).2).
Proof.
  intros Hs.
  destruct (MonitoringScheduler.listing r) as [vids|] eqn:Hl.
  2:{ by rewrite checkChannel_storage_rejected. }
  rewrite (checkChannel_storage channel r s vids Hl).
  set (s1 := MonitoringScheduler.addAndEnqueue _ _ _ _ _).
  destruct (updateChannelLastCheck_data (Channel.id channel)
              (MonitoringScheduler.clock r) (MonitoringScheduler.storage s1))
    as [Hv Hd].
  apply (one_task_each_frame (MonitoringScheduler.storage s1));
    [done|by rewrite Hd|].
  apply (dc_each (MonitoringScheduler.storage s)).
  subst s1. apply addAndEnqueue_discovering.
  - split; [done|]. intros k Hk. by left.
  - apply Forall_forall. intros v Hv'.
    apply list_elem_of_In, filter_In in Hv' as [_ Hunknown].
    apply negb_true_iff in Hunknown. unfold Storage.videoExists in Hunknown.
    apply bool_decide_eq_false in Hunknown.
    by apply eq_None_not_Some.
Qed.

Lemma scheduler_step_one_task l ev :
  isEnqueue (Monitor ev) = false →
  one_task_each (MonitoringScheduler.storage (MonitoringScheduler.sched l)) →
  one_task_each
    (MonitoringScheduler.storage
       (MonitoringScheduler.sched (MonitoringScheduler.step l ev))).
Proof.
  intros Hev Hl. destruct ev as [|k r|k|ev]; simpl.
  - unfold MonitoringScheduler.checkAllChannelsNow_enter.
    destruct (MonitoringScheduler._isChecking _); [done|]. simpl.
    by destruct (List.filter _ _).
  - destruct (MonitoringScheduler.passes l !! k) as [p|]; [|done].
    destruct (MonitoringScheduler.p_todo p) as [|channel rest]; [done|].
    unfold MonitoringScheduler.checkAllChannelsNow_iter.
    pose proof (checkChannel_one_task channel r (MonitoringScheduler.sched l) Hl)
      as H.
    destruct (MonitoringScheduler.checkChannel channel r _) as [[n|] s1];
      by destruct rest.
  - by destruct (MonitoringScheduler.passes l !! k).
  - destruct (queue_step_records
                (MonitoringScheduler.queueManager (MonitoringScheduler.sched l))
                ev) as [Hv Hd].
    { intros videoId quality now rnd ->. done. }
    by apply (one_task_each_frame
                (MonitoringScheduler.storage (MonitoringScheduler.sched l))).
Qed.

Lemma app_step_one_task l ev :
  isEnqueue ev = false →
  one_task_each (MonitoringScheduler.storage (MonitoringScheduler.sched l)) →
  one_task_each
    (MonitoringScheduler.storage (MonitoringScheduler.sched (app_step l ev))).
Proof.
  intros Hev Hl.
  destruct ev as [ev|url name now|id enabled|id|cfg stat calendar clock];
    cbn [app_step].
  - by apply scheduler_step_one_task.
  - revert Hl. apply one_task_each_frame; simpl;
      unfold Storage.addChannel; by destruct (find _ _).
  - revert Hl. apply one_task_each_frame; simpl;
      unfold Storage.toggleChannel; by destruct (find _ _).
  - revert Hl. by apply one_task_each_frame.
  - revert Hl.
    destruct (cleanupNow_records stat calendar clock
                (CleanupService.mk
                   (MonitoringScheduler.storage (MonitoringScheduler.sched l))
                   cfg true)) as (_ & Hv & _ & Hd).
    by apply one_task_each_frame.
Qed.

(** X15. In the application [enqueue] is called by the scheduler only, for the
    videos it has just found.  Along every run of the application (passes
    triggered, listings that arrive or fail, downloads that start, end well
    or badly, manual retries, channels added, toggled and removed, files
    cleaned away) that begins with at most one task per video, no video
    ever has two tasks, and every task has its video in the store. *)
Theorem application_keeps_one_task_per_video l evs :
  one_task_each (MonitoringScheduler.storage (MonitoringScheduler.sched l)) →
  Forall (λ ev, isEnqueue ev = false) evs →
  let st' :=
    MonitoringScheduler.storage (MonitoringScheduler.sched (app_run l evs)) in
  NoDup (Download.videoId <$> downloads (Storage.data st')) ∧
  (∀ dl, dl ∈ downloads (Storage.data st') →
         is_Some (Storage.getVideo (Download.videoId dl) st')).
Proof.
  intros Hl Hevs st'.
  assert (one_task_each st') as [H1 H2].
  { subst st'. unfold app_run. revert l Hl.
    induction Hevs as [|ev evs Hev _ IH]; intros l Hl; simpl; [done|].
    apply IH. by apply app_step_one_task. }
  split; [done|]. intros dl Hdl. apply H2. by apply list_elem_of_fmap_2.
Qed.

Lemma application_keeps_one_task_per_video_witness :
  let l := MonitoringScheduler.mkLoop Sample.scheduler [] in
  let evs :=
    [Monitor MonitoringScheduler.Trigger;
     Monitor (MonitoringScheduler.Queue (DownloadQueue.Start 19 1));
     Monitor (MonitoringScheduler.Resume 0 (Sample.env 1));
     Monitor (MonitoringScheduler.Queue (DownloadQueue.Callback 22 2));
     RemoveChannel "ch_1";
     Monitor (MonitoringScheduler.Resume 0 (Sample.env 1));
     Monitor (MonitoringScheduler.Queue
                (DownloadQueue.Close 0 (ExitError "x") "" 23));
     Monitor (MonitoringScheduler.Queue (DownloadQueue.Retry "dl_21_r1r1r1r1r"));
     AddChannel "https://www.youtube.com/@alpha" None 24;
     Monitor MonitoringScheduler.Trigger;
     Monitor (MonitoringScheduler.Resume 0 (Sample.env 1))] in
  let st' :=
    MonitoringScheduler.storage (MonitoringScheduler.sched (app_run l evs)) in
  Download.videoId <$> downloads (Storage.data st') = ["vid2"] ∧
  NoDup (Download.videoId <$> downloads (Storage.data st')).
Proof.
  intros l evs st'. split; [reflexivity|].
  refine (proj1 (application_keeps_one_task_per_video l evs _ _)).
  - split; [apply NoDup_nil_2|]. intros k Hk. vm_compute in Hk.
    by apply elem_of_nil in Hk.
  - repeat constructor.
Defined.

(** ** The scheduler: the time stamp of a channel *)

Lemma update_first_no_match {A} (p : A → bool) (f : A → A) (l : list A) :
  find p l = None → update_first p f l = l.
Proof.
  induction l as [|x r IH]; simpl; [done|].
  destruct (p x); [done|]. intros H. f_equal. by apply IH.
Qed.

Lemma updateChannelLastCheck_channels id now st :
  channels (Storage.data (Storage.updateChannelLastCheck id now st))
  = update_first (λ ch, Channel.id ch =? id)
      (Channel.set_lastCheckAt (Some now)) (channels (Storage.data st)).
Proof.
  unfold Storage.updateChannelLastCheck.
  destruct (find _ _) eqn:Hf; [done|].
  symmetry. by apply update_first_no_match.
Qed.

Lemma addAndEnqueue_channels channelId : ∀ newVideos k r s,
  channels (Storage.data
    (MonitoringScheduler.storage
       (MonitoringScheduler.addAndEnqueue channelId newVideos k r s)))
  = channels (Storage.data (MonitoringScheduler.storage s)).
Proof.
  induction newVideos as [|v rest IH]; intros k r s; [done|].
  cbn [MonitoringScheduler.addAndEnqueue]. rewrite IH.
  rewrite addAndEnqueue1_storage.
  unfold Storage.createDownload, Storage.addVideo.
  destruct (videos _ !! _); destruct (find _ _); done.
Qed.

(** X16. [lastCheckAt] is the time of the last check that went through.  The
    check of a channel whose listing came writes the time of the check into
    the first channel of the store with the id of the channel checked, and
    into nothing else of the channels; the check of a channel whose listing
    was rejected leaves the channels as they were. *)
Theorem checkChannel_stamps_success channel r s :
  let st := MonitoringScheduler.storage s in
  let st' :=
    MonitoringScheduler.storage
      (MonitoringScheduler.checkChannel channel r s).2 in
  channels (Storage.data st')
  = match MonitoringScheduler.listing r with
    | Some _ =>
        update_first (λ ch, Channel.id ch =? Channel.id channel)
          (Channel.set_lastCheckAt (Some (MonitoringScheduler.clock r)))
          (channels (Storage.data st))
    | None => channels (Storage.data st)
    end.
Proof.
  intros st st'. subst st st'.
  destruct (MonitoringScheduler.listing r) as [vids|] eqn:Hl.
  - rewrite (checkChannel_storage channel r s vids Hl).
    rewrite updateChannelLastCheck_channels. by rewrite addAndEnqueue_channels.
  - by rewrite checkChannel_storage_rejected.
Qed.

(** ** Telegram: the retry loop *)

Lemma attempts_spec s outcome : ∀ left attempt,
  (1 ≤ left)%nat →
  (attempt + left = S (TelegramService.maxRetries s))%nat →
  let tr := TelegramService.attempts s outcome left attempt in
  let last := (attempt + TelegramService.calls tr - 1)%nat in
  (1 ≤ TelegramService.calls tr ≤ left)%nat ∧
  TelegramService.delays tr
  = (λ k, (TelegramService.retryDelay s * N.of_nat k)%N)
      <$> seq attempt (TelegramService.calls tr - 1) ∧
  (∀ j, (attempt ≤ j < last)%nat →
        ∃ m, outcome j = TelegramService.Error true m) ∧
  match TelegramService.result tr with
  | TelegramService.Success => outcome last = TelegramService.Sent
  | TelegramService.SendFailed m =>
      ∃ r, outcome last = TelegramService.Error r m ∧
           (r = false ∨ last = TelegramService.maxRetries s)
  | _ => False
  end.
Proof.
  induction left as [|left IH]; intros attempt Hleft Hsum; [lia|].
  cbn [TelegramService.attempts].
  destruct (outcome attempt) as [|retryable message] eqn:Ho.
  - cbn. replace (attempt + 1 - 1)%nat with attempt by lia.
    split; [lia|]. split; [done|]. split; [intros j; lia|done].
  - destruct (retryable && negb (attempt =? TelegramService.maxRetries s)%nat)
      eqn:E.
    + apply andb_true_iff in E as [-> Hne].
      apply negb_true_iff, Nat.eqb_neq in Hne.
      destruct (IH (S attempt)) as (Hc & Hd & Hj & Hr); [lia|lia|].
      cbn [TelegramService.result TelegramService.calls TelegramService.delays].
      set (rest := TelegramService.attempts s outcome left (S attempt)) in *.
      replace (attempt + S (TelegramService.calls rest) - 1)%nat
        with (S attempt + TelegramService.calls rest - 1)%nat by lia.
      split; [lia|]. split; [|split; [|done]].
      * replace (S (TelegramService.calls rest) - 1)%nat
          with (S (TelegramService.calls rest - 1)) by lia.
        cbn [seq]. rewrite fmap_cons. by rewrite Hd.
      * intros j Hjr. destruct (decide (j = attempt)) as [->|Hja]; [by eauto|].
        apply Hj. lia.
    + cbn. replace (attempt + 1 - 1)%nat with attempt by lia.
      split; [lia|]. split; [done|]. split; [intros j; lia|].
      exists retryable. split; [done|].
      apply andb_false_iff in E as [E|E]; [by left|right].
      by apply negb_false_iff, Nat.eqb_eq in E.
Qed.

Lemma orDefault_pos x d : (1 ≤ d)%nat → (1 ≤ TelegramService.orDefault x d)%nat.
Proof. intros Hd. destruct x as [[|n]|]; simpl; lia. Qed.

(** X17. A notification is tried a bounded number of times.  For a service as
    its constructor makes it, [sendMessage] calls the bot at most
    [maxRetries] times and not at all when the service is disabled; every
    call but the last ended in an error that could be retried; before the
    [k]-th retry it sleeps [k] times the retry delay; it resolves to an
    object in every case, and to a success exactly when its last call was
    sent. *)
Theorem sendMessage_retries_are_bounded on oc maxAttempts delayMs outcome :
  let s := TelegramService.new on oc maxAttempts delayMs in
  let tr := TelegramService.sendMessage s outcome in
  (TelegramService.calls tr ≤ TelegramService.maxRetries s)%nat ∧
  (on = false →
   TelegramService.calls tr = 0%nat ∧
   TelegramService.result tr = TelegramService.Disabled) ∧
  TelegramService.result tr ≠ TelegramService.Undefined ∧
  TelegramService.delays tr
  = (λ k, (TelegramService.retryDelay s * N.of_nat k)%N)
      <$> seq 1 (TelegramService.calls tr - 1) ∧
  (∀ j, (1 ≤ j < TelegramService.calls tr)%nat →
        ∃ m, outcome j = TelegramService.Error true m) ∧
  (TelegramService.result tr = TelegramService.Success ↔
   on = true ∧ outcome (TelegramService.calls tr) = TelegramService.Sent) ∧
  (oc = false →
   TelegramService.calls (TelegramService.notifyDownloadComplete s outcome)
   = 0%nat).
Proof.
  intros s tr.
  assert (oc = false →
          TelegramService.calls
            (TelegramService.notifyDownloadComplete s outcome) = 0%nat) as Hoc.
  { intros ->. unfold TelegramService.notifyDownloadComplete. simpl.
    by rewrite orb_true_r. }
  subst tr. unfold TelegramService.sendMessage.
  assert (1 ≤ TelegramService.maxRetries s)%nat as Hpos.
  { apply orDefault_pos. lia. }
  change (TelegramService.enabled s) with on.
  destruct on; simpl negb; cbv iota.
  2:{ cbn. split; [lia|]. split; [done|]. split; [done|]. split; [done|].
      split; [intros j; lia|]. split; [|done]. split; [done|].
      by intros [? _]. }
  destruct (attempts_spec s outcome (TelegramService.maxRetries s) 1)
    as (Hc & Hd & Hj & Hr); [lia|lia|].
  set (tr := TelegramService.attempts s outcome _ 1) in *.
  replace (1 + TelegramService.calls tr - 1)%nat
    with (TelegramService.calls tr) in * by lia.
  split; [lia|]. split; [done|].
  split; [by destruct (TelegramService.result tr)|].
  split; [done|]. split; [done|]. split; [|done].
  destruct (TelegramService.result tr) as [| |m|]; try done.
  destruct Hr as (r & Hr & _). split; [done|]. intros [_ H]. congruence.
Qed.

Lemma sendMessage_retries_are_bounded_witness :
  let outcome k :=
    match k with
    | 1 => TelegramService.Error true "ETIMEDOUT"
    | 2 => TelegramService.Error true "Too Many Requests"
    | _ => TelegramService.Sent
    end in
  let s := TelegramService.new true true None None in
  let tr := TelegramService.sendMessage s outcome in
  TelegramService.result tr = TelegramService.Success ∧
  TelegramService.calls tr = 3%nat ∧
  TelegramService.delays tr = [2000; 4000]%N.
Proof.
  intros outcome s tr.
  destruct (sendMessage_retries_are_bounded true true None None outcome)
    as (_ & _ & _ & Hd & _ & Hs & _).
  assert (TelegramService.calls tr = 3%nat) as Hc by reflexivity.
  split; [|split; [exact Hc|]].
  - apply Hs. split; reflexivity.
  - exact (eq_trans Hd eq_refl).
Defined.

(** ** The pool of [fetchVideosDetailsAsync] *)

Lemma processNext_pooled k s :
  pooled k s → pooled (S k) (DetailFetch.processNext s).
Proof.
  intros [H1 H2 H3 H4 H5 H6]. unfold DetailFetch.processNext.
  destruct (decide _) as [Hend|Hmore].
  { split; try done; [lia|]. intros _ ?. lia. }
  destruct (DetailFetch.cancelled s) eqn:Hc.
  { split; try done; [lia|]. rewrite Hc. done. }
  split; simpl.
  - rewrite length_app. simpl. lia.
  - lia.
  - apply Forall_app. split.
    + eapply Forall_impl; [exact H3|]. simpl. intros; lia.
    + constructor; [lia|constructor].
  - apply NoDup_app. split; [done|]. split; [|apply NoDup_singleton].
    intros i Hi [->|[]%elem_of_nil]%elem_of_cons.
    apply (proj1 (Forall_forall _ _) H3) in Hi. lia.
  - rewrite length_app. simpl. lia.
  - intros _ _. rewrite length_app. simpl. rewrite H6; [lia|done|lia].
Qed.

Lemma start_pooled n :
  pooled DetailFetch.CONCURRENT_LIMIT (DetailFetch.start n).
Proof.
  unfold DetailFetch.start, DetailFetch.CONCURRENT_LIMIT. simpl Nat.iter.
  do 3 apply processNext_pooled.
  split; simpl; try done; [lia|constructor].
Qed.

Lemma step_pooled s ev :
  pooled DetailFetch.CONCURRENT_LIMIT s →
  pooled DetailFetch.CONCURRENT_LIMIT (DetailFetch.step s ev).
Proof.
  unfold DetailFetch.CONCURRENT_LIMIT.
  intros [H1 H2 H3 H4 H5 H6]. destruct ev as [k ok|]; simpl.
  2:{ by split. }
  destruct (DetailFetch.fetching s !! k) as [i|] eqn:Hk; [|by split].
  assert (length (delete k (DetailFetch.fetching s))
          = (length (DetailFetch.fetching s) - 1)%nat) as Hlen.
  { apply length_delete. eauto. }
  assert (1 ≤ length (DetailFetch.fetching s))%nat as Hpos.
  { apply lookup_lt_Some in Hk. lia. }
  set (s1 := DetailFetch.mk _ _ _ _ _ _).
  assert (pooled 2 s1) as Hs1.
  { split; simpl.
    - lia.
    - done.
    - by apply Forall_delete.
    - by apply NoDup_delete.
    - rewrite Hlen. destruct ok; lia.
    - intros Hc Hi. rewrite Hlen, H6; done. }
  destruct (decide _) as [Hmore|Hend]; [by apply processNext_pooled|].
  destruct Hs1 as [G1 G2 G3 G4 G5 G6].
  split; first [done | lia | (intros _ ?; simpl in *; lia)].
Qed.

Lemma step_total s ev :
  DetailFetch.total (DetailFetch.step s ev) = DetailFetch.total s.
Proof.
  destruct ev as [k ok|]; simpl; [|done].
  destruct (DetailFetch.fetching s !! k); [|done].
  destruct (decide _); [|done]. unfold DetailFetch.processNext.
  destruct (decide _); [done|]. simpl. by destruct (DetailFetch.cancelled s).
Qed.

(** X18. The pool of [fetchVideosDetailsAsync], whatever the order in which the
    fetches settle and whenever the task is cancelled: at most three
    fetches are pending, each for a video of its own; a video is taken once
    ([completed], [failed] and the pending fetches add up to the number of
    videos taken); and when all workers have returned without a
    cancellation, every video has been counted, as completed or as failed. *)
Theorem detail_fetch_pool n evs :
  let s := DetailFetch.run (DetailFetch.start n) evs in
  (length (DetailFetch.fetching s) ≤ 3)%nat ∧
  NoDup (DetailFetch.fetching s) ∧
  Forall (λ i, i < DetailFetch.index s)%nat (DetailFetch.fetching s) ∧
  (DetailFetch.index s ≤ n)%nat ∧
  (DetailFetch.completed s + DetailFetch.failed s
   + length (DetailFetch.fetching s))%nat = DetailFetch.index s ∧
  (DetailFetch.finished s = true → DetailFetch.cancelled s = false →
   (DetailFetch.completed s + DetailFetch.failed s)%nat = n).
Proof.
  intros s.
  assert (pooled DetailFetch.CONCURRENT_LIMIT s ∧ DetailFetch.total s = n)
    as [[H1 H2 H3 H4 H5 H6] Ht].
  { subst s. unfold DetailFetch.run.
    apply (foldl_invariant DetailFetch.step
             (λ s, pooled DetailFetch.CONCURRENT_LIMIT s
                   ∧ DetailFetch.total s = n)).
    - intros s e [Hp Hn]. split; [by apply step_pooled|].
      by rewrite step_total.
    - split; [apply start_pooled|].
      unfold DetailFetch.start. simpl.
      unfold DetailFetch.processNext.
      repeat (destruct (decide _); simpl; try done). }
  rewrite Ht in *. unfold DetailFetch.CONCURRENT_LIMIT in *.
  split; [done|]. split; [done|]. split; [done|]. split; [done|].
  split; [done|]. intros Hfin Hc. unfold DetailFetch.finished in Hfin.
  destruct (DetailFetch.fetching s) eqn:Hf; [|done]. simpl in *.
  destruct (decide (DetailFetch.index s < n)%nat) as [Hlt|]; [|lia].
  specialize (H6 Hc Hlt). done.
Qed.

Lemma detail_fetch_pool_witness :
  let s :=
    DetailFetch.run (DetailFetch.start 4)
      [DetailFetch.Settle 1 true; DetailFetch.Settle 0 false;
       DetailFetch.Settle 0 true; DetailFetch.Settle 0 true] in
  DetailFetch.finished s = true ∧ DetailFetch.cancelled s = false ∧
  (DetailFetch.completed s + DetailFetch.failed s)%nat = 4%nat.
Proof.
  intros s.
  assert (DetailFetch.finished s = true) as Hf by reflexivity.
  assert (DetailFetch.cancelled s = false) as Hc by reflexivity.
  split; [exact Hf|]. split; [exact Hc|].
  destruct (detail_fetch_pool 4
              [DetailFetch.Settle 1 true; DetailFetch.Settle 0 false;
               DetailFetch.Settle 0 true; DetailFetch.Settle 0 true])
    as (_ & _ & _ & _ & _ & H).
  exact (H Hf Hc).
Defined.

(** ** The application writes through the methods of the store *)

(** What a turn of the queue does to the store is a call of a writing
    method of the store, or nothing. *)
Lemma processQueue_mutations now proc q :
  ∃ ms, DownloadQueue.storage (DownloadQueue._processQueue now proc q)
        = foldl mutate (DownloadQueue.storage q) ms.
Proof.
  unfold DownloadQueue._processQueue.
  destruct (_ || _); [by exists []|]. destruct (decide _); [by exists []|].
  destruct (Storage.getPendingDownloads _ _) as [|download rest];
    [by exists []|].
  simpl. unfold DownloadQueue._downloadNext.
  destruct (Storage.getVideo _ _); simpl.
  - by exists [MUpdateDownloadStatus (Download.id download) downloading
                 Storage.noPatch now].
  - by exists [MUpdateDownloadStatus (Download.id download) failed
                 (Storage.mkPatch None (Some (Some "视频信息不存在")) None) now].
Qed.

Lemma queue_step_mutations q ev :
  ∃ ms, DownloadQueue.storage (DownloadQueue.step q ev)
        = foldl mutate (DownloadQueue.storage q) ms.
Proof.
  destruct ev as [videoId quality now rnd|now proc| |now proc|n exit fp now|id];
    simpl.
  - exists [MCreateDownload videoId quality now rnd]. apply enqueue_storage.
  - unfold DownloadQueue.start.
    destruct (DownloadQueue.isRunning q); [by exists []|].
    apply (processQueue_mutations now proc
             (DownloadQueue.set_flags true false q)).
  - by exists [].
  - destruct (DownloadQueue.callbacks q) as [|k]; [by exists []|].
    apply (processQueue_mutations now proc (DownloadQueue.set_callbacks k q)).
  - destruct (DownloadQueue.executions q !! n) as [e|]; [|by exists []].
    unfold DownloadQueue._downloadNext_settled.
    destruct exit as [|message]; simpl.
    + by exists [MUpdateDownloadStatus (DownloadQueue.e_id e) completed
                   (Storage.mkPatch (Some (Some fp)) None (Some (Some now)))
                   now].
    + unfold DownloadQueue._handleFailure. simpl.
      destruct (find _ _); [|by exists []]. destruct (decide _); simpl.
      * by exists [MRetryFailedDownload (DownloadQueue.e_id e)].
      * by exists [MUpdateDownloadStatus (DownloadQueue.e_id e) failed
                     (Storage.mkPatch None
                        (Some (String.substring 0 500 <$> Some message))
                        (Some (Some now))) now].
  - by exists [MRetryFailedDownload id].
Qed.

Lemma addAndEnqueue_mutations channelId : ∀ newVideos k r s,
  ∃ ms, MonitoringScheduler.storage
          (MonitoringScheduler.addAndEnqueue channelId newVideos k r s)
        = foldl mutate (MonitoringScheduler.storage s) ms.
Proof.
  induction newVideos as [|v rest IH]; intros k r s; [by exists []|].
  cbn [MonitoringScheduler.addAndEnqueue].
  destruct (IH (S k) r (MonitoringScheduler.addAndEnqueue1 channelId v k r s))
    as [ms Hms].
  exists ([MAddVideo channelId v (MonitoringScheduler.clock r);
           MCreateDownload (VideoData.id v)
             (DownloadQueue.defaultQuality (MonitoringScheduler.config s))
             (MonitoringScheduler.clock r) (MonitoringScheduler.random r k)]
          ++ ms)%list.
  rewrite foldl_app, Hms, addAndEnqueue1_storage. done.
Qed.

Lemma checkChannel_mutations channel r s :
  ∃ ms, MonitoringScheduler.storage
          (MonitoringScheduler.checkChannel channel r s).2
        = foldl mutate (MonitoringScheduler.storage s) ms.
Proof.
  destruct (MonitoringScheduler.listing r) as [vids|] eqn:Hl.
  2:{ exists []. by rewrite checkChannel_storage_rejected. }
  rewrite (checkChannel_storage channel r s vids Hl).
  destruct (addAndEnqueue_mutations (Channel.id channel)
              (List.filter
                 (λ video, negb (Storage.videoExists (VideoData.id video)
                                   (MonitoringScheduler.storage s))) vids)
              0 r
              (MonitoringScheduler.set_listed
                 (MonitoringScheduler.listed s ++ [Channel.url channel]) s))
    as [ms Hms].
  exists (ms ++ [MUpdateChannelLastCheck (Channel.id channel)
                   (MonitoringScheduler.clock r)])%list.
  rewrite foldl_app, Hms. done.
Qed.

Lemma scheduler_step_mutations l ev :
  ∃ ms, MonitoringScheduler.storage
          (MonitoringScheduler.sched (MonitoringScheduler.step l ev))
        = foldl mutate
            (MonitoringScheduler.storage (MonitoringScheduler.sched l)) ms.
Proof.
  destruct ev as [|k r|k|ev]; simpl.
  - exists []. unfold MonitoringScheduler.checkAllChannelsNow_enter.
    destruct (MonitoringScheduler._isChecking _); [done|]. simpl.
    by destruct (List.filter _ _).
  - destruct (MonitoringScheduler.passes l !! k) as [p|]; [|by exists []].
    destruct (MonitoringScheduler.p_todo p) as [|channel rest];
      [by exists []|].
    unfold MonitoringScheduler.checkAllChannelsNow_iter.
    destruct (checkChannel_mutations channel r (MonitoringScheduler.sched l))
      as [ms Hms].
    exists ms.
    destruct (MonitoringScheduler.checkChannel channel r _) as [[n|] s1];
      by destruct rest.
  - exists []. by destruct (MonitoringScheduler.passes l !! k).
  - apply (queue_step_mutations
             (MonitoringScheduler.queueManager (MonitoringScheduler.sched l))).
Qed.

Lemma app_step_mutations l ev :
  isCleanup ev = false →
  ∃ ms, MonitoringScheduler.storage
          (MonitoringScheduler.sched (app_step l ev))
        = foldl mutate
            (MonitoringScheduler.storage (MonitoringScheduler.sched l)) ms.
Proof.
  intros Hev.
  destruct ev as [ev|url name now|id enabled|id|cfg stat calendar clock];
    cbn [app_step]; [| | | |done].
  - apply scheduler_step_mutations.
  - by exists [MAddChannel url name now].
  - by exists [MToggleChannel id enabled].
  - by exists [MRemoveChannel id].
Qed.

(** X19. The application survives a restart.  The server starts on any disk,
    and the application runs: passes of the scheduler, turns of the queue,
    downloads that end well or badly, retries, channels added, toggled and
    removed.  After every turn of the event loop the file of the store
    holds the data in memory; and if the process ends between two turns and
    the server starts again on the same disk, its store holds the channels
    and the videos of the old one, and its tasks, those that were
    ['downloading'] now ['pending'].  (The cleanup is left out: it deletes
    files by name.) *)
Theorem application_survives_restart path fs0 now0 cfg evs now :
  Forall (λ ev, isCleanup ev = false) evs →
  let l0 :=
    MonitoringScheduler.mkLoop
      (MonitoringScheduler.new
         (DownloadQueue.new (Storage.init now0 (Storage.new path fs0)) cfg))
      [] in
  let st :=
    MonitoringScheduler.storage (MonitoringScheduler.sched (app_run l0 evs)) in
  synced st ∧
  Storage.data (restart now st)
  = set_downloads (Storage.resetDownloading <$> downloads (Storage.data st))
                  (Storage.data st).
Proof.
  intros Hevs l0 st.
  assert (synced st ∧ keyed st) as [Hs Hk];
    [|split; [done|by apply restart_data]].
  subst st. unfold app_run.
  assert (synced (MonitoringScheduler.storage (MonitoringScheduler.sched l0))
          ∧ keyed (MonitoringScheduler.storage (MonitoringScheduler.sched l0)))
    as H0.
  { split; [apply init_in_step|apply init_new_keyed]. }
  revert H0. generalize l0. clear l0.
  induction Hevs as [|ev evs Hev _ IH]; intros l Hl; simpl; [done|].
  apply IH. destruct (app_step_mutations l ev Hev) as [ms ->].
  apply (foldl_invariant mutate (λ s, synced s ∧ keyed s)); [|done].
  intros s m [Hs Hk]. split; [by apply mutate_in_step|by apply mutate_keyed].
Qed.

Lemma application_survives_restart_witness :
  let evs :=
    [AddChannel "https://www.youtube.com/@alpha" (Some "alpha") 1;
     Monitor (MonitoringScheduler.Queue (DownloadQueue.Start 2 1));
     Monitor MonitoringScheduler.Trigger;
     Monitor (MonitoringScheduler.Resume 0 (Sample.env 1));
     Monitor (MonitoringScheduler.Queue (DownloadQueue.Callback 22 2))] in
  let l0 :=
    MonitoringScheduler.mkLoop
      (MonitoringScheduler.new
         (DownloadQueue.new (Storage.init 0 (Storage.new Sample.path ∅))
                            Sample.cfg))
      [] in
  let st :=
    MonitoringScheduler.storage (MonitoringScheduler.sched (app_run l0 evs)) in
  Download.status <$> downloads (Storage.data st) = [downloading] ∧
  Download.status <$> downloads (Storage.data (restart 30 st)) = [pending].
Proof.
  intros evs l0 st. split; [reflexivity|].
  destruct (application_survives_restart Sample.path ∅ 0%N Sample.cfg evs 30%N)
    as [_ H].
  - repeat constructor.
  - fold l0 st in H. rewrite H. reflexivity.
Defined.

Lemma cleanupTurn_bounded stat clock acc i :
  bounded acc.2 → bounded (CleanupService.cleanupTurn stat clock acc i).2.
Proof.
  destruct acc as [c st]. unfold CleanupService.cleanupTurn. cbn [snd].
  intros Hb.
  destruct (downloads (Storage.data st) !! i) as [dl|]; [|done].
  destruct (CleanupService._deleteDownloadFiles stat dl (Storage.fs st))
    as [deleted disk].
  destruct (CleanupService.success deleted); [|done].
  set (st2 := Storage.updateDownloadStatus _ _ _ _ _).
  assert (bounded st2) as H2.
  { apply (mutate_bounded (Storage.set_fs disk st)
             (MUpdateDownloadStatus (Download.id dl) completed
                (Storage.mkPatch (Some None) None None) (clock i))).
    exact Hb. }
  by destruct (Download.filePath <$> _) as [[?|]|].
Qed.

(** X20. In the application no task is retried more than twice.  Along every
    run of the application (the automatic retries of [_handleFailure], the
    manual ones of the retry route, and everything else, the cleanup
    included), if no task of the store has a retry count above 2 at the
    beginning, none ever has. *)
Theorem application_retries_at_most_twice l evs :
  bounded (MonitoringScheduler.storage (MonitoringScheduler.sched l)) →
  bounded
    (MonitoringScheduler.storage (MonitoringScheduler.sched (app_run l evs))).
Proof.
  unfold app_run.
  apply (foldl_invariant app_step
           (λ l, bounded (MonitoringScheduler.storage
                            (MonitoringScheduler.sched l)))).
  clear l. intros l ev Hl.
  destruct (isCleanup ev) eqn:Hev.
  - destruct ev as [| | | |cfg stat calendar clock]; try done.
    cbn [app_step]. simpl. unfold CleanupService.cleanupNow.
    destruct (CleanupService.oldRefs _ _) as [|i refs] eqn:E; [done|].
    rewrite <- E. clear E.
    pose proof (foldl_invariant (CleanupService.cleanupTurn stat clock)
                  (λ acc, bounded acc.2)
                  (λ acc j, cleanupTurn_bounded stat clock acc j)) as H.
    specialize (H (CleanupService.oldRefs
                     (calendar (CleanupService.retentionDays cfg))
                     (MonitoringScheduler.storage (MonitoringScheduler.sched l)))
                  (CleanupService.mkCounters 0 0 0,
                   MonitoringScheduler.storage (MonitoringScheduler.sched l))
                  Hl).
    simpl in H. by destruct (foldl _ _ _).
  - destruct (app_step_mutations l ev Hev) as [ms ->].
    apply (foldl_invariant mutate bounded); [|done].
    intros s m. apply mutate_bounded.
Qed.

Lemma application_retries_at_most_twice_witness :
  let l := MonitoringScheduler.mkLoop
             (MonitoringScheduler.new (Sample.retried 1)) [] in
  let evs :=
    [Monitor (MonitoringScheduler.Queue (DownloadQueue.Start 40 1));
     Monitor (MonitoringScheduler.Queue
                (DownloadQueue.Close 0 (ExitError "x") "" 41));
     Monitor (MonitoringScheduler.Queue (DownloadQueue.Retry "dl_7_abc"));
     Monitor (MonitoringScheduler.Queue (DownloadQueue.Retry "dl_7_abc"));
     Monitor (MonitoringScheduler.Queue (DownloadQueue.Retry "dl_7_abc"))] in
  bounded (MonitoringScheduler.storage (MonitoringScheduler.sched l)) ∧
  bounded
    (MonitoringScheduler.storage (MonitoringScheduler.sched (app_run l evs))).
Proof.
  intros l evs.
  assert (bounded (MonitoringScheduler.storage (MonitoringScheduler.sched l)))
    as H.
  { repeat constructor. }
  split; [exact H|]. exact (application_retries_at_most_twice l evs H).
Defined.
